(** * PDF operation orchestrator (src/utils/pdfUtils.ts)

    A shallow embedding of the orchestrator functions of [pdfUtils.ts].
    The functions are [async] TypeScript with [try]/[catch]; they are
    embedded in a state-and-exception monad whose state is the arena of
    typed arrays ([Uint8Array] values are references into it).  The PDF
    editing library (pdf-lib), the rendering library (pdf.js), the
    encryption library and the browser APIs are collaborators of the
    orchestrator: their outcomes are parameters of the development.

    Conventions.
    - JavaScript numbers are binary64 floating-point numbers.  Page angles
      and rotation deltas are integers ([Z]); their sums are exact as long
      as they stay within the safe-integer range, which the properties that
      add angles assume.  (A file whose pages carry other numbers as
      angles is not a document of this model.)  Lengths are rationals
      ([Q]); where the rounding of the arithmetic decides a property (the
      image layout of [createPdfFromImages]) every operation is followed by
      [fl], the rounding to the nearest binary64 number; elsewhere the
      value of the exact expression stands for the number.  Strings are
      byte strings, and [toLowerCase] maps the ASCII capitals.
    - A typed array that a function receives or returns lives in the
      arena; an array that a function makes and consumes itself (the PNG
      bytes of one rendered page) is a value.
    - The editing library's document is its list of pages.  [copyPages]
      throws when an index names no page, [setRotation] throws unless the
      angle is a multiple of 90, [load] may throw; [create] does not, and
      [save] does not: it adds a blank page to a document without pages.
    - [create] and [load] also stamp the document with a producer and the
      current date, which [save] writes out.  The stamp is not part of the
      document model: an instance of the collaborators describes the
      libraries during one call, the bytes its serializer writes included
      (no function of the orchestrator saves twice in one call), and a
      property about two calls in a row takes one instance for each.
    - [compressPdf], [watermarkPdf] and [convertHtmlToPdf] come after the
      other functions, with the calls they add (saving with options, text
      measuring and drawing, colours, the HTML renderer and the PDF writer)
      as further collaborators; the page organizer, the rotation buttons
      and the file names of [App.tsx] follow them. *)

From Stdlib Require Import ZArith QArith Qminmax Qround Qabs Qpower Lqa Lia Ascii.
From Stdlib Require Import Floats.
From Stdlib Require String.
From stdpp Require Import base option list strings pretty gmap.

Set Default Proof Using "Type".

(** ** JavaScript values used by the orchestrator *)

(** A thrown value: the orchestrator only ever reads [name] and [message]. *)
Record JsError := mkJsError {
  err_name : string;
  err_message : option string   (* [None]: the thrown value has no message *)
}.

(** [new Error(msg)] *)
Definition Error (msg : string) : JsError := mkJsError "Error" (Some msg).

(** Outcome of an awaited call: the promise resolved or rejected. *)
Inductive Result (A : Type) : Type :=
| Ok (a : A)
| Err (e : JsError).
Arguments Ok {A} a.
Arguments Err {A} e.

(** Contents of a typed array, and a reference to a typed array. *)
Abbreviation bytes := (list Byte.byte).
Abbreviation Uint8Array := nat (only parsing).
Abbreviation Store := (list bytes) (only parsing).

(** ** String operations of the JavaScript runtime (ASCII model) *)

Definition lower_ascii (c : ascii) : ascii :=
  let n := nat_of_ascii c in
  if (65 <=? n)%nat && (n <=? 90)%nat then ascii_of_nat (n + 32) else c.

(** [s.toLowerCase()] *)
Fixpoint toLowerCase (s : string) : string :=
  match s with
  | EmptyString => EmptyString
  | String c s' => String (lower_ascii c) (toLowerCase s')
  end.

(** [s.startsWith(p)] *)
Fixpoint startsWith (s p : string) {struct p} : bool :=
  match p, s with
  | EmptyString, _ => true
  | String _ _, EmptyString => false
  | String a p', String b s' => if Ascii.eqb a b then startsWith s' p' else false
  end.

(** [s.includes(sub)] *)
Fixpoint includes (s sub : string) : bool :=
  startsWith s sub ||
  match s with
  | EmptyString => false
  | String _ s' => includes s' sub
  end.

(** [s.endsWith(suffix)] *)
Definition endsWith (s suffix : string) : bool :=
  let n := String.length s in
  let k := String.length suffix in
  (k <=? n)%nat && String.eqb (String.substring (n - k) k s) suffix.

(** JavaScript truthiness of an optional string: [undefined] and the empty
    string are falsy. *)
Definition truthy (s : option string) : bool :=
  match s with
  | Some (String _ _) => true
  | _ => false
  end.

(** [e.message && e.message.includes(sub)] *)
Definition message_includes (e : JsError) (sub : string) : bool :=
  match err_message e with
  | Some m => includes m sub
  | None => false
  end.

(** ** Binary64 arithmetic

    A finite binary64 number is a rational; an arithmetic operation of the
    code is the exact operation followed by the rounding to the nearest
    number with a significand of 53 bits, ties to the even significand.
    The exponent range is not modelled: the numbers stay far from overflow
    and underflow. *)

(** The exponent [e] with [2^e <= q < 2^(e+1)], for [0 < q]. *)
Definition floorLog2 (q : Q) : Z :=
  let t := (Z.log2 (Qnum q) - Z.log2 (Zpos (Qden q)))%Z in
  if Qle_bool (2 ^ t) q then t else (t - 1)%Z.

(** The nearest integer, ties to the even one. *)
Definition roundHalfEven (x : Q) : Z :=
  let k := Qfloor x in
  match Qcompare (x - inject_Z k) (1 # 2) with
  | Lt => k
  | Gt => (k + 1)%Z
  | Eq => if Z.even k then k else (k + 1)%Z
  end.

(** A positive number rounded to 53 significant bits. *)
Definition roundPositive (q : Q) : Q :=
  let e := (floorLog2 q - 52)%Z in
  (inject_Z (roundHalfEven (q / 2 ^ e)) * 2 ^ e)%Q.

(** The binary64 number nearest to [q]. *)
Definition fl (q : Q) : Q :=
  let q := Qred q in
  match Qnum q with
  | Z0 => 0%Q
  | Zpos _ => roundPositive q
  | Zneg _ => (- roundPositive (- q))%Q
  end.

(** Half the distance, relative to 1, between 1 and the next number:
    the largest relative error of one rounding. *)
Definition unitRoundoff : Q := 1 # (2 ^ 53).

(** A bound on the relative error of three roundings in a row. *)
Definition roundingSlack : Q := 1 # (2 ^ 51).

(** The value of a finite hardware float, to compare [fl] with the
    machine's own arithmetic. *)
Definition Q_of_float (f : float) : Q :=
  match Prim2SF f with
  | S754_finite negative significand exponent =>
      ((if negative then -1 else 1) * inject_Z (Zpos significand)
       * 2 ^ exponent)%Q
  | _ => 0%Q
  end.

(** ** The monad of [async] functions *)

Definition M (A : Type) : Type := Store -> Result A * Store.

Definition ret {A} (a : A) : M A := fun st => (Ok a, st).

Definition throw {A} (e : JsError) : M A := fun st => (Err e, st).

Definition bind {A B} (m : M A) (k : A -> M B) : M B :=
  fun st =>
    match m st with
    | (Ok a, st') => k a st'
    | (Err e, st') => (Err e, st')
    end.

(** [try { body } catch (e) { handler }] *)
Definition try_catch {A} (body : M A) (handler : JsError -> M A) : M A :=
  fun st =>
    match body st with
    | (Ok a, st') => (Ok a, st')
    | (Err e, st') => handler e st'
    end.

(** Awaiting a library call that leaves every typed array alone. *)
Definition await {A} (r : Result A) : M A := fun st => (r, st).

Notation "x <- m ;; k" := (bind m (fun x => k))
  (at level 100, m at next level, right associativity).
Notation "m ;;; k" := (bind m (fun _ => k))
  (at level 100, right associativity).

(** Monadic left fold: a [for] loop whose body may throw. *)
Fixpoint foldM {A Acc} (body : Acc -> A -> M Acc) (l : list A) (s : Acc)
  : M Acc :=
  match l with
  | [] => ret s
  | x :: l' => s' <- body s x ;; foldM body l' s'
  end.

(** [array.forEach((x, index) => ...)] with a callback that may throw. *)
Fixpoint forEachM {A Acc} (f : Acc -> A -> nat -> M Acc) (l : list A)
    (index : nat) (s : Acc) : M Acc :=
  match l with
  | [] => ret s
  | x :: l' => s' <- f s x index ;; forEachM f l' (S index) s'
  end.

(** *** Typed arrays *)

Definition contents (st : Store) (a : Uint8Array) : bytes :=
  default [] (st !! a).

(** Reading a typed array. *)
Definition read (a : Uint8Array) : M bytes :=
  fun st => (Ok (contents st a), st).

(** Creating a typed array: it gets a reference no earlier array has. *)
Definition alloc (b : bytes) : M Uint8Array :=
  fun st => (Ok (length st), st ++ [b]).

(** [a.slice(0)] *)
Definition slice0 (a : Uint8Array) : M Uint8Array :=
  b <- read a ;; alloc b.

(** A computation preserves the typed arrays when every array that existed
    before it still exists after it, with the same contents. *)
Definition preserves {A} (m : M A) : Prop :=
  forall st : Store,
    (length st <= length (m st).2)%nat
    /\ forall a : Uint8Array, (a < length st)%nat -> (m st).2 !! a = st !! a.

(** ** Objects of the collaborating libraries *)

(** *** The editing library's document object model

    A document is its list of pages; a page has a size, a rotation entry
    in degrees and the drawings on it. *)

Inductive ImageFormat := Jpg | Png.

Record PDFImage := mkPDFImage {
  image_format : ImageFormat;
  image_data : bytes;
  image_width : Q;
  image_height : Q
}.

Inductive Drawing :=
| ContentStream (data : bytes)
| DrawnImage (image : PDFImage) (x y width height : Q).

Record PDFPage := mkPDFPage {
  page_width : Q;
  page_height : Q;
  page_rotate : Z;
  page_drawings : list Drawing
}.

Record PDFDocument := mkPDFDocument { getPages : list PDFPage }.

(** [PDFDocument.create()]: a document without pages.  The producer and
    the dates it is stamped with are not in the document: they belong to
    the serializer [PDFDocument_save] of the call in which the document is
    made (see the conventions), so that no two calls are taken to write the
    same bytes. *)
Definition PDFDocument_create : PDFDocument := mkPDFDocument [].

Definition getPageCount (doc : PDFDocument) : nat := length (getPages doc).

(** [doc.getPageIndices()] *)
Definition getPageIndices (doc : PDFDocument) : list nat :=
  seq 0 (getPageCount doc).

(** [doc.addPage(page)] *)
Definition addPage (doc : PDFDocument) (page : PDFPage) : PDFDocument :=
  mkPDFDocument (getPages doc ++ [page]).

(** The page [doc.addPage([width, height])] creates. *)
Definition blankPage (width height : Q) : PDFPage :=
  mkPDFPage width height 0 [].

(** [page.drawImage(image, { x, y, width, height })] *)
Definition drawImage (page : PDFPage) (image : PDFImage) (x y width height : Q)
  : PDFPage :=
  mkPDFPage (page_width page) (page_height page) (page_rotate page)
            (page_drawings page ++ [DrawnImage image x y width height]).

(** [page.getRotation().angle] *)
Definition getRotation (page : PDFPage) : Z := page_rotate page.

(** [degrees(angle)] *)
Definition degrees (angle : Z) : Z := angle.

(** [image.scale(factor)] *)
Definition image_scale (image : PDFImage) (factor : Q) : Q * Q :=
  (image_width image * factor, image_height image * factor)%Q.

(** *** The rendering library's objects and the canvas *)

Record PageViewport := mkPageViewport {
  viewport_width : Q;
  viewport_height : Q
}.

Record Canvas := mkCanvas {
  canvas_width : Q;
  canvas_height : Q;
  canvas_pixels : bytes
}.

(** [document.createElement('canvas')] with its size set. *)
Definition createCanvas (width height : Q) : Canvas := mkCanvas width height [].

Record PDFPageProxy := mkPDFPageProxy {
  getViewport : Q -> PageViewport;                  (* [getViewport({ scale })] *)
  render : Canvas -> PageViewport -> Result Canvas  (* [render({...}).promise] *)
}.

Record PDFDocumentProxy := mkPDFDocumentProxy {
  numPages : nat;
  getPage : nat -> Result PDFPageProxy
}.

Record PdfJsLib := mkPdfJsLib {
  (* outcome of [getDocument({ data, password }).promise] *)
  getDocument : bytes -> option string -> Result PDFDocumentProxy
}.

(** A browser [File]: its name, its MIME type, and what a [FileReader]
    gets from it ([onload] with the bytes, or [onerror]). *)
Record File := mkFile {
  file_name : string;
  file_type : string;
  file_read : Result bytes
}.

(** *** The collaborators of the orchestrator *)

Class Collaborators := {
  (* pdf-lib *)
  PDFDocument_load : bytes -> option string -> Result PDFDocument;
  PDFDocument_save : PDFDocument -> bytes;
  embedJpg : bytes -> Result PDFImage;
  embedPng : bytes -> Result PDFImage;
  PageSizes_A4 : Q * Q;
  PageSizes_Letter : Q * Q;
  (* pdf.js: [window.pdfjsLib], absent when the script did not load *)
  pdfjsLib : option PdfJsLib;
  (* what is left in a typed array once it was handed to [getDocument] *)
  transferred : bytes -> bytes;
  (* @pdfsmaller/pdf-encrypt-lite; [None] is a missing result *)
  encryptPDF : bytes -> string -> string -> Result (option bytes);
  (* what [page.setRotation] throws for an angle it does not accept *)
  setRotation_rejects : Z -> JsError;
  (* browser *)
  toDataURL : Canvas -> option string -> string;
  atob : option string -> Result string;
  (* the engine's message for reading the named property of [undefined] *)
  undefined_message : string -> string
}.

(** What a JavaScript engine throws when a property of [undefined] is
    read. *)
Definition TypeError_undefined `{Collaborators} (property : string) : JsError :=
  mkJsError "TypeError" (Some (undefined_message property)).

(** [newDoc.copyPages(srcDoc, indices)]: the copies of the pages of
    [srcDoc] at [indices], in the order of [indices]; for an index with no
    page the library reads [node] of [undefined]. *)
Fixpoint copyPages `{Collaborators} (srcDoc : PDFDocument) (indices : list nat)
  : Result (list PDFPage) :=
  match indices with
  | [] => Ok []
  | i :: rest =>
      match getPages srcDoc !! i with
      | None => Err (TypeError_undefined "node")
      | Some page =>
          match copyPages srcDoc rest with
          | Ok pages => Ok (page :: pages)
          | Err e => Err e
          end
      end
  end.

(** [page.setRotation(angle)]: the library accepts the multiples of 90
    ([angle % 90 === 0]) and throws on any other angle. *)
Definition setRotation `{Collaborators} (page : PDFPage) (angle : Z)
  : Result PDFPage :=
  if (Z.rem angle 90 =? 0)%Z
  then Ok (mkPDFPage (page_width page) (page_height page) angle
                     (page_drawings page))
  else Err (setRotation_rejects angle).

(** What [doc.save()] does before it serializes: a document without pages
    gets one blank page of the default size. *)
Definition prepareForSave `{Collaborators} (doc : PDFDocument) : PDFDocument :=
  match getPages doc with
  | [] => addPage doc (blankPage PageSizes_A4.1 PageSizes_A4.2)
  | _ :: _ => doc
  end.

Inductive PageSize := A4 | Letter | Fit.
Inductive Orientation := Portrait | Landscape.

Record ImageToPdfOptions := mkImageToPdfOptions {
  pageSize : PageSize;
  orientation : Orientation
}.

(** [s.split(sep)] *)
Fixpoint split (sep : ascii) (s : string) : list string :=
  match s with
  | EmptyString => [EmptyString]
  | String c s' =>
      if Ascii.eqb c sep then EmptyString :: split sep s'
      else match split sep s' with
           | [] => [String c EmptyString]
           | w :: ws => String c w :: ws
           end
  end.

(** The loop [bytes[j] = binaryString.charCodeAt(j)]. *)
Definition charCodes (binaryString : string) : bytes :=
  String.list_byte_of_string binaryString.

(** ** The orchestrator functions *)

Section Orchestrator.
Context `{Collaborators}.

(** [pdfjs.getDocument({ data, password }).promise]: the outcome depends on
    the bytes and the password; the typed array [data] itself is handed to
    the library. *)
Definition pdfjs_getDocument (pdfjs : PdfJsLib) (data : Uint8Array)
    (password : option string) : M PDFDocumentProxy :=
  fun st => (getDocument pdfjs (contents st data) password,
             <[data := transferred (contents st data)]> st).

(** [doc.save()] returns a new typed array. *)
Definition save (doc : PDFDocument) : M Uint8Array :=
  alloc (PDFDocument_save (prepareForSave doc)).

(** [array.forEach((x, index) => ...)] on a mutable accumulator. *)
Fixpoint forEach {A Acc} (f : Acc -> A -> nat -> Acc) (l : list A)
    (index : nat) (s : Acc) : Acc :=
  match l with
  | [] => s
  | x :: l' => forEach f l' (S index) (f s x index)
  end.

Definition readFileAsArrayBuffer (file : File) : M Uint8Array :=
  result <- await (file_read file) ;;
  alloc result.

Definition unsupported_message : string :=
  "The password is correct, but this PDF uses an encryption format (likely AES-256 R6) not supported by the editing engine.".

Definition incorrect_message : string :=
  "Incorrect password. Please double-check your password.".

Definition generic_message : string :=
  "Incorrect password or the file is encrypted with an unsupported format.".

(** The test of line 36 on the lower-cased message. *)
Definition encryption_related (e : JsError) : bool :=
  let msg := toLowerCase (default EmptyString (err_message e)) in
  includes msg "encrypted" || includes msg "password"
  || includes msg "security handler".

(** The test of line 63. *)
Definition password_specific (pdfJsErr : JsError) : bool :=
  String.eqb (err_name pdfJsErr) "PasswordException"
  || message_includes pdfJsErr "Password".

Definition loadPdf (pdfBytes : Uint8Array) (password : option string)
  : M PDFDocument :=
  try_catch
    (let options := if truthy password then password else None in
     data <- read pdfBytes ;;
     await (PDFDocument_load data options))
    (fun e =>
       if encryption_related e then
         (if truthy password then
            match pdfjsLib with
            | Some pdfjs =>
                try_catch
                  (clone <- slice0 pdfBytes ;;
                   pdfjs_getDocument pdfjs clone password ;;;
                   throw (Error unsupported_message))
                  (fun pdfJsErr =>
                     if message_includes pdfJsErr "editing engine"
                     then throw pdfJsErr
                     else if password_specific pdfJsErr
                     then throw (Error incorrect_message)
                     else ret tt)
            | None => ret tt
            end
          else ret tt) ;;;
         throw (Error generic_message)
       else throw e).

(** One turn of the page loop of [rasterizePdf]. *)
Definition rasterizePdf_page (pdf : PDFDocumentProxy) (newPdfDoc : PDFDocument)
    (i : nat) : M PDFDocument :=
  page <- await (getPage pdf i) ;;
  let scale := 2%Q in
  let viewport := getViewport page scale in
  let canvas :=
    createCanvas (viewport_width viewport) (viewport_height viewport) in
  canvas <- await (render page canvas viewport) ;;
  let imgDataUrl := toDataURL canvas (Some "image/png") in
  let base64 := split "," imgDataUrl !! 1%nat in
  binaryString <- await (atob base64) ;;
  let bytes := charCodes binaryString in
  embeddedImage <- await (embedPng bytes) ;;
  let '(width, height) := image_scale embeddedImage (1 / scale)%Q in
  let newPage :=
    drawImage (blankPage width height) embeddedImage 0 0 width height in
  ret (addPage newPdfDoc newPage).

Definition rasterizePdf (pdfBytes : Uint8Array) (password : option string)
  : M Uint8Array :=
  match pdfjsLib with
  | None => throw (Error "PDF engine not initialized.")
  | Some pdfjs =>
      clone <- slice0 pdfBytes ;;
      pdf <- pdfjs_getDocument pdfjs clone password ;;
      newPdfDoc <-
        foldM (rasterizePdf_page pdf) (seq 1 (numPages pdf)) PDFDocument_create ;;
      save newPdfDoc
  end.

Definition getCleanPdfBytes (pdfBytes : Uint8Array) (password : option string)
  : M Uint8Array :=
  try_catch
    (srcDoc <- loadPdf pdfBytes password ;;
     let newDoc := PDFDocument_create in
     let indices := getPageIndices srcDoc in
     copiedPages <- await (copyPages srcDoc indices) ;;
     let newDoc := forEach (fun doc p _ => addPage doc p) copiedPages 0 newDoc in
     save newDoc)
    (fun e =>
       if message_includes e "editing engine"
       then rasterizePdf pdfBytes password
       else throw e).

(** [Math.min(availableWidth / imgWidth, availableHeight / imgHeight, 1)],
    every operation rounded. *)
Definition image_scale_factor (pageWidth pageHeight imgWidth imgHeight : Q) : Q :=
  let margin := 20%Q in
  let availableWidth := fl (pageWidth - margin * 2)%Q in
  let availableHeight := fl (pageHeight - margin * 2)%Q in
  Qmin (Qmin (fl (availableWidth / imgWidth)%Q)
             (fl (availableHeight / imgHeight)%Q)) 1.

(** Page and image sizes chosen by [createPdfFromImages] for one image:
    [(pageWidth, pageHeight, imgWidth, imgHeight)]. *)
Definition image_layout (options : ImageToPdfOptions) (image : PDFImage)
  : Q * Q * Q * Q :=
  let imgWidth := image_width image in
  let imgHeight := image_height image in
  match pageSize options with
  | Fit => (imgWidth, imgHeight, imgWidth, imgHeight)
  | sz =>
      let size := match sz with Letter => PageSizes_Letter | _ => PageSizes_A4 end in
      let pageWidth :=
        match orientation options with Portrait => size.1 | Landscape => size.2 end in
      let pageHeight :=
        match orientation options with Portrait => size.2 | Landscape => size.1 end in
      let scale := image_scale_factor pageWidth pageHeight imgWidth imgHeight in
      (pageWidth, pageHeight, fl (imgWidth * scale)%Q, fl (imgHeight * scale)%Q)
  end.

(** The page added for one embedded image. *)
Definition image_page (options : ImageToPdfOptions) (image : PDFImage) : PDFPage :=
  let '(pageWidth, pageHeight, imgWidth, imgHeight) := image_layout options image in
  let page := blankPage pageWidth pageHeight in
  let x := fl (fl (pageWidth - imgWidth) / 2)%Q in
  let y := fl (fl (pageHeight - imgHeight) / 2)%Q in
  drawImage page image x y imgWidth imgHeight.

(** The [try] block of the loop: the embedded image, or [None] where the
    loop [continue]s. *)
Definition embedFile (file : File) (imageBytes : Uint8Array) : M (option PDFImage) :=
  try_catch
    (if String.eqb (file_type file) "image/jpeg"
        || endsWith (file_name file) ".jpg" || endsWith (file_name file) ".jpeg"
     then data <- read imageBytes ;; image <- await (embedJpg data) ;; ret (Some image)
     else if String.eqb (file_type file) "image/png"
             || endsWith (file_name file) ".png"
     then data <- read imageBytes ;; image <- await (embedPng data) ;; ret (Some image)
     else ret None)
    (fun e => ret None).

Definition createPdfFromImages_file (options : ImageToPdfOptions)
    (pdfDoc : PDFDocument) (file : File) : M PDFDocument :=
  imageBytes <- readFileAsArrayBuffer file ;;
  image <- embedFile file imageBytes ;;
  match image with
  | None => ret pdfDoc
  | Some image => ret (addPage pdfDoc (image_page options image))
  end.

Definition createPdfFromImages (files : list File) (options : ImageToPdfOptions)
  : M Uint8Array :=
  pdfDoc <- foldM (createPdfFromImages_file options) files PDFDocument_create ;;
  save pdfDoc.

Definition mergePdfs_file (mergedPdf : PDFDocument) (fileBytes : Uint8Array)
  : M PDFDocument :=
  data <- read fileBytes ;;
  pdf <- await (PDFDocument_load data None) ;;
  copiedPages <- await (copyPages pdf (getPageIndices pdf)) ;;
  ret (forEach (fun doc page _ => addPage doc page) copiedPages 0 mergedPdf).

Definition mergePdfs (files : list Uint8Array) : M Uint8Array :=
  mergedPdf <- foldM mergePdfs_file files PDFDocument_create ;;
  save mergedPdf.

Definition rotatePdf (pdfBytes : Uint8Array) (rotation : Z)
    (password : option string) : M Uint8Array :=
  pdfDoc <- loadPdf pdfBytes password ;;
  let pages := getPages pdfDoc in
  pages <-
    forEachM (fun done page _ =>
                let currentRotation := getRotation page in
                page <- await (setRotation page
                                 (degrees (currentRotation + rotation))) ;;
                ret (done ++ [page]))
             pages 0 [] ;;
  save (mkPDFDocument pages).

Definition organizePdf (pdfBytes : Uint8Array) (pageOrder : list nat)
    (rotations : gmap nat Z) (password : option string) : M Uint8Array :=
  pdfDoc <- loadPdf pdfBytes password ;;
  let newPdf := PDFDocument_create in
  copiedPages <- await (copyPages pdfDoc pageOrder) ;;
  newPdf <-
    forEachM (fun newPdf page index =>
                let rotation := default 0%Z (rotations !! index) in
                page <-
                  (if (rotation =? 0)%Z then ret page
                   else await (setRotation page
                                 (degrees (getRotation page + rotation)))) ;;
                ret (addPage newPdf page))
             copiedPages 0 newPdf ;;
  save newPdf.

Definition encryption_failed : JsError :=
  Error "Encryption failed: Output is empty.".

Definition protectPdf (pdfBytes : Uint8Array) (password : string)
    (oldPassword : option string) : M Uint8Array :=
  cleanBytes <- getCleanPdfBytes pdfBytes oldPassword ;;
  clean <- read cleanBytes ;;
  encrypted <- await (encryptPDF clean password password) ;;
  match encrypted with
  | None => throw encryption_failed
  | Some output =>
      encryptedBytes <- alloc output ;;
      if (length output =? 0)%nat then throw encryption_failed
      else ret encryptedBytes
  end.

Definition unlockPdf (pdfBytes : Uint8Array) (password : string) : M Uint8Array :=
  getCleanPdfBytes pdfBytes (Some password).

(** One turn of the page loop of [generatePdfThumbnails]. *)
Definition generatePdfThumbnails_page (pdf : PDFDocumentProxy)
    (thumbnails : list string) (i : nat) : M (list string) :=
  page <- await (getPage pdf i) ;;
  let viewport := getViewport page (1 # 2)%Q in
  let canvas :=
    createCanvas (viewport_width viewport) (viewport_height viewport) in
  canvas <- await (render page canvas viewport) ;;
  ret (thumbnails ++ [toDataURL canvas None]).

Definition generatePdfThumbnails (pdfBytes : Uint8Array)
    (password : option string) : M (list string) :=
  match pdfjsLib with
  | None => ret []
  | Some pdfjs =>
      try_catch
        (pdf <- pdfjs_getDocument pdfjs pdfBytes password ;;
         foldM (generatePdfThumbnails_page pdf) (seq 1 (numPages pdf)) [])
        (fun e => ret [])
  end.

Definition checkPdfPassword (file : File) : M bool :=
  match pdfjsLib with
  | None => ret false
  | Some pdfjs =>
      arrayBuffer <- readFileAsArrayBuffer file ;;
      try_catch
        (pdfjs_getDocument pdfjs arrayBuffer None ;;; ret false)
        (fun e =>
           if String.eqb (err_name e) "PasswordException" then ret true
           else ret false)
  end.

End Orchestrator.

(** ** Derived descriptions of what the functions compute *)

Section Derived.
Context `{Collaborators}.

(** The two tests of the [try] block of [createPdfFromImages]. *)
Definition isJpeg (file : File) : bool :=
  String.eqb (file_type file) "image/jpeg"
  || endsWith (file_name file) ".jpg" || endsWith (file_name file) ".jpeg".

Definition isPng (file : File) : bool :=
  String.eqb (file_type file) "image/png" || endsWith (file_name file) ".png".

(** The image the [try] block gets from a file with bytes [data], if any:
    none for a file that is neither JPEG nor PNG, and none when the
    embedding throws. *)
Definition embedded (file : File) (data : bytes) : option PDFImage :=
  if isJpeg file then
    match embedJpg data with Ok image => Some image | Err _ => None end
  else if isPng file then
    match embedPng data with Ok image => Some image | Err _ => None end
  else None.

(** The page format the options select when the page size is not Fit:
    the library's size, with its sides exchanged for Landscape. *)
Definition selected_format (options : ImageToPdfOptions) : Q * Q :=
  let size :=
    match pageSize options with Letter => PageSizes_Letter | _ => PageSizes_A4 end
  in
  match orientation options with
  | Portrait => size
  | Landscape => (size.2, size.1)
  end.

(** The images the loop embeds, in file order. *)
Definition embedded_images (files : list File) (datas : list bytes)
  : list PDFImage :=
  omap (uncurry embedded) (zip files datas).

(** The outcomes of a callback over a list, in order: the results, or the
    first error. *)
Fixpoint mapResult {A B} (f : nat -> A -> Result B) (l : list A) (index : nat)
  : Result (list B) :=
  match l with
  | [] => Ok []
  | x :: l' =>
      match f index x with
      | Err e => Err e
      | Ok y =>
          match mapResult f l' (S index) with
          | Ok ys => Ok (y :: ys)
          | Err e => Err e
          end
      end
  end.

(** An integer small enough for the sum of two such integers to be exact
    in binary64. *)
Definition safeInteger (angle : Z) : Prop := (Z.abs angle <= 2 ^ 52)%Z.

(** An angle the library accepts, in the range where the sum of two such
    angles is exact in binary64. *)
Definition validAngle (angle : Z) : Prop :=
  (90 | angle)%Z /\ safeInteger angle.

(** What [rotatePdf] does to one page. *)
Definition rotated_page (rotation : Z) (page : PDFPage) : Result PDFPage :=
  setRotation page (degrees (getRotation page + rotation)).

(** A document with the delta added to the angle of every page. *)
Definition rotated (rotation : Z) (doc : PDFDocument) : PDFDocument :=
  mkPDFDocument
    (map (fun page =>
            mkPDFPage (page_width page) (page_height page)
                      (getRotation page + rotation) (page_drawings page))
         (getPages doc)).

(** What [organizePdf] does to the page at output position [index]. *)
Definition organized_page (rotations : gmap nat Z) (index : nat)
    (page : PDFPage) : Result PDFPage :=
  let rotation := default 0%Z (rotations !! index) in
  if (rotation =? 0)%Z then Ok page
  else setRotation page (degrees (getRotation page + rotation)).

(** The rotation map leaves the page at output position [index] alone, or
    gives it an angle the library accepts. *)
Definition rotation_accepted (rotations : gmap nat Z) (index : nat)
    (page : PDFPage) : Prop :=
  default 0%Z (rotations !! index) = 0%Z
  \/ (90 | getRotation page + default 0%Z (rotations !! index))%Z.

End Derived.

(** Proves [validAngle] of a numeral. *)
Ltac valid_angle :=
  split; [apply Z.mod_divide; [discriminate | reflexivity]
         | vm_compute; discriminate].

(** ** A small instance of the collaborators

    A toy file format on which the orchestrator can be run: a file is a tag
    byte followed by one byte per page.  Tag [x00] is an unencrypted file
    whose page bytes count quarter turns; tag [x01] is a file encrypted in a
    way only the rendering library opens, with the password [open sesame];
    anything else is not a PDF. *)

Module Demo.

Definition page_of_byte (b : Byte.byte) : PDFPage :=
  mkPDFPage 612 792 (90 * Z.of_N (Byte.to_N b)) [].

Definition byte_of_page (page : PDFPage) : Byte.byte :=
  default Byte.x00 (Byte.of_N (Z.to_N ((page_rotate page / 90) mod 256))).

Definition load (data : bytes) (password : option string) : Result PDFDocument :=
  match data with
  | Byte.x00 :: pages => Ok (mkPDFDocument (map page_of_byte pages))
  | Byte.x01 :: _ =>
      Err (Error "Input document to PDFDocument.load is encrypted.")
  | _ => Err (Error "Failed to parse PDF document")
  end.

Definition save (doc : PDFDocument) : bytes :=
  Byte.x00 :: map byte_of_page (getPages doc).

(** An image file is its width and its height, one byte each, or two
    bytes each with the high byte first. *)
Definition embed (format : ImageFormat) (data : bytes) : Result PDFImage :=
  match data with
  | [w; h] =>
      if (0 <? Byte.to_N w)%N && (0 <? Byte.to_N h)%N
      then Ok (mkPDFImage format data
                 (inject_Z (Z.of_N (Byte.to_N w))) (inject_Z (Z.of_N (Byte.to_N h))))
      else Err (Error "Invalid image dimensions")
  | [w1; w0; h1; h0] =>
      let w := (256 * Byte.to_N w1 + Byte.to_N w0)%N in
      let h := (256 * Byte.to_N h1 + Byte.to_N h0)%N in
      if (0 <? w)%N && (0 <? h)%N
      then Ok (mkPDFImage format data (inject_Z (Z.of_N w)) (inject_Z (Z.of_N h)))
      else Err (Error "Invalid image dimensions")
  | _ => Err (Error "Unrecognised image data")
  end.

Definition pageProxy (b : Byte.byte) : PDFPageProxy :=
  mkPDFPageProxy
    (fun scale => mkPageViewport (612 * scale) (792 * scale))
    (fun canvas _ =>
       Ok (mkCanvas (canvas_width canvas) (canvas_height canvas) [b])).

Definition documentProxy (pages : bytes) : PDFDocumentProxy :=
  mkPDFDocumentProxy (length pages)
    (fun i =>
       match pages !! pred i with
       | Some b => Ok (pageProxy b)
       | None => Err (Error "Invalid page request.")
       end).

Definition pdfjs : PdfJsLib :=
  mkPdfJsLib (fun data password =>
    match data with
    | Byte.x00 :: pages => Ok (documentProxy pages)
    | Byte.x01 :: pages =>
        match password with
        | None => Err (mkJsError "PasswordException" (Some "No password given"))
        | Some p =>
            if String.eqb p "open sesame" then Ok (documentProxy pages)
            else Err (mkJsError "PasswordException" (Some "Incorrect Password"))
        end
    | _ => Err (mkJsError "InvalidPDFException" (Some "Invalid PDF structure."))
    end).

Definition encrypt (clean : bytes) (user owner : string)
  : Result (option bytes) :=
  if String.eqb user "void" then Ok None
  else if String.eqb user "blank" then Ok (Some [])
  else Ok (Some (Byte.x01 :: tail clean)).

(** The instance; the rendering library is loaded or not. *)
Definition collaborators (lib : option PdfJsLib) : Collaborators := {|
  PDFDocument_load := load;
  PDFDocument_save := save;
  embedJpg := embed Jpg;
  embedPng := embed Png;
  PageSizes_A4 := (fl (59528 # 100), fl (84189 # 100));
  PageSizes_Letter := (612, 792)%Q;
  pdfjsLib := lib;
  transferred := fun _ => [];
  encryptPDF := encrypt;
  setRotation_rejects := fun angle =>
    Error ("`degreesAngle` must be a multiple of 90, but was actually "
           +:+ pretty angle);
  toDataURL := fun _ _ => "data:image/png;base64,AQE=";
  atob := fun base64 =>
    match base64 with
    | Some _ => Ok (String "001" (String "001" EmptyString))
    | None => Err (mkJsError "InvalidCharacterError" None)
    end;
  undefined_message := fun property =>
    "Cannot read properties of undefined (reading '" +:+ property +:+ "')"
|}.

(** The instance with the rendering library loaded. *)
Definition env : Collaborators := collaborators (Some pdfjs).

(** What a [FileReader] reports for a file it cannot read. *)
Definition read_error : JsError := mkJsError "NotReadableError" None.
Definition unreadable : Result bytes := Err read_error.

(** Sample files: two pages (turned 90 and 180), three pages (270, 360,
    450), three pages (0, 90, 180), one page; and the documents the editing
    library opens from the first three. *)
Definition fileA : bytes := [Byte.x00; Byte.x01; Byte.x02].
Definition fileB : bytes := [Byte.x00; Byte.x03; Byte.x04; Byte.x05].
Definition fileC : bytes := [Byte.x00; Byte.x00; Byte.x01; Byte.x02].
Definition fileD : bytes := [Byte.x00; Byte.x01].
Definition docA : PDFDocument :=
  mkPDFDocument [page_of_byte Byte.x01; page_of_byte Byte.x02].
Definition docB : PDFDocument :=
  mkPDFDocument [page_of_byte Byte.x03; page_of_byte Byte.x04; page_of_byte Byte.x05].
Definition docC : PDFDocument :=
  mkPDFDocument [page_of_byte Byte.x00; page_of_byte Byte.x01; page_of_byte Byte.x02].

(** Sample files for the browser: a 200 by 100 PNG, a text file, a PNG
    whose embedding throws, an encrypted PDF, a PDF that cannot be read. *)
Definition photo : File := mkFile "photo.png" "image/png" (Ok [Byte.xc8; Byte.x64]).
Definition notes : File := mkFile "notes.txt" "text/plain" (Ok [Byte.x41]).
Definition broken : File := mkFile "broken.png" "image/png" (Ok [Byte.x00]).
Definition locked : File :=
  mkFile "locked.pdf" "application/pdf" (Ok [Byte.x01; Byte.x02]).
Definition scan : File := mkFile "scan.pdf" "application/pdf" unreadable.
Definition lost : File := mkFile "lost.txt" "text/plain" unreadable.

(** A PNG of 1044 by 100 pixels, and the image embedded from it. *)
Definition wide : File :=
  mkFile "wide.png" "image/png" (Ok [Byte.x04; Byte.x14; Byte.x00; Byte.x64]).
Definition wideImage : PDFImage :=
  mkPDFImage Png [Byte.x04; Byte.x14; Byte.x00; Byte.x64] 1044 100.

(** A rotation map: output position 0 turned by 90, position 1 by 180. *)
Definition turns : gmap nat Z := <[0%nat := 90%Z]> (<[1%nat := 180%Z]> ∅).

End Demo.

(** ** The rest of [pdfUtils.ts]

    [compressPdf], [watermarkPdf] and [convertHtmlToPdf], with the calls
    they make into the editing library, [html2canvas] and [jsPDF] as further
    collaborators. *)

Record SaveOptions := mkSaveOptions { useObjectStreams : bool }.

(** The colour object [rgb(r, g, b)] returns. *)
Record RGB := mkRGB {
  rgb_red : Q;
  rgb_green : Q;
  rgb_blue : Q
}.

(** The options [watermarkPdf] passes to [page.drawText] (the font is
    always the embedded Helvetica Bold). *)
Record DrawTextOptions := mkDrawTextOptions {
  text_x : Q;
  text_y : Q;
  text_size : Q;
  text_color : RGB;
  text_opacity : Q;
  text_rotate : Z
}.

Inductive WatermarkPosition := TL | TM | TR | ML | C | MR | BL | BM | BR.

Record WatermarkOptions := mkWatermarkOptions {
  wm_text : string;
  wm_fontSize : Q;
  wm_color : string;    (* hex, as [#RRGGBB] *)
  wm_opacity : Q;
  wm_position : WatermarkPosition
}.

Class Typesetting := {
  (* [doc.save(options)] *)
  PDFDocument_saveWith : SaveOptions -> PDFDocument -> bytes;
  (* [font.widthOfTextAtSize(text, size)] of the embedded font; it throws
     on text the font cannot encode *)
  widthOfTextAtSize : string -> Q -> Result Q;
  (* [rgb(r, g, b)], a component being [None] when it is [NaN]; it throws
     on components it does not accept *)
  rgb : option Q -> option Q -> option Q -> Result RGB;
  (* the content stream operators [page.drawText(text, options)] appends;
     it throws on text or options it does not accept *)
  drawText_operators : string -> DrawTextOptions -> Result bytes
}.

Class HtmlRendering := {
  (* whether the frame appended to the body has a document *)
  iframe_contentDocument : bool;
  (* [html2canvas(iframeDoc.body, ...)] on the document written *)
  html2canvas : string -> Result Canvas;
  (* an A4 portrait [jsPDF] in millimetres with one image added at
     [x, y, width, height], then [output("arraybuffer")] *)
  jsPDF_output : string -> Q -> Q -> Q -> Q -> Result bytes
}.

(** *** [parseInt(s, 16)] and [s.slice(start, end)] *)

(** White space that [parseInt] skips (code units below 256). *)
Definition isWhiteSpace (c : ascii) : bool :=
  let n := nat_of_ascii c in
  ((9 <=? n)%nat && (n <=? 13)%nat) || (n =? 32)%nat || (n =? 160)%nat.

Definition hexDigit (c : ascii) : option Z :=
  let n := Z.of_nat (nat_of_ascii c) in
  if ((48 <=? n) && (n <=? 57))%Z then Some (n - 48)%Z
  else if ((65 <=? n) && (n <=? 70))%Z then Some (n - 55)%Z
  else if ((97 <=? n) && (n <=? 102))%Z then Some (n - 87)%Z
  else None.

(** The value of the longest prefix of hexadecimal digits, continuing from
    [acc]; [None] when no digit has been read. *)
Fixpoint hexDigits (s : string) (acc : option Z) : option Z :=
  match s with
  | EmptyString => acc
  | String c s' =>
      match hexDigit c with
      | Some d => hexDigits s' (Some (default 0%Z acc * 16 + d)%Z)
      | None => acc
      end
  end.

Fixpoint skipWhiteSpace (s : string) : string :=
  match s with
  | String c s' => if isWhiteSpace c then skipWhiteSpace s' else s
  | EmptyString => s
  end.

(** [parseInt(s, 16)]; [None] is [NaN]. *)
Definition parseInt16 (s : string) : option Z :=
  let s := skipWhiteSpace s in
  let '(sign, s) :=
    match s with
    | String "-" s' => ((-1)%Z, s')
    | String "+" s' => (1%Z, s')
    | _ => (1%Z, s)
    end in
  let s :=
    match s with
    | String "0" (String "x" s') => s'
    | String "0" (String "X" s') => s'
    | _ => s
    end in
  Z.mul sign <$> hexDigits s None.

(** [s.slice(start, end)] for [0 <= start <= end]. *)
Definition slice (s : string) (start finish : nat) : string :=
  String.substring start (finish - start) s.

(** One colour component: [parseInt(color.slice(start, end), 16) / 255]. *)
Definition colorComponent (color : string) (start finish : nat) : option Q :=
  (fun n => inject_Z n / 255)%Q <$> parseInt16 (slice color start finish).

(** The [switch] of [watermarkPdf]: where the text is drawn on a page of
    the given size. *)
Definition watermark_position (position : WatermarkPosition)
    (width height textWidth textHeight : Q) : Q * Q :=
  let margin := 20%Q in
  match position with
  | TL => (margin, height - textHeight - margin)
  | TM => ((width - textWidth) / 2, height - textHeight - margin)
  | TR => (width - textWidth - margin, height - textHeight - margin)
  | ML => (margin, (height - textHeight) / 2)
  | C => ((width - textWidth) / 2, (height - textHeight) / 2)
  | MR => (width - textWidth - margin, (height - textHeight) / 2)
  | BL => (margin, margin)
  | BM => ((width - textWidth) / 2, margin)
  | BR => (width - textWidth - margin, margin)
  end%Q.

(** *** The browser window of [convertHtmlToPdf] *)

(** The typed arrays, the children of [document.body] (nodes are numbered
    in the order they are created), and the number of nodes created. *)
Record Window := mkWindow {
  window_arrays : Store;
  window_body : list nat;
  window_nodes : nat
}.

(** [document.body.removeChild(node)] *)
Definition removeChild (node : nat) (body : list nat) : list nat :=
  filter (fun n => n <> node) body.

(** [node.parentNode] is set *)
Definition hasParent (node : nat) (body : list nat) : bool :=
  bool_decide (node ∈ body).

(** The document [convertHtmlToPdf] writes into its frame (the template
    literal of lines 295-308, with its line breaks and indentation). *)
Definition double_quote : string := String (ascii_of_nat 34) EmptyString.

Definition html_head : string :=
  "
            <!DOCTYPE html>
            <html>
              <head>
                ".

Definition html_style_open : string :=
  "
                <style>
                  body { width: ".

Definition html_style_rest : string :=
  "px; margin: 0; padding: 20px; font-family: sans-serif; background: #fff; }
                  * { box-sizing: border-box; }
                  img { max-width: 100%; }
                </style>
              </head>
              <body>".

Definition html_tail : string :=
  "</body>
            </html>
        ".

Definition pageWidthPx : string := "794".

(** [`${e.message}`] *)
Definition template_message (e : JsError) : string :=
  default "undefined" (err_message e).

Definition html_document (html : string) (baseUrl : option string) : string :=
  html_head
  +:+ (if truthy baseUrl
       then "<base href=" +:+ double_quote +:+ default EmptyString baseUrl
            +:+ double_quote +:+ " />"
       else EmptyString)
  +:+ html_style_open +:+ pageWidthPx +:+ html_style_rest +:+ html +:+ html_tail.

Section MoreOrchestrator.
Context `{Collaborators} `{Typesetting} `{HtmlRendering}.

Definition compressPdf (pdfBytes : Uint8Array) (password : option string)
  : M Uint8Array :=
  pdfDoc <- loadPdf pdfBytes password ;;
  alloc (PDFDocument_saveWith (mkSaveOptions false) (prepareForSave pdfDoc)).

(** [page.drawText(text, options)] *)
Definition drawText (page : PDFPage) (text : string) (options : DrawTextOptions)
  : Result PDFPage :=
  match drawText_operators text options with
  | Err e => Err e
  | Ok operators =>
      Ok (mkPDFPage (page_width page) (page_height page) (page_rotate page)
                    (page_drawings page ++ [ContentStream operators]))
  end.

(** One turn of the page loop of [watermarkPdf]: the text is measured, the
    position chosen, the colour built, the text drawn. *)
Definition watermarkPdf_page (options : WatermarkOptions) (r g b : option Q)
    (page : PDFPage) : Result PDFPage :=
  let width := page_width page in
  let height := page_height page in
  match widthOfTextAtSize (wm_text options) (wm_fontSize options) with
  | Err e => Err e
  | Ok textWidth =>
      let textHeight := wm_fontSize options in
      let '(x, y) :=
        watermark_position (wm_position options) width height
                           textWidth textHeight in
      match rgb r g b with
      | Err e => Err e
      | Ok color =>
          drawText page (wm_text options)
            (mkDrawTextOptions x y (wm_fontSize options) color
                               (wm_opacity options) (degrees 0))
      end
  end.

Definition watermarkPdf (pdfBytes : Uint8Array) (options : WatermarkOptions)
    (password : option string) : M Uint8Array :=
  pdfDoc <- loadPdf pdfBytes password ;;
  let pages := getPages pdfDoc in
  let r := colorComponent (wm_color options) 1 3 in
  let g := colorComponent (wm_color options) 3 5 in
  let b := colorComponent (wm_color options) 5 7 in
  pages <-
    foldM (fun done page =>
             page <- await (watermarkPdf_page options r g b page) ;;
             ret (done ++ [page]))
          pages [] ;;
  save (mkPDFDocument pages).

Definition convertHtmlToPdf (html : string) (baseUrl : option string)
    (w : Window) : Result Uint8Array * Window :=
  let iframe := window_nodes w in
  let nodes := S (window_nodes w) in
  let body := window_body w ++ [iframe] in
  if negb iframe_contentDocument then
    (Err (Error "Failed to create iframe for HTML rendering"),
     mkWindow (window_arrays w) (removeChild iframe body) nodes)
  else
    let attempt :=
      match html2canvas (html_document html baseUrl) with
      | Err e => Err e
      | Ok canvas =>
          let imgData := toDataURL canvas (Some "image/png") in
          let imgWidth := 210%Q in
          let imgHeight :=
            (canvas_height canvas * imgWidth / canvas_width canvas)%Q in
          jsPDF_output imgData 0 0 imgWidth imgHeight
      end in
    match attempt with
    | Ok output =>
        let body := if hasParent iframe body then removeChild iframe body else body in
        (Ok (length (window_arrays w)),
         mkWindow (window_arrays w ++ [output]) body nodes)
    | Err e =>
        let body := if hasParent iframe body then removeChild iframe body else body in
        (Err (Error ("Failed to convert HTML: " +:+ template_message e)),
         mkWindow (window_arrays w) body nodes)
    end.

End MoreOrchestrator.

(** ** The page organizer, the rotation buttons and the file names of
    [App.tsx] *)

(** Members of the [ToolType] enum that [App.tsx] compares [toolId] with. *)
Definition ToolType_Merge : string := "merge".
Definition ToolType_ImageToPdf : string := "image-to-pdf".

(** [Array.from({ length: count }, (_, i) => i)]: the page order
    [loadPageInfo] starts from. *)
Definition initialPages (count : nat) : list nat := seq 0 count.

(** [array.filter((x, i) => keep(x, i))], counting from [index]. *)
Fixpoint filterIndexed {A} (keep : A -> nat -> bool) (l : list A) (index : nat)
  : list A :=
  match l with
  | [] => []
  | x :: l' =>
      if keep x index then x :: filterIndexed keep l' (S index)
      else filterIndexed keep l' (S index)
  end.

(** [removePage]: [pages.filter((_, i) => i !== index)] *)
Definition removePage (pages : list nat) (index : nat) : list nat :=
  filterIndexed (fun _ i => negb (i =? index)%nat) pages 0.

(** [[a[i], a[j]] = [a[j], a[i]]] on a copy of the array.  [None] stands
    for an array in which an entry has become [undefined], which happens
    when [i] or [j] is past the end. *)
Definition swapEntries (newPages : list nat) (i j : nat) : option (list nat) :=
  match newPages !! j, newPages !! i with
  | Some atJ, Some atI => Some (<[j := atI]> (<[i := atJ]> newPages))
  | _, _ => None
  end.

(** [movePage(index, direction)] *)
Definition movePage (pages : list nat) (index : nat) (direction : Z)
  : option (list nat) :=
  let newPages := pages in
  if (direction =? -1)%Z && (0 <? index)%nat
  then swapEntries newPages index (index - 1)
  else if (direction =? 1)%Z && (index + 1 <? length newPages)%nat
  then swapEntries newPages index (index + 1)
  else Some newPages.

(** [rotatePage(index)]: the next rotation map.  [%] is the JavaScript
    remainder, which takes the sign of the dividend. *)
Definition rotatePage (prev : gmap nat Z) (index : nat) : gmap nat Z :=
  let current := default 0%Z (prev !! index) in
  <[index := Z.rem (current + 90) 360]> prev.

(** The two buttons of the Rotate tool: [(r - 90) % 360] and
    [(r + 90) % 360]. *)
Definition rotateLeft (r : Z) : Z := Z.rem (r - 90) 360.
Definition rotateRight (r : Z) : Z := Z.rem (r + 90) 360.

(** [s.replace(pattern, '')] for a string pattern: the first occurrence is
    removed. *)
Fixpoint removeFirst (s pattern : string) : string :=
  if startsWith s pattern then
    String.substring (String.length pattern)
                     (String.length s - String.length pattern) s
  else
    match s with
    | EmptyString => EmptyString
    | String c s' => String c (removeFirst s' pattern)
    end.

(** A string the class [[^/.]+] matches to its end. *)
Fixpoint isExtension (s : string) : bool :=
  match s with
  | EmptyString => false
  | String c s' =>
      negb (Ascii.eqb c "/") && negb (Ascii.eqb c ".")
      && match s' with EmptyString => true | _ => isExtension s' end
  end.

(** [name.replace(/\.[^/.]+$/, '')]: the leftmost dot that is followed, up
    to the end of the name, by one or more characters other than a slash and
    a dot, is removed with what follows it. *)
Fixpoint removeExtension (name : string) : string :=
  match name with
  | EmptyString => EmptyString
  | String c name' =>
      if Ascii.eqb c "." && isExtension name' then EmptyString
      else String c (removeExtension name')
  end.

(** The effect of lines 226-234: the file name proposed when files are
    present and the user has typed none. *)
Definition defaultFileName (toolId : string) (files : list File)
    (customFileName : string) : string :=
  match files with
  | file :: _ =>
      if truthy (Some customFileName) then customFileName
      else
        let baseName := removeExtension (file_name file) in
        let baseName :=
          if String.eqb toolId ToolType_Merge then "merged"
          else if String.eqb toolId ToolType_ImageToPdf then "images"
          else baseName in
        baseName +:+ "_processed"
  | [] => customFileName
  end.

(** The name [processAction] gives the result (lines 313-315). *)
Definition outputName (customFileName : string) (files : list File) : string :=
  let outputName :=
    if truthy (Some customFileName) then customFileName
    else match files with
         | file :: _ => removeFirst (file_name file) ".pdf"
         | [] => "document"
         end in
  if negb (endsWith (toLowerCase outputName) ".pdf")
  then outputName +:+ ".pdf"
  else outputName.

(** ** More of the small instance *)

Module Sample.

(** A colour is accepted when its three components are numbers from 0
    to 1. *)
Definition unitInterval (component : option Q) : bool :=
  match component with
  | Some q => Qle_bool 0 q && Qle_bool q 1
  | None => false
  end.

Definition typesetting : Typesetting := {|
  PDFDocument_saveWith := fun _ doc => Demo.save doc;
  widthOfTextAtSize := fun text size =>
    Ok (size * inject_Z (Z.of_nat (String.length text)) * (6 # 10))%Q;
  rgb := fun r g b =>
    if unitInterval r && unitInterval g && unitInterval b
    then Ok (mkRGB (default 0%Q r) (default 0%Q g) (default 0%Q b))
    else Err (Error "a colour component must be at least 0 and at most 1");
  drawText_operators := fun text _ => Ok (String.list_byte_of_string text)
|}.

(** A renderer that fails on documents holding a [<blink>] element. *)
Definition rendering (frameDocument : bool) : HtmlRendering := {|
  iframe_contentDocument := frameDocument;
  html2canvas := fun document =>
    if includes document "<blink>"
    then Err (mkJsError "RenderError" (Some "Unsupported element"))
    else Ok (mkCanvas 1588 2246 []);
  jsPDF_output := fun _ _ _ _ _ => Ok [Byte.x25; Byte.x50]
|}.

Definition confidential : WatermarkOptions :=
  mkWatermarkOptions "Confidential" 48 "#FF0000" (1 # 2) C.

Definition window : Window := mkWindow [] [0; 1]%nat 2.

End Sample.

(** ** Further derived descriptions *)

Section MoreDerived.
Context `{Collaborators}.

(** The image [rasterizePdf] embeds for page [i]: the page is fetched,
    rendered at scale 2 on a canvas of the viewport's size, exported as a
    PNG data URL, decoded and embedded. *)
Definition rasterizedImage (pdf : PDFDocumentProxy) (i : nat) : Result PDFImage :=
  match getPage pdf i with
  | Err e => Err e
  | Ok page =>
      let viewport := getViewport page 2%Q in
      match render page (createCanvas (viewport_width viewport)
                                      (viewport_height viewport)) viewport with
      | Err e => Err e
      | Ok canvas =>
          match atob (split "," (toDataURL canvas (Some "image/png")) !! 1%nat) with
          | Err e => Err e
          | Ok binaryString => embedPng (charCodes binaryString)
          end
      end
  end.

(** The page [rasterizePdf] adds for an embedded image. *)
Definition rasterPage (image : PDFImage) : PDFPage :=
  let '(width, height) := image_scale image (1 / 2)%Q in
  drawImage (blankPage width height) image 0 0 width height.

(** The thumbnail [generatePdfThumbnails] makes of page [i]. *)
Definition thumbnailOf (pdf : PDFDocumentProxy) (i : nat) : Result string :=
  match getPage pdf i with
  | Err e => Err e
  | Ok page =>
      let viewport := getViewport page (1 # 2)%Q in
      match render page (createCanvas (viewport_width viewport)
                                      (viewport_height viewport)) viewport with
      | Err e => Err e
      | Ok canvas => Ok (toDataURL canvas None)
      end
  end.

End MoreDerived.

(** A computation returns a fresh array when the reference it returns names
    no array that existed before it ran, and names one that exists after. *)
Definition returns_fresh (m : M Uint8Array) : Prop :=
  forall (st : Store) (out : Uint8Array),
    (m st).1 = Ok out -> (length st <= out < length (m st).2)%nat.

(** An operation makes a new array when it keeps every array that existed
    and what it returns is a fresh one. *)
Definition makes_new_array (m : M Uint8Array) : Prop :=
  preserves m /\ returns_fresh m.

(** The angles the organizer's rotation map holds. *)
Definition quarterTurn (angle : Z) : Prop :=
  angle = 0%Z \/ angle = 90%Z \/ angle = 180%Z \/ angle = 270%Z.

(** * Properties *)

(** ** Typed arrays and strings *)

Lemma contents_alloc_new (st : Store) (b : bytes) :
  contents (st ++ [b]) (length st) = b.
Proof.
  unfold contents. rewrite lookup_app_r by lia.
  by rewrite Nat.sub_diag.
Qed.

Lemma contents_alloc_old (st : Store) (b : bytes) (a : Uint8Array) :
  (a < length st)%nat -> contents (st ++ [b]) a = contents st a.
Proof.
  intros Ha. unfold contents. by rewrite lookup_app_l.
Qed.

Lemma append_String (c : ascii) (s t : string) :
  String.append (String c s) t = String c (String.append s t).
Proof. reflexivity. Qed.

Lemma startsWith_spec (s p : string) :
  startsWith s p = true <-> exists post, s = String.append p post.
Proof.
  revert s; induction p as [|a p IH]; intros s; simpl.
  - split; [intros _; by exists s | done].
  - destruct s as [|b s]; simpl.
    + split; [done | intros [post Hpost]; done].
    + destruct (Ascii.eqb_spec a b) as [->|Hab].
      * rewrite IH.
        split; intros [post Hpost]; exists post; rewrite append_String in *;
          congruence.
      * split; [done | intros [post Hpost]; rewrite append_String in Hpost;
                       congruence].
Qed.

(** [includes] is the substring test. *)
Lemma includes_spec (s sub : string) :
  includes s sub = true <->
  exists pre post, s = String.append pre (String.append sub post).
Proof.
  induction s as [|c s IH]; simpl.
  - rewrite orb_false_r, startsWith_spec. split.
    + intros [post Hpost]. by exists EmptyString, post.
    + intros [pre [post Hs]].
      destruct pre; [by exists post | by rewrite append_String in Hs].
  - rewrite orb_true_iff, startsWith_spec, IH. split.
    + intros [[post Hpost] | [pre [post Hs]]].
      * by exists EmptyString, post.
      * exists (String c pre), post. by rewrite append_String, Hs.
    + intros [pre [post Hs]]. destruct pre as [|c' pre].
      * left. by exists post.
      * right. exists pre, post. rewrite append_String in Hs. congruence.
Qed.

(** ** Binary64 rounding *)

Section Rounding.
Local Open Scope Q_scope.

Lemma Qpower2_pos (e : Z) : 0 < 2 ^ e.
Proof. apply Qpower_0_lt. reflexivity. Qed.

Lemma Qpower2_Z (e : Z) : (0 <= e)%Z -> 2 ^ e == inject_Z (2 ^ e).
Proof. intros He. symmetry. exact (Zpower_Qpower 2 e He). Qed.

Lemma floorLog2_le (q : Q) : 0 < q -> 2 ^ floorLog2 q <= q.
Proof.
  intros Hq. unfold floorLog2.
  set (a := Z.log2 (Qnum q)). set (b := Z.log2 (Zpos (Qden q))).
  destruct (Qle_bool (2 ^ (a - b)) q) eqn:Htest; [apply Qle_bool_iff; exact Htest|].
  assert (Hn : (0 < Qnum q)%Z).
  { unfold Qlt in Hq. simpl in Hq. lia. }
  destruct (Z.log2_spec (Qnum q) Hn) as [Ha _]. fold a in Ha.
  destruct (Z.log2_spec (Zpos (Qden q)) eq_refl) as [_ Hb]. fold b in Hb.
  assert (Ha0 : (0 <= a)%Z) by apply Z.log2_nonneg.
  assert (Hb0 : (0 <= b)%Z) by apply Z.log2_nonneg.
  replace (a - b - 1)%Z with (a - (b + 1))%Z by lia.
  rewrite Qpower_minus by discriminate.
  rewrite (Qpower2_Z a), (Qpower2_Z (b + 1)) by lia.
  apply Qle_shift_div_r.
  { change 0 with (inject_Z 0). rewrite <- Zlt_Qlt. lia. }
  replace (Z.succ b) with (b + 1)%Z in Hb by lia.
  destruct q as [n d]. unfold Qle, Qmult, inject_Z; simpl in *. nia.
Qed.

Lemma floorLog2_lt (q : Q) : 0 < q -> q < 2 ^ (floorLog2 q + 1).
Proof.
  intros Hq. unfold floorLog2.
  set (a := Z.log2 (Qnum q)). set (b := Z.log2 (Zpos (Qden q))).
  destruct (Qle_bool (2 ^ (a - b)) q) eqn:Htest.
  - assert (Hn : (0 < Qnum q)%Z).
    { unfold Qlt in Hq. simpl in Hq. lia. }
    destruct (Z.log2_spec (Qnum q) Hn) as [_ Ha]. fold a in Ha.
    destruct (Z.log2_spec (Zpos (Qden q)) eq_refl) as [Hb _]. fold b in Hb.
    assert (Ha0 : (0 <= a)%Z) by apply Z.log2_nonneg.
    assert (Hb0 : (0 <= b)%Z) by apply Z.log2_nonneg.
    replace (a - b + 1)%Z with (a + 1 - b)%Z by lia.
    rewrite Qpower_minus by discriminate.
    rewrite (Qpower2_Z (a + 1)), (Qpower2_Z b) by lia.
    apply Qlt_shift_div_l.
    { change 0 with (inject_Z 0). rewrite <- Zlt_Qlt. lia. }
    replace (Z.succ a) with (a + 1)%Z in Ha by lia.
    destruct q as [n d]. unfold Qlt, Qmult, inject_Z; simpl in *. nia.
  - replace (a - b - 1 + 1)%Z with (a - b)%Z by lia.
    apply Qnot_le_lt. intros Hle. apply Qle_bool_iff in Hle. congruence.
Qed.

Lemma roundHalfEven_error (x : Q) :
  - (1 # 2) <= inject_Z (roundHalfEven x) - x <= 1 # 2.
Proof.
  unfold roundHalfEven.
  pose proof (Qfloor_le x) as Hlow. pose proof (Qlt_floor x) as Hhigh.
  rewrite inject_Z_plus in Hhigh. change (inject_Z 1) with 1 in Hhigh.
  destruct (Qcompare (x - inject_Z (Qfloor x)) (1 # 2)) eqn:Hcmp.
  - apply Qeq_alt in Hcmp.
    destruct (Z.even (Qfloor x)); rewrite ?inject_Z_plus;
      change (inject_Z 1) with 1; split; lra.
  - apply Qlt_alt in Hcmp. split; lra.
  - apply Qgt_alt in Hcmp. rewrite inject_Z_plus.
    change (inject_Z 1) with 1. split; lra.
Qed.

Lemma roundPositive_bounds (q : Q) :
  0 < q ->
  q * (1 - unitRoundoff) <= roundPositive q <= q * (1 + unitRoundoff).
Proof.
  intros Hq. unfold roundPositive.
  set (e := (floorLog2 q - 52)%Z).
  pose proof (Qpower2_pos e) as HP.
  pose proof (roundHalfEven_error (q / 2 ^ e)) as [Hlow Hhigh].
  set (m := inject_Z (roundHalfEven (q / 2 ^ e))) in *.
  assert (Hscale : 2 ^ e * 2 ^ 52 <= q).
  { rewrite <- Qpower_plus by discriminate.
    replace (e + 52)%Z with (floorLog2 q) by (unfold e; lia).
    apply floorLog2_le; exact Hq. }
  assert (Hx : q / 2 ^ e * 2 ^ e == q) by (field; lra).
  assert (H1 : (m - q / 2 ^ e) * 2 ^ e <= (1 # 2) * 2 ^ e)
    by (apply Qmult_le_compat_r; lra).
  assert (H2 : - (1 # 2) * 2 ^ e <= (m - q / 2 ^ e) * 2 ^ e)
    by (apply Qmult_le_compat_r; lra).
  assert (E : (m - q / 2 ^ e) * 2 ^ e == m * 2 ^ e - q).
  { rewrite <- Hx at 2. ring. }
  rewrite E in H1, H2.
  change (2 ^ 52) with (4503599627370496 # 1) in Hscale.
  unfold unitRoundoff. change (1 # 2 ^ 53) with (1 # 9007199254740992).
  split; lra.
Qed.

Lemma fl_Qeq (p q : Q) : p == q -> fl p = fl q.
Proof. intros E. unfold fl. rewrite (Qred_complete p q E). reflexivity. Qed.

Lemma fl_zero (q : Q) : q == 0 -> fl q = 0.
Proof. intros E. rewrite (fl_Qeq q 0 E). reflexivity. Qed.

Lemma fl_bounds (q : Q) :
  0 <= q -> q * (1 - unitRoundoff) <= fl q <= q * (1 + unitRoundoff).
Proof.
  intros Hq. unfold fl.
  assert (E : Qred q == q) by apply Qred_correct.
  destruct (Qnum (Qred q)) eqn:Hnum.
  - assert (Hzero : Qred q == 0).
    { unfold Qeq. rewrite Hnum. reflexivity. }
    rewrite Hzero in E. rewrite <- E. split; lra.
  - assert (Hpos : 0 < Qred q).
    { unfold Qlt. rewrite Hnum. simpl. lia. }
    destruct (roundPositive_bounds (Qred q) Hpos) as [Hlow Hhigh].
    set (r := roundPositive (Qred q)) in *.
    unfold unitRoundoff in *. split.
    + apply Qle_trans with (Qred q * (1 - (1 # 2 ^ 53))); [|exact Hlow].
      rewrite E. apply Qle_refl.
    + apply Qle_trans with (Qred q * (1 + (1 # 2 ^ 53))); [exact Hhigh|].
      rewrite E. apply Qle_refl.
  - assert (Hneg : Qred q < 0).
    { unfold Qlt. rewrite Hnum. simpl. lia. }
    lra.
Qed.

Lemma fl_pos (q : Q) : 0 < q -> 0 < fl q.
Proof.
  intros Hq. destruct (fl_bounds q) as [Hlow _]; [lra|].
  unfold unitRoundoff in Hlow.
  assert (0 < q * (1 - (1 # 2 ^ 53))).
  { apply Qmult_lt_0_compat; [exact Hq | reflexivity]. }
  lra.
Qed.

Lemma fl_opp (q : Q) : fl (- q) = - fl q.
Proof.
  unfold fl. rewrite Qred_opp.
  destruct (Qred q) as [[|n|n] d]; simpl; try reflexivity.
  change (- (Z.neg n # d)) with (Z.pos n # d).
  destruct (roundPositive (Z.pos n # d)) as [m k]. unfold Qopp; simpl.
  by rewrite Z.opp_involutive.
Qed.

Lemma fl_error (q : Q) : Qabs (fl q - q) <= Qabs q * unitRoundoff.
Proof.
  destruct (Qlt_le_dec q 0) as [Hneg|Hpos].
  - assert (Hopp : 0 <= - q) by lra.
    destruct (fl_bounds (- q) Hopp) as [Hlow Hhigh].
    rewrite fl_opp in Hlow, Hhigh.
    rewrite (Qabs_neg q) by lra.
    apply Qabs_Qle_condition. unfold unitRoundoff in *. split; lra.
  - destruct (fl_bounds q Hpos) as [Hlow Hhigh].
    rewrite (Qabs_pos q) by exact Hpos.
    apply Qabs_Qle_condition. unfold unitRoundoff in *. split; lra.
Qed.

(** One axis of the image layout: the extent of the page, the extent of
    the image, the scale. *)
Lemma scaled_extent_fits (page img scale : Q) :
  40 < page -> 0 < img -> 0 < scale ->
  scale <= fl (fl (page - 20 * 2) / img) ->
  fl (img * scale) <= (page - 40) * (1 + roundingSlack).
Proof.
  intros Hpage Himg Hscale Hratio.
  assert (Havail : 0 <= page - 20 * 2) by lra.
  destruct (fl_bounds _ Havail) as [_ Ha].
  assert (Hapos : 0 < fl (page - 20 * 2)) by (apply fl_pos; lra).
  set (a := fl (page - 20 * 2)) in *.
  assert (Hc : 0 <= a / img).
  { apply Qle_shift_div_l; [exact Himg|]. lra. }
  destruct (fl_bounds _ Hc) as [_ Hr].
  assert (Hx : img * scale <= img * fl (a / img))
    by (apply Qmult_le_l; assumption).
  assert (Hx' : img * fl (a / img) <= img * (a / img * (1 + unitRoundoff)))
    by (apply Qmult_le_l; assumption).
  assert (E : img * (a / img * (1 + unitRoundoff)) == a * (1 + unitRoundoff))
    by (field; lra).
  rewrite E in Hx'.
  assert (Hprod : 0 <= img * scale).
  { apply Qmult_le_0_compat; lra. }
  destruct (fl_bounds _ Hprod) as [_ Hd].
  set (d := fl (img * scale)) in *. set (x := img * scale) in *.
  set (r := img * fl (a / img)) in *.
  unfold unitRoundoff, roundingSlack in *.
  change (1 # 2 ^ 53) with (1 # 9007199254740992) in *.
  change (1 # 2 ^ 51) with (1 # 2251799813685248).
  lra.
Qed.

Lemma scaled_extent_fills (page img scale : Q) :
  40 < page -> 0 < img ->
  scale == fl (fl (page - 20 * 2) / img) ->
  (page - 40) * (1 - roundingSlack) <= fl (img * scale).
Proof.
  intros Hpage Himg Hscale.
  assert (Havail : 0 <= page - 20 * 2) by lra.
  destruct (fl_bounds _ Havail) as [Ha _].
  assert (Hapos : 0 < fl (page - 20 * 2)) by (apply fl_pos; lra).
  set (a := fl (page - 20 * 2)) in *.
  assert (Hc : 0 <= a / img).
  { apply Qle_shift_div_l; [exact Himg|]. lra. }
  destruct (fl_bounds _ Hc) as [Hr _].
  assert (Hx' : img * (a / img * (1 - unitRoundoff)) <= img * fl (a / img))
    by (apply Qmult_le_l; assumption).
  assert (E : img * (a / img * (1 - unitRoundoff)) == a * (1 - unitRoundoff))
    by (field; lra).
  rewrite E in Hx'.
  assert (Hprod : 0 <= img * scale).
  { rewrite Hscale. apply Qmult_le_0_compat; [lra|].
    apply Qlt_le_weak, fl_pos. apply Qlt_shift_div_l; lra. }
  destruct (fl_bounds _ Hprod) as [Hd _].
  assert (Ex : img * scale == img * fl (a / img)) by (by rewrite Hscale).
  set (d := fl (img * scale)) in *. set (x := img * scale) in *.
  set (r := img * fl (a / img)) in *.
  unfold unitRoundoff, roundingSlack in *.
  change (1 # 2 ^ 53) with (1 # 9007199254740992) in *.
  change (1 # 2 ^ 51) with (1 # 2251799813685248).
  lra.
Qed.

(** The offset that centres an extent on the page. *)
Lemma centred_offset (page extent : Q) :
  let x := fl (fl (page - extent) / 2) in
  Qabs (x + extent + x - page) <= Qabs (page - extent) * roundingSlack.
Proof.
  intros x. subst x.
  pose proof (fl_error (page - extent)) as H1.
  pose proof (fl_error (fl (page - extent) / 2)) as H2.
  set (d := page - extent) in *. set (y := fl d) in *.
  set (x := fl (y / 2)) in *.
  assert (Hd : 0 <= Qabs d) by apply Qabs_nonneg.
  assert (Hy : Qabs (y / 2) * 2 <= Qabs d + Qabs d * unitRoundoff).
  { assert (Habs : Qabs (y / 2) * 2 == Qabs y).
    { unfold Qdiv. rewrite Qabs_Qmult. change (Qabs (/ 2)) with (1 # 2). ring. }
    rewrite Habs.
    pose proof (Qabs_triangle d (y - d)) as Htriangle.
    assert (Ey : d + (y - d) == y) by ring.
    rewrite Ey in Htriangle. lra. }
  apply Qabs_Qle_condition in H1. apply Qabs_Qle_condition in H2.
  assert (E : x + extent + x - page == 2 * x - d) by (unfold d; ring).
  rewrite E. apply Qabs_Qle_condition.
  set (ay := Qabs (y / 2)) in *. set (ad := Qabs d) in *.
  unfold unitRoundoff, roundingSlack in *.
  change (1 # 2 ^ 53) with (1 # 9007199254740992) in *.
  change (1 # 2 ^ 51) with (1 # 2251799813685248).
  assert (Ehalf : y / 2 == y * (1 # 2)) by reflexivity.
  rewrite Ehalf in H2.
  clearbody ay ad x y d. destruct H1, H2. split; lra.
Qed.

End Rounding.

Section Loader.
Context `{Collaborators}.

(** The three errors the loader makes up are told apart by their messages,
    and only the first carries the phrase its callers look for. *)
Lemma loader_signals_distinct :
  message_includes (Error unsupported_message) "editing engine" = true /\
  message_includes (Error incorrect_message) "editing engine" = false /\
  message_includes (Error generic_message) "editing engine" = false /\
  Error incorrect_message <> Error generic_message.
Proof. repeat split; try reflexivity. discriminate. Qed.

(** The secondary check the loader makes when the primary open failed with
    an encryption-related error. *)
Lemma loadPdf_primary_failure (st : Store) (pdfBytes : Uint8Array)
    (password : option string) (e : JsError) :
  PDFDocument_load (contents st pdfBytes)
                   (if truthy password then password else None) = Err e ->
  loadPdf pdfBytes password st =
  if encryption_related e then
    if truthy password then
      match pdfjsLib with
      | Some pdfjs =>
          let st' := st ++ [transferred (contents st pdfBytes)] in
          match getDocument pdfjs (contents st pdfBytes) password with
          | Ok _ => (Err (Error unsupported_message), st')
          | Err e' =>
              if message_includes e' "editing engine" then (Err e', st')
              else if password_specific e'
              then (Err (Error incorrect_message), st')
              else (Err (Error generic_message), st')
          end
      | None => (Err (Error generic_message), st)
      end
    else (Err (Error generic_message), st)
  else (Err e, st).
Proof.
  intros Hload. unfold loadPdf, try_catch at 1, bind at 1, read, await.
  rewrite Hload. destruct (encryption_related e); [|done].
  destruct (truthy password); [|done].
  destruct pdfjsLib as [pdfjs|]; [|done].
  unfold bind at 1, try_catch, slice0, bind, read, alloc, pdfjs_getDocument, throw.
  rewrite contents_alloc_new.
  replace (<[length st:=transferred (contents st pdfBytes)]> (st ++ [contents st pdfBytes]))
    with (st ++ [transferred (contents st pdfBytes)]).
  2:{ rewrite insert_app_r_alt by lia. by rewrite Nat.sub_diag. }
  destruct (getDocument pdfjs (contents st pdfBytes) password) as [doc|e']; simpl.
  - done.
  - destruct (message_includes e' "editing engine"); [done|].
    by destruct (password_specific e').
Qed.

(** When neither library's own errors carry the phrase "editing engine",
    the only failure of the loader that carries it is the loader's
    unsupported-encryption error. *)
Lemma loadPdf_signal_iff (st st1 : Store) (pdfBytes : Uint8Array)
    (password : option string) (e : JsError) :
  (forall e0,
      PDFDocument_load (contents st pdfBytes)
                       (if truthy password then password else None) = Err e0 ->
      message_includes e0 "editing engine" = false) ->
  (forall pdfjs e',
      pdfjsLib = Some pdfjs ->
      getDocument pdfjs (contents st pdfBytes) password = Err e' ->
      message_includes e' "editing engine" = false) ->
  loadPdf pdfBytes password st = (Err e, st1) ->
  message_includes e "editing engine" = true <-> e = Error unsupported_message.
Proof.
  intros Hprimary Hsecondary Hrun.
  split; [|by intros ->].
  destruct (PDFDocument_load (contents st pdfBytes)
              (if truthy password then password else None)) as [doc|e0] eqn:Hload.
  { unfold loadPdf, try_catch, bind, read, await in Hrun.
    rewrite Hload in Hrun. discriminate Hrun. }
  rewrite (loadPdf_primary_failure _ _ _ _ Hload) in Hrun.
  pose proof (Hprimary e0 eq_refl) as Hforeign0.
  destruct (encryption_related e0).
  2:{ injection Hrun as <- _. congruence. }
  destruct (truthy password).
  2:{ by injection Hrun as <- _. }
  destruct pdfjsLib as [pdfjs|].
  2:{ by injection Hrun as <- _. }
  cbn zeta in Hrun.
  destruct (getDocument pdfjs (contents st pdfBytes) password) as [doc|e']
    eqn:Hopen.
  { by injection Hrun as <- _. }
  rewrite (Hsecondary pdfjs e' eq_refl Hopen) in Hrun.
  destruct (password_specific e'); by injection Hrun as <- _.
Qed.

End Loader.

Section LoaderClaims.
Context `{Collaborators}.

(** C1. When the primary open fails, the loader resolves the failure into
    one of a discriminated set.  An error whose lower-cased message holds
    none of "encrypted", "password", "security handler" is propagated
    unchanged.  Otherwise: with a password and the rendering library opening
    the bytes, the unsupported-encryption-but-correct-password error is
    thrown; with the rendering library raising a password-specific error,
    the incorrect-password error; with no password, no rendering library, or
    an inconclusive secondary check, the generic error.  The three errors
    are distinct, and only the first carries the phrase callers test for.
    The rendering library's own errors are taken not to carry that phrase
    of the orchestrator. *)
Theorem loadPdf_failure_resolved (st : Store) (pdfBytes : Uint8Array)
    (password : option string) (e : JsError) :
  PDFDocument_load (contents st pdfBytes)
                   (if truthy password then password else None) = Err e ->
  (forall pdfjs e',
      pdfjsLib = Some pdfjs ->
      getDocument pdfjs (contents st pdfBytes) password = Err e' ->
      message_includes e' "editing engine" = false) ->
  let outcome := (loadPdf pdfBytes password st).1 in
  (encryption_related e = false -> outcome = Err e) /\
  (encryption_related e = true ->
     (outcome = Err (Error unsupported_message)
      \/ outcome = Err (Error incorrect_message)
      \/ outcome = Err (Error generic_message)) /\
     (forall pdfjs doc,
         truthy password = true -> pdfjsLib = Some pdfjs ->
         getDocument pdfjs (contents st pdfBytes) password = Ok doc ->
         outcome = Err (Error unsupported_message)) /\
     (forall pdfjs e',
         truthy password = true -> pdfjsLib = Some pdfjs ->
         getDocument pdfjs (contents st pdfBytes) password = Err e' ->
         password_specific e' = true ->
         outcome = Err (Error incorrect_message)) /\
     (truthy password = false \/ pdfjsLib = None
      \/ (exists pdfjs e',
             pdfjsLib = Some pdfjs
             /\ getDocument pdfjs (contents st pdfBytes) password = Err e'
             /\ password_specific e' = false) ->
      outcome = Err (Error generic_message))) /\
  (message_includes (Error unsupported_message) "editing engine" = true
   /\ message_includes (Error incorrect_message) "editing engine" = false
   /\ message_includes (Error generic_message) "editing engine" = false
   /\ Error incorrect_message <> Error generic_message).
Proof.
  intros Hload Hforeign outcome. subst outcome.
  rewrite (loadPdf_primary_failure _ _ _ _ Hload).
  split; [by intros ->|]. split; [|apply loader_signals_distinct].
  intros ->.
  destruct (truthy password) eqn:Hpw.
  2:{ refine (conj _ (conj _ (conj _ _))); [by right; right|done..]. }
  destruct pdfjsLib as [pdfjs|] eqn:Hlib.
  2:{ refine (conj _ (conj _ (conj _ _))); [by right; right|done..]. }
  destruct (getDocument pdfjs (contents st pdfBytes) password) as [doc|e']
    eqn:Hopen; cbn zeta.
  - refine (conj _ (conj _ (conj _ _))).
    + by left.
    + done.
    + intros ? ? _ [= <-]. by rewrite Hopen.
    + intros [?|[?|(? & ? & [= <-] & Hopen' & _)]]; [done..|].
      by rewrite Hopen in Hopen'.
  - rewrite (Hforeign pdfjs e' eq_refl Hopen).
    destruct (password_specific e') eqn:Hspec;
      refine (conj _ (conj _ (conj _ _))).
    + by right; left.
    + intros ? ? _ [= <-]. by rewrite Hopen.
    + done.
    + intros [?|[?|(? & ? & [= <-] & Hopen' & Hspec')]]; [done..|].
      rewrite Hopen in Hopen'. injection Hopen' as <-. congruence.
    + by right; right.
    + intros ? ? _ [= <-]. by rewrite Hopen.
    + intros ? ? _ [= <-]. rewrite Hopen. intros [= <-]. congruence.
    + done.
Qed.

End LoaderClaims.

(** ** Copying pages and saving *)

Section Copying.
Context `{Collaborators}.

Lemma copyPages_spec (srcDoc : PDFDocument) (indices : list nat)
    (pages : list PDFPage) :
  copyPages srcDoc indices = Ok pages <->
  Forall2 (fun i page => getPages srcDoc !! i = Some page) indices pages.
Proof.
  revert pages; induction indices as [|i rest IH]; intros pages; simpl.
  - split.
    + intros [= <-]. constructor.
    + intros Hall. by inversion Hall.
  - destruct (getPages srcDoc !! i) as [page|] eqn:Hi.
    + destruct (copyPages srcDoc rest) as [pages'|e].
      * split.
        -- intros [= <-]. constructor; [done|]. by apply IH.
        -- intros Hall. inversion Hall as [|? p ? ps Hp Hps]; subst.
           apply IH in Hps. congruence.
      * split; [done|].
        intros Hall. inversion Hall as [|? p ? ps Hp Hps]; subst.
        by apply IH in Hps.
    + split; [done|].
      intros Hall. inversion Hall; subst. congruence.
Qed.

(** Copying by the document's own page indices yields all its pages, in
    order. *)
Lemma copyPages_getPageIndices (srcDoc : PDFDocument) :
  copyPages srcDoc (getPageIndices srcDoc) = Ok (getPages srcDoc).
Proof.
  apply copyPages_spec. unfold getPageIndices, getPageCount.
  apply Forall2_same_length_lookup_2; [by rewrite length_seq|].
  intros k i page Hk Hpage.
  apply lookup_seq in Hk as [-> _]. done.
Qed.

Lemma forEach_addPage (pages : list PDFPage) (index : nat) (doc : PDFDocument) :
  forEach (fun doc page _ => addPage doc page) pages index doc
  = mkPDFDocument (getPages doc ++ pages).
Proof.
  revert index doc; induction pages as [|page pages IH]; intros index doc; simpl.
  - rewrite app_nil_r. by destruct doc.
  - rewrite IH. simpl. by rewrite <- app_assoc.
Qed.

Lemma prepareForSave_pages (doc : PDFDocument) :
  getPages doc <> [] -> prepareForSave doc = doc.
Proof. unfold prepareForSave. by destruct (getPages doc). Qed.

Lemma prepareForSave_no_pages (doc : PDFDocument) :
  getPages doc = [] ->
  prepareForSave doc
  = mkPDFDocument [blankPage PageSizes_A4.1 PageSizes_A4.2].
Proof. unfold prepareForSave, addPage. by intros ->. Qed.

Lemma prepareForSave_count (doc : PDFDocument) :
  getPageCount (prepareForSave doc) = Nat.max 1 (getPageCount doc).
Proof.
  destruct doc as [[|page pages]]; unfold prepareForSave, getPageCount;
    simpl; lia.
Qed.

End Copying.

Section Normalizer.
Context `{Collaborators}.


End Normalizer.

(** ** Page transforms *)

Section Transforms.
Context `{Collaborators}.

(** The loader returns the document the editing library opened. *)
Lemma loadPdf_success (st : Store) (pdfBytes : Uint8Array)
    (password : option string) (doc : PDFDocument) :
  PDFDocument_load (contents st pdfBytes)
                   (if truthy password then password else None) = Ok doc ->
  loadPdf pdfBytes password st = (Ok doc, st).
Proof.
  intros Hload. unfold loadPdf, try_catch, bind, read, await.
  by rewrite Hload.
Qed.

Lemma forEach_collect {A B} (f : A -> B) (l : list A) (index : nat)
    (done : list B) :
  forEach (fun done x _ => done ++ [f x]) l index done = done ++ map f l.
Proof.
  revert index done; induction l as [|x l IH]; intros index done; simpl.
  - by rewrite app_nil_r.
  - rewrite IH. by rewrite <- app_assoc.
Qed.

(** *** Loops whose callback may throw *)

Lemma forEachM_mapResult {A B} (f : nat -> A -> Result B) (l : list A)
    (index : nat) (done : list B) (st : Store) :
  forEachM (fun done x i => y <- await (f i x) ;; ret (done ++ [y]))
           l index done st
  = (match mapResult f l index with
     | Ok ys => Ok (done ++ ys)
     | Err e => Err e
     end, st).
Proof.
  revert index done; induction l as [|x l IH]; intros index done.
  - simpl. by rewrite app_nil_r.
  - cbn [forEachM mapResult]. unfold bind at 1. unfold bind at 1, await at 1.
    destruct (f index x) as [y|e]; [|done].
    unfold ret at 1. rewrite IH.
    destruct (mapResult f l (S index)) as [ys|e]; [|done].
    by rewrite <- app_assoc.
Qed.

Lemma mapResult_Ok {A B} (f : nat -> A -> Result B) (l : list A) (index : nat)
    (ys : list B) :
  mapResult f l index = Ok ys ->
  length ys = length l
  /\ forall k x, l !! k = Some x ->
       exists y, ys !! k = Some y /\ f (index + k)%nat x = Ok y.
Proof.
  revert index ys; induction l as [|x l IH]; intros index ys; simpl.
  - intros [= <-]. split; [done|]. intros k x Hk. by rewrite lookup_nil in Hk.
  - destruct (f index x) as [y|e] eqn:Hx; [|done].
    destruct (mapResult f l (S index)) as [ys'|e] eqn:Hrest; [|done].
    intros [= <-]. destruct (IH _ _ Hrest) as [Hlen Hall].
    split; [simpl; by rewrite Hlen|].
    intros [|k] x'; simpl.
    + intros [= <-]. exists y. by rewrite Nat.add_0_r.
    + intros Hk. destruct (Hall k x' Hk) as (y' & Hy' & Hf).
      exists y'. split; [done|]. by rewrite Nat.add_succ_r.
Qed.

Lemma mapResult_all {A B} (f : nat -> A -> Result B) (l : list A) (index : nat) :
  (forall k x, l !! k = Some x -> exists y, f (index + k)%nat x = Ok y) ->
  exists ys, mapResult f l index = Ok ys.
Proof.
  revert index; induction l as [|x l IH]; intros index Hall; simpl.
  - by eexists.
  - destruct (Hall 0%nat x eq_refl) as [y Hy]. rewrite Nat.add_0_r in Hy.
    rewrite Hy. destruct (IH (S index)) as [ys ->]; [|by eexists].
    intros k x' Hk. specialize (Hall (S k) x' Hk).
    by rewrite Nat.add_succ_r in Hall.
Qed.

Lemma mapResult_first_error {A B} (f : nat -> A -> Result B)
    (before after : list A) (x : A) (index : nat) (e : JsError) :
  (forall k x', before !! k = Some x' ->
     exists y, f (index + k)%nat x' = Ok y) ->
  f (index + length before)%nat x = Err e ->
  mapResult f (before ++ x :: after) index = Err e.
Proof.
  revert index; induction before as [|x' before IH]; intros index Hall Hx; simpl.
  - simpl in Hx. rewrite Nat.add_0_r in Hx. by rewrite Hx.
  - destruct (Hall 0%nat x' eq_refl) as [y Hy]. rewrite Nat.add_0_r in Hy.
    rewrite Hy. rewrite (IH (S index)); [done| |].
    + intros k x'' Hk. specialize (Hall (S k) x'' Hk).
      by rewrite Nat.add_succ_r in Hall.
    + simpl in Hx. by rewrite Nat.add_succ_r in Hx.
Qed.

Lemma mapResult_Err {A B} (f : nat -> A -> Result B) (l : list A) (index : nat)
    (e : JsError) :
  mapResult f l index = Err e ->
  exists k x, l !! k = Some x /\ f (index + k)%nat x = Err e.
Proof.
  revert index; induction l as [|x l IH]; intros index; simpl; [done|].
  destruct (f index x) as [y|e'] eqn:Hx.
  - destruct (mapResult f l (S index)) as [ys|e'] eqn:Hrest; [done|].
    intros [= ->]. destruct (IH _ Hrest) as (k & x' & Hk & Hf).
    exists (S k), x'. split; [done|]. by rewrite Nat.add_succ_r.
  - intros [= ->]. exists 0%nat, x. split; [done|]. by rewrite Nat.add_0_r.
Qed.

(** *** Rotate *)

Lemma setRotation_accepts (page : PDFPage) (angle : Z) :
  (90 | angle)%Z ->
  setRotation page angle
  = Ok (mkPDFPage (page_width page) (page_height page) angle
                  (page_drawings page)).
Proof.
  intros Hangle. unfold setRotation.
  apply Z.rem_divide in Hangle; [|done]. by rewrite Hangle.
Qed.

Lemma setRotation_throws (page : PDFPage) (angle : Z) :
  ~ (90 | angle)%Z ->
  setRotation page angle = Err (setRotation_rejects angle).
Proof.
  intros Hangle. unfold setRotation.
  destruct (Z.eqb_spec (Z.rem angle 90) 0) as [E|_]; [|done].
  apply Z.rem_divide in E; done.
Qed.

Lemma rotatePdf_steps (st : Store) (pdfBytes : Uint8Array) (rotation : Z)
    (password : option string) (doc : PDFDocument) :
  PDFDocument_load (contents st pdfBytes)
                   (if truthy password then password else None) = Ok doc ->
  rotatePdf pdfBytes rotation password st
  = match mapResult (fun _ => rotated_page rotation) (getPages doc) 0 with
    | Ok pages =>
        (Ok (length st),
         st ++ [PDFDocument_save (prepareForSave (mkPDFDocument pages))])
    | Err e => (Err e, st)
    end.
Proof.
  intros Hload. unfold rotatePdf. unfold bind at 1.
  rewrite (loadPdf_success _ _ _ _ Hload). unfold bind at 1.
  change (fun (done : list PDFPage) (page : PDFPage) (_ : nat) => _)
    with (fun (done : list PDFPage) (page : PDFPage) (i : nat) =>
            y <- await ((fun _ => rotated_page rotation) i page) ;;
            ret (done ++ [y])).
  rewrite forEachM_mapResult.
  by destruct (mapResult _ _ _).
Qed.

Lemma rotated_pages_accepted (rotation : Z) (pages : list PDFPage)
    (index : nat) :
  Forall (fun page => (90 | getRotation page + rotation)%Z) pages ->
  mapResult (fun _ => rotated_page rotation) pages index
  = Ok (getPages (rotated rotation (mkPDFDocument pages))).
Proof.
  intros Hall. revert index.
  induction Hall as [|page pages Hpage _ IH]; intros index; [done|].
  cbn [mapResult]. unfold rotated_page at 1, degrees.
  rewrite (setRotation_accepts _ _ Hpage), IH. done.
Qed.

Lemma rotated_lookup (rotation : Z) (doc : PDFDocument) (i : nat) :
  getPages (rotated rotation doc) !! i
  = (fun page =>
       mkPDFPage (page_width page) (page_height page)
                 (getRotation page + rotation) (page_drawings page))
      <$> getPages doc !! i.
Proof. unfold rotated; simpl. apply list_lookup_fmap. Qed.

Lemma rotated_inverse (rotation : Z) (doc : PDFDocument) :
  rotated (- rotation) (rotated rotation doc) = doc.
Proof.
  destruct doc as [pages]. unfold rotated; simpl. f_equal.
  rewrite map_map. rewrite <- (map_id pages) at 2.
  apply map_ext. intros [w h angle drawings].
  unfold getRotation; simpl. f_equal. lia.
Qed.

Lemma rotated_no_pages (rotation : Z) (doc : PDFDocument) :
  getPages doc <> [] -> getPages (rotated rotation doc) <> [].
Proof. destruct doc as [[|page pages]]; done. Qed.

(** Rotate by an accepted delta saves the document with the delta added
    to every angle; a delta that takes the angle of a page away from the
    multiples of 90 makes it throw what the library throws, and nothing is
    saved. *)
Lemma rotatePdf_outcomes (st : Store) (pdfBytes : Uint8Array) (r : Z)
    (doc : PDFDocument) :
  PDFDocument_load (contents st pdfBytes) None = Ok doc ->
  (Forall (fun page => (90 | getRotation page + r)%Z) (getPages doc) ->
   rotatePdf pdfBytes r None st
   = (Ok (length st),
      st ++ [PDFDocument_save (prepareForSave (rotated r doc))]))
  /\ (forall before page after,
        getPages doc = before ++ page :: after ->
        Forall (fun page => (90 | getRotation page + r)%Z) before ->
        ~ (90 | getRotation page + r)%Z ->
        rotatePdf pdfBytes r None st
        = (Err (setRotation_rejects (getRotation page + r)), st)).
Proof.
  intros Hload. split.
  - intros Hall. rewrite (rotatePdf_steps _ _ _ None _ Hload).
    rewrite (rotated_pages_accepted _ _ _ Hall). by destruct doc.
  - intros before page after Hpages Hbefore Hpage.
    rewrite (rotatePdf_steps _ _ _ None _ Hload), Hpages.
    rewrite (mapResult_first_error _ _ _ _ _
               (setRotation_rejects (getRotation page + r))); [done| |].
    + intros k x Hk. rewrite Forall_lookup in Hbefore.
      unfold rotated_page, degrees.
      rewrite (setRotation_accepts _ _ (Hbefore k x Hk)). by eexists.
    + unfold rotated_page, degrees. by apply setRotation_throws.
Qed.

End Transforms.

Section RotateTwice.
Context (first second : Collaborators).

(** C3 as amended. Rotate adds the delta to the stored angle of every
    page.  On a valid unencrypted document with at least one page whose
    angles are multiples of 90, Rotate by a multiple [r] of 90 and then, on
    the bytes it saved, Rotate by [-r] leaves every page with its original
    angle (so also modulo 360).  The second call is a later one, with the library's
    answers of that time, and the bytes the first call saved are taken to
    open again as the document that was saved.  A delta that takes the
    angle of some page away from the multiples of 90 (angles and delta
    being integers whose sums are exact) makes Rotate throw the library's
    error for the first such angle, and nothing is saved. *)
Theorem rotatePdf_then_inverse (st : Store) (pdfBytes : Uint8Array) (r : Z)
    (doc : PDFDocument) :
  @PDFDocument_load first (contents st pdfBytes) None = Ok doc ->
  (getPages doc <> [] ->
   validAngle r ->
   Forall (fun page => validAngle (getRotation page)) (getPages doc) ->
   @PDFDocument_load second (@PDFDocument_save first (rotated r doc)) None
   = Ok (rotated r doc) ->
   exists out1 st1 doc1 out2 st2 doc2,
     @rotatePdf first pdfBytes r None st = (Ok out1, st1)
     /\ contents st1 out1 = @PDFDocument_save first doc1
     /\ getPageCount doc1 = getPageCount doc
     /\ (forall i page, getPages doc !! i = Some page ->
           exists page1, getPages doc1 !! i = Some page1
                         /\ getRotation page1 = (getRotation page + r)%Z)
     /\ @rotatePdf second out1 (- r) None st1 = (Ok out2, st2)
     /\ contents st2 out2 = @PDFDocument_save second doc2
     /\ getPageCount doc2 = getPageCount doc
     /\ (forall i page, getPages doc !! i = Some page ->
           exists page2, getPages doc2 !! i = Some page2
                         /\ getRotation page2 = getRotation page
                         /\ (getRotation page2 mod 360
                             = getRotation page mod 360)%Z))
  /\ (forall before page after,
        safeInteger r ->
        Forall (fun page => safeInteger (getRotation page)) (getPages doc) ->
        getPages doc = before ++ page :: after ->
        Forall (fun page => (90 | getRotation page + r)%Z) before ->
        ~ (90 | getRotation page + r)%Z ->
        @rotatePdf first pdfBytes r None st
        = (Err (@setRotation_rejects first (getRotation page + r)), st)).
Proof.
  intros Hload. split;
    [|intros before page after _ _;
      exact (proj2 (@rotatePdf_outcomes first _ _ r _ Hload) before page after)].
  intros Hpages [Hr _] Hangles Hreopen.
  assert (Hthere : Forall (fun page => (90 | getRotation page + r)%Z)
                          (getPages doc)).
  { eapply Forall_impl; [exact Hangles|]. intros page [Hpage _].
    by apply Z.divide_add_r. }
  assert (Hback : Forall (fun page => (90 | getRotation page + - r)%Z)
                         (getPages (rotated r doc))).
  { unfold rotated; simpl. apply Forall_fmap.
    eapply Forall_impl; [exact Hangles|]. intros page [Hpage _]. simpl.
    unfold getRotation; simpl.
    replace (page_rotate page + r + - r)%Z with (page_rotate page) by lia.
    exact Hpage. }
  pose proof (proj1 (@rotatePdf_outcomes first st pdfBytes r doc Hload) Hthere)
    as Hrun1.
  rewrite (@prepareForSave_pages first) in Hrun1
    by by apply rotated_no_pages.
  set (st1 := st ++ [@PDFDocument_save first (rotated r doc)]) in *.
  assert (Hout1 : contents st1 (length st)
                  = @PDFDocument_save first (rotated r doc))
    by apply contents_alloc_new.
  assert (Hload1 : @PDFDocument_load second (contents st1 (length st)) None
                   = Ok (rotated r doc)) by (by rewrite Hout1).
  pose proof (proj1 (@rotatePdf_outcomes second st1 (length st) (- r) _ Hload1)
                Hback) as Hrun2.
  rewrite rotated_inverse in Hrun2.
  rewrite (@prepareForSave_pages second) in Hrun2 by done.
  exists (length st), st1, (rotated r doc), (length st1),
    (st1 ++ [@PDFDocument_save second doc]), doc.
  split; [exact Hrun1|]. split; [exact Hout1|].
  split; [unfold getPageCount, rotated; simpl; by rewrite length_map|].
  split.
  { intros i page Hi. rewrite rotated_lookup, Hi. simpl. eauto. }
  split; [exact Hrun2|]. split; [apply contents_alloc_new|].
  split; [done|].
  intros i page Hi. eauto.
Qed.

End RotateTwice.

Section Organizing.
Context `{Collaborators}.

(** *** Organize *)

Lemma forEachM_organize (rotations : gmap nat Z) (pages : list PDFPage)
    (index : nat) (doc : PDFDocument) (st : Store) :
  forEachM (fun newPdf page index =>
              let rotation := default 0%Z (rotations !! index) in
              page <-
                (if (rotation =? 0)%Z then ret page
                 else await (setRotation page
                               (degrees (getRotation page + rotation)))) ;;
              ret (addPage newPdf page))
           pages index doc st
  = (match mapResult (organized_page rotations) pages index with
     | Ok out => Ok (mkPDFDocument (getPages doc ++ out))
     | Err e => Err e
     end, st).
Proof.
  revert index doc; induction pages as [|page pages IH]; intros index doc.
  - simpl. rewrite app_nil_r. by destruct doc.
  - cbn [forEachM mapResult]. unfold bind at 1. unfold bind at 1.
    unfold organized_page at 1. cbv zeta.
    destruct (default 0%Z (rotations !! index) =? 0)%Z.
    + unfold ret at 1 2. rewrite IH.
      destruct (mapResult _ pages (S index)) as [out|e]; [|done].
      simpl. by rewrite <- app_assoc.
    + unfold await at 1.
      destruct (setRotation page _) as [page'|e]; [|done].
      unfold ret at 1. rewrite IH.
      destruct (mapResult _ pages (S index)) as [out|e]; [|done].
      simpl. by rewrite <- app_assoc.
Qed.

Lemma organized_page_spec (rotations : gmap nat Z) (index : nat)
    (page out : PDFPage) :
  organized_page rotations index page = Ok out ->
  page_width out = page_width page
  /\ page_height out = page_height page
  /\ page_drawings out = page_drawings page
  /\ getRotation out = (getRotation page + default 0 (rotations !! index))%Z.
Proof.
  unfold organized_page, setRotation, degrees.
  destruct (Z.eqb_spec (default 0%Z (rotations !! index)) 0) as [->|_].
  - intros [= <-]. repeat split. unfold getRotation. lia.
  - destruct (Z.rem _ 90 =? 0)%Z; [|done]. by intros [= <-].
Qed.

Lemma organized_page_accepted (rotations : gmap nat Z) (index : nat)
    (page : PDFPage) :
  default 0%Z (rotations !! index) = 0%Z
  \/ (90 | getRotation page + default 0 (rotations !! index))%Z ->
  exists out, organized_page rotations index page = Ok out.
Proof.
  intros Hrotation. unfold organized_page, degrees.
  destruct (Z.eqb_spec (default 0%Z (rotations !! index)) 0) as [_|Hne];
    [by eexists|].
  destruct Hrotation as [E|Hangle]; [done|].
  rewrite (setRotation_accepts _ _ Hangle). by eexists.
Qed.

Lemma organized_page_rejected (rotations : gmap nat Z) (index : nat)
    (page : PDFPage) :
  default 0%Z (rotations !! index) <> 0%Z ->
  ~ (90 | getRotation page + default 0 (rotations !! index))%Z ->
  organized_page rotations index page
  = Err (setRotation_rejects
           (getRotation page + default 0 (rotations !! index))%Z).
Proof.
  intros Hne Hangle. unfold organized_page, degrees.
  destruct (Z.eqb_spec (default 0%Z (rotations !! index)) 0) as [E|_];
    [done|].
  by apply setRotation_throws.
Qed.

Lemma organizePdf_steps (st : Store) (pdfBytes : Uint8Array)
    (pageOrder : list nat) (rotations : gmap nat Z) (password : option string)
    (srcDoc : PDFDocument) :
  PDFDocument_load (contents st pdfBytes)
                   (if truthy password then password else None) = Ok srcDoc ->
  organizePdf pdfBytes pageOrder rotations password st
  = match copyPages srcDoc pageOrder with
    | Err e => (Err e, st)
    | Ok copied =>
        match mapResult (organized_page rotations) copied 0 with
        | Err e => (Err e, st)
        | Ok pages =>
            (Ok (length st),
             st ++ [PDFDocument_save (prepareForSave (mkPDFDocument pages))])
        end
    end.
Proof.
  intros Hload. unfold organizePdf. unfold bind at 1.
  rewrite (loadPdf_success _ _ _ _ Hload). unfold bind at 1, await at 1.
  destruct (copyPages srcDoc pageOrder) as [copied|e]; [|done].
  unfold bind at 1. rewrite forEachM_organize.
  by destruct (mapResult _ copied 0).
Qed.

Lemma copyPages_in_range (srcDoc : PDFDocument) (pageOrder : list nat) :
  Forall (fun i => (i < getPageCount srcDoc)%nat) pageOrder ->
  exists copied, copyPages srcDoc pageOrder = Ok copied.
Proof.
  intros Hrange.
  induction Hrange as [|i rest Hi _ [copied IH]]; simpl; [by eexists|].
  apply lookup_lt_is_Some_2 in Hi as [page ->]. rewrite IH. by eexists.
Qed.

Lemma copyPages_out_of_range (srcDoc : PDFDocument) (pageOrder : list nat) :
  Exists (fun i => (getPageCount srcDoc <= i)%nat) pageOrder ->
  copyPages srcDoc pageOrder = Err (TypeError_undefined "node").
Proof.
  intros Hbad. induction Hbad as [i rest Hi|i rest _ IH]; simpl.
  - by rewrite (lookup_ge_None_2 _ _ Hi).
  - rewrite IH. by destruct (getPages srcDoc !! i).
Qed.

(** Angles and entries that are multiples of 90 are accepted. *)
Lemma validAngle_sum (a b : Z) :
  validAngle a -> validAngle b -> (90 | a + b)%Z.
Proof. intros [Ha _] [Hb _]. by apply Z.divide_add_r. Qed.

(** With indices that name pages, page angles and map entries that are
    multiples of 90, every page is copied and accepted, and the document
    made of them is handed to [save]. *)
Lemma organizePdf_accepted (st : Store) (pdfBytes : Uint8Array)
    (pageOrder : list nat) (rotations : gmap nat Z) (password : option string)
    (srcDoc : PDFDocument) :
  PDFDocument_load (contents st pdfBytes)
                   (if truthy password then password else None) = Ok srcDoc ->
  Forall (fun i => (i < getPageCount srcDoc)%nat) pageOrder ->
  Forall (fun page => validAngle (getRotation page)) (getPages srcDoc) ->
  map_Forall (fun _ angle => validAngle angle) rotations ->
  exists copied pages,
    Forall2 (fun i page => getPages srcDoc !! i = Some page) pageOrder copied
    /\ mapResult (organized_page rotations) copied 0 = Ok pages
    /\ organizePdf pdfBytes pageOrder rotations password st
       = (Ok (length st),
          st ++ [PDFDocument_save (prepareForSave (mkPDFDocument pages))]).
Proof.
  intros Hload Hrange Hangles Hentries.
  destruct (copyPages_in_range _ _ Hrange) as [copied Hcopy].
  pose proof (proj1 (copyPages_spec _ _ _) Hcopy) as Hall.
  destruct (mapResult_all (organized_page rotations) copied 0) as [pages Hpages].
  { intros k page Hk. change (0 + k)%nat with k.
    apply organized_page_accepted.
    destruct (rotations !! k) as [angle|] eqn:Hangle; [|by left].
    right. simpl. apply validAngle_sum.
    - destruct (Forall2_lookup_r _ _ _ _ _ Hall Hk) as (i & _ & Hi).
      rewrite Forall_lookup in Hangles. by eapply Hangles.
    - by apply (Hentries k). }
  exists copied, pages. split; [done|]. split; [done|].
  by rewrite (organizePdf_steps _ _ _ _ _ _ Hload), Hcopy, Hpages.
Qed.

(** C4 as amended. For a document the loader opens whose page angles are
    multiples of 90, a list of indices of its pages (omissions and repeats
    allowed) and a rotation map whose entries are multiples of 90, Organize
    hands to [save] a document with as many pages as the list has indices; its
    [k]-th page is the copy of the source page at the [k]-th index (same
    size, same drawings) whose angle is the source angle plus the
    rotation-map entry of output position [k] (nothing is added where the
    map has no entry).  That document is what is saved when the list is not
    empty; for the empty list the saved document has one blank page. *)
Theorem organizePdf_pages (st : Store) (pdfBytes : Uint8Array)
    (pageOrder : list nat) (rotations : gmap nat Z) (password : option string)
    (srcDoc : PDFDocument) :
  PDFDocument_load (contents st pdfBytes)
                   (if truthy password then password else None) = Ok srcDoc ->
  Forall (fun i => (i < getPageCount srcDoc)%nat) pageOrder ->
  Forall (fun page => validAngle (getRotation page)) (getPages srcDoc) ->
  map_Forall (fun _ angle => validAngle angle) rotations ->
  exists newPdf,
    organizePdf pdfBytes pageOrder rotations password st
    = (Ok (length st), st ++ [PDFDocument_save (prepareForSave newPdf)])
    /\ getPageCount newPdf = length pageOrder
    /\ (pageOrder <> [] -> prepareForSave newPdf = newPdf)
    /\ (pageOrder = [] ->
        prepareForSave newPdf
        = mkPDFDocument [blankPage PageSizes_A4.1 PageSizes_A4.2])
    /\ forall k i, pageOrder !! k = Some i ->
         exists src out,
           getPages srcDoc !! i = Some src
           /\ getPages newPdf !! k = Some out
           /\ page_width out = page_width src
           /\ page_height out = page_height src
           /\ page_drawings out = page_drawings src
           /\ getRotation out
              = (getRotation src + default 0 (rotations !! k))%Z.
Proof.
  intros Hload Hrange Hangles Hentries.
  destruct (organizePdf_accepted st pdfBytes pageOrder rotations password
              srcDoc Hload Hrange Hangles Hentries)
    as (copied & pages & Hall & Hpages & Hrun).
  assert (Hlen : length copied = length pageOrder)
    by (symmetry; by eapply Forall2_length).
  destruct (mapResult_Ok _ _ _ _ Hpages) as [Hcount Hout].
  exists (mkPDFDocument pages).
  split; [exact Hrun|].
  split; [unfold getPageCount; simpl; lia|].
  split.
  { intros Hsome. apply prepareForSave_pages. simpl.
    destruct pages; [|done]. destruct pageOrder; [done|]. simpl in *. lia. }
  split.
  { intros ->. apply prepareForSave_no_pages. simpl.
    destruct pages; [done|]. simpl in *. lia. }
  intros k i Hk.
  destruct (Forall2_lookup_l _ _ _ _ _ Hall Hk) as (src & Hsrc & Hi).
  destruct (Hout k src Hsrc) as (out & Hk' & Hpage).
  exists src, out. split; [done|]. split; [done|].
  by apply (organized_page_spec rotations k).
Qed.

(** An index that names no page of the source makes Organize throw. *)
Lemma organizePdf_bad_index (st : Store) (pdfBytes : Uint8Array)
    (pageOrder : list nat) (rotations : gmap nat Z) (password : option string)
    (srcDoc : PDFDocument) :
  PDFDocument_load (contents st pdfBytes)
                   (if truthy password then password else None) = Ok srcDoc ->
  Exists (fun i => (getPageCount srcDoc <= i)%nat) pageOrder ->
  organizePdf pdfBytes pageOrder rotations password st
  = (Err (TypeError_undefined "node"), st).
Proof.
  intros Hload Hbad. rewrite (organizePdf_steps _ _ _ _ _ _ Hload).
  by rewrite (copyPages_out_of_range _ _ Hbad).
Qed.

(** *** Merge *)

Lemma mergePdfs_loop (st : Store) (files : list Uint8Array)
    (docs : list PDFDocument) (mergedPdf : PDFDocument) :
  Forall2 (fun fileBytes doc =>
             PDFDocument_load (contents st fileBytes) None = Ok doc) files docs ->
  foldM mergePdfs_file files mergedPdf st
  = (Ok (mkPDFDocument (getPages mergedPdf ++ concat (map getPages docs))), st).
Proof.
  intros Hall. revert mergedPdf.
  induction Hall as [|fileBytes doc files docs Hload _ IH]; intros mergedPdf.
  - simpl. rewrite app_nil_r. by destruct mergedPdf.
  - cbn [foldM]. unfold bind at 1, mergePdfs_file, bind, read, await.
    rewrite Hload, copyPages_getPageIndices, forEach_addPage.
    unfold ret. rewrite IH. simpl. by rewrite <- app_assoc.
Qed.

(** C5 as amended. For input files that all open without a password,
    Merge hands to [save] one document whose pages are the inputs' pages,
    file after file and in each file's page order; its page count is the
    sum of the inputs' page counts.  That document is what is saved when the inputs have a
    page; when they have none (the empty list included) the saved document
    has one blank page. *)
Theorem mergePdfs_pages (st : Store) (files : list Uint8Array)
    (docs : list PDFDocument) :
  Forall2 (fun fileBytes doc =>
             PDFDocument_load (contents st fileBytes) None = Ok doc) files docs ->
  exists merged,
    mergePdfs files st
    = (Ok (length st), st ++ [PDFDocument_save (prepareForSave merged)])
    /\ getPages merged = concat (map getPages docs)
    /\ getPageCount merged = sum_list (map getPageCount docs)
    /\ (sum_list (map getPageCount docs) <> 0%nat ->
        prepareForSave merged = merged)
    /\ (sum_list (map getPageCount docs) = 0%nat ->
        prepareForSave merged
        = mkPDFDocument [blankPage PageSizes_A4.1 PageSizes_A4.2]).
Proof.
  intros Hall.
  exists (mkPDFDocument (concat (map getPages docs))).
  assert (Hcount : getPageCount (mkPDFDocument (concat (map getPages docs)))
                   = sum_list (map getPageCount docs)).
  { unfold getPageCount; simpl. clear Hall.
    induction docs as [|doc docs IH]; simpl; [done|].
    by rewrite length_app, IH. }
  split; [|split; [done|split; [done|split]]].
  - unfold mergePdfs, bind. by rewrite (mergePdfs_loop _ _ _ _ Hall).
  - intros Hsome. apply prepareForSave_pages. rewrite <- Hcount in Hsome.
    unfold getPageCount in Hsome. by destruct (getPages _).
  - intros Hnone. apply prepareForSave_no_pages. rewrite <- Hcount in Hnone.
    unfold getPageCount in Hnone. by destruct (getPages _).
Qed.

End Organizing.

(** ** Protect *)

Section Protect.
Context `{Collaborators}.

(** C6. Protect normalizes the input with the old password, hands the
    clean bytes to the encryption step with the new password as both user
    and owner password, throws the empty-output error exactly when that step
    yields no output or an empty one, and otherwise returns the encrypted
    bytes. *)
Theorem protectPdf_outcomes (st st1 : Store) (pdfBytes cleanBytes : Uint8Array)
    (password : string) (oldPassword : option string)
    (encrypted : option bytes) :
  getCleanPdfBytes pdfBytes oldPassword st = (Ok cleanBytes, st1) ->
  encryptPDF (contents st1 cleanBytes) password password = Ok encrypted ->
  let outcome := protectPdf pdfBytes password oldPassword st in
  (outcome.1 = Err encryption_failed <->
   encrypted = None \/ encrypted = Some []) /\
  (forall output,
      encrypted = Some output -> output <> [] ->
      outcome = (Ok (length st1), st1 ++ [output])
      /\ contents outcome.2 (length st1) = output).
Proof.
  intros Hclean Hencrypt outcome.
  assert (Hrun : outcome =
                 match encrypted with
                 | None => (Err encryption_failed, st1)
                 | Some [] => (Err encryption_failed, st1 ++ [[]])
                 | Some output => (Ok (length st1), st1 ++ [output])
                 end).
  { subst outcome. unfold protectPdf, bind at 1. rewrite Hclean.
    unfold bind, read, await. rewrite Hencrypt.
    by destruct encrypted as [[|b output]|]. }
  rewrite Hrun. clear Hrun outcome.
  destruct encrypted as [[|b output]|]; simpl.
  - split; [by split; [right|]|]. by intros ? [= <-].
  - split.
    + split; [done|]. by intros [|].
    + intros ? [= <-] _. split; [done|].
      apply (contents_alloc_new st1 (b :: output)).
  - split; [by split; [left|]|]. done.
Qed.

(** A failure of the normalizer, or an exception of the encryption step, is
    the failure of Protect. *)
Lemma protectPdf_propagates (st st1 : Store) (pdfBytes : Uint8Array)
    (password : string) (oldPassword : option string) (e : JsError) :
  getCleanPdfBytes pdfBytes oldPassword st = (Err e, st1)
  \/ (exists cleanBytes,
         getCleanPdfBytes pdfBytes oldPassword st = (Ok cleanBytes, st1)
         /\ encryptPDF (contents st1 cleanBytes) password password = Err e) ->
  protectPdf pdfBytes password oldPassword st = (Err e, st1).
Proof.
  unfold protectPdf, bind at 1.
  intros [Hclean | (cleanBytes & Hclean & Hencrypt)]; rewrite Hclean; [done|].
  unfold bind, read, await. by rewrite Hencrypt.
Qed.

End Protect.

(** ** Image to PDF *)

Section Images.
Context `{Collaborators}.

Lemma embedFile_embedded (file : File) (imageBytes : Uint8Array) (st : Store) :
  embedFile file imageBytes st
  = (Ok (embedded file (contents st imageBytes)), st).
Proof.
  unfold embedFile, embedded, isJpeg, isPng, try_catch.
  destruct (_ || _ || _).
  - unfold bind, read, await.
    by destruct (embedJpg (contents st imageBytes)).
  - destruct (_ || _); [|done].
    unfold bind, read, await.
    by destruct (embedPng (contents st imageBytes)).
Qed.

(** The loop over readable files: each file's bytes become a typed array,
    and each embedded image adds its page. *)
Lemma createPdfFromImages_loop (options : ImageToPdfOptions)
    (files : list File) (datas : list bytes) (pdfDoc : PDFDocument)
    (st : Store) :
  Forall2 (fun file data => file_read file = Ok data) files datas ->
  foldM (createPdfFromImages_file options) files pdfDoc st
  = (Ok (mkPDFDocument
           (getPages pdfDoc
            ++ map (image_page options) (embedded_images files datas))),
     st ++ datas).
Proof.
  intros Hread. revert pdfDoc st.
  induction Hread as [|file data files datas Hfile _ IH]; intros pdfDoc st.
  - simpl. rewrite !app_nil_r. by destruct pdfDoc.
  - cbn [foldM]. unfold bind at 1, createPdfFromImages_file, bind at 1.
    unfold readFileAsArrayBuffer, bind at 1, await, alloc. rewrite Hfile.
    unfold bind at 1. rewrite embedFile_embedded, contents_alloc_new.
    unfold embedded_images. cbn [zip_with omap list_omap uncurry].
    change (zip_with pair files datas) with (zip files datas).
    fold (embedded_images files datas).
    destruct (embedded file data) as [image|]; unfold ret; rewrite IH.
    + simpl. by rewrite <- !app_assoc.
    + simpl. by rewrite <- !app_assoc.
Qed.

(** The first file that cannot be read stops the loop with its error. *)
Lemma createPdfFromImages_unreadable (options : ImageToPdfOptions)
    (before after : list File) (datas : list bytes) (file : File)
    (e : JsError) (st : Store) :
  Forall2 (fun file data => file_read file = Ok data) before datas ->
  file_read file = Err e ->
  createPdfFromImages (before ++ file :: after) options st
  = (Err e, st ++ datas).
Proof.
  intros Hread Hfile. unfold createPdfFromImages, bind at 1.
  assert (Hloop : forall pdfDoc st0,
             foldM (createPdfFromImages_file options) (before ++ file :: after)
                   pdfDoc st0 = (Err e, st0 ++ datas)).
  { induction Hread as [|file0 data files datas Hfile0 _ IH]; intros pdfDoc st0.
    - cbn [app foldM]. unfold bind at 1, createPdfFromImages_file, bind at 1.
      unfold readFileAsArrayBuffer, bind at 1, await. rewrite Hfile.
      by rewrite app_nil_r.
    - cbn [app foldM]. unfold bind at 1, createPdfFromImages_file, bind at 1.
      unfold readFileAsArrayBuffer, bind at 1, await, alloc. rewrite Hfile0.
      unfold bind at 1. rewrite embedFile_embedded.
      destruct (embedded _ _); unfold ret; rewrite IH; by rewrite <- app_assoc. }
  by rewrite Hloop.
Qed.

End Images.

Section ImageGeometry.
Context `{Collaborators}.
Local Open Scope Q_scope.

(** The scale: at most 1, and the largest that makes the scaled image fit
    between the margins, up to rounding. *)
Lemma image_scale_factor_spec (pageWidth pageHeight imgWidth imgHeight : Q) :
  40 < pageWidth -> 40 < pageHeight -> 0 < imgWidth -> 0 < imgHeight ->
  let scale := image_scale_factor pageWidth pageHeight imgWidth imgHeight in
  0 < scale <= 1
  /\ fl (imgWidth * scale) <= (pageWidth - 40) * (1 + roundingSlack)
  /\ fl (imgHeight * scale) <= (pageHeight - 40) * (1 + roundingSlack)
  /\ (scale == 1
      \/ (pageWidth - 40) * (1 - roundingSlack) <= fl (imgWidth * scale)
      \/ (pageHeight - 40) * (1 - roundingSlack) <= fl (imgHeight * scale)).
Proof.
  intros Hpw Hph Hw Hh scale. subst scale. unfold image_scale_factor.
  set (rw := fl (fl (pageWidth - 20 * 2) / imgWidth)).
  set (rh := fl (fl (pageHeight - 20 * 2) / imgHeight)).
  assert (Hrw : 0 < rw).
  { apply fl_pos, Qlt_shift_div_l; [exact Hw|].
    rewrite Qmult_0_l. apply fl_pos. lra. }
  assert (Hrh : 0 < rh).
  { apply fl_pos, Qlt_shift_div_l; [exact Hh|].
    rewrite Qmult_0_l. apply fl_pos. lra. }
  set (scale := Qmin (Qmin rw rh) 1).
  assert (H1 : scale <= 1) by apply Q.le_min_r.
  assert (Hm : scale <= Qmin rw rh) by apply Q.le_min_l.
  assert (Hsw : scale <= rw) by (apply (Qle_trans _ _ _ Hm), Q.le_min_l).
  assert (Hsh : scale <= rh) by (apply (Qle_trans _ _ _ Hm), Q.le_min_r).
  assert (Hpos : 0 < scale).
  { unfold scale. apply Q.min_glb_lt; [apply Q.min_glb_lt|]; done. }
  split; [by split|]. split; [by apply scaled_extent_fits|].
  split; [by apply scaled_extent_fits|].
  destruct (Q.min_spec (Qmin rw rh) 1) as [[_ Hscale]|[_ Hscale]];
    [|by left].
  right.
  destruct (Q.min_spec rw rh) as [[_ Hmin]|[_ Hmin]].
  - left. apply scaled_extent_fills; [done..|].
    fold rw scale. by rewrite <- Hmin.
  - right. apply scaled_extent_fills; [done..|].
    fold rh scale. by rewrite <- Hmin.
Qed.

(** The page made for one image. *)
Lemma image_page_geometry (options : ImageToPdfOptions) (image : PDFImage) :
  40 < PageSizes_A4.1 -> 40 < PageSizes_A4.2 ->
  40 < PageSizes_Letter.1 -> 40 < PageSizes_Letter.2 ->
  0 < image_width image -> 0 < image_height image ->
  fl (image_width image) == image_width image ->
  fl (image_height image) == image_height image ->
  exists x y width height,
    page_drawings (image_page options image)
    = [DrawnImage image x y width height]
    /\ (pageSize options = Fit ->
        page_width (image_page options image) = image_width image
        /\ page_height (image_page options image) = image_height image
        /\ width = image_width image /\ height = image_height image
        /\ x = 0 /\ y = 0)
    /\ (pageSize options <> Fit ->
        page_width (image_page options image) = (selected_format options).1
        /\ page_height (image_page options image)
           = (selected_format options).2)
    /\ (pageSize options <> Fit ->
        exists scale,
          0 < scale <= 1
          /\ Qabs (width - image_width image * scale)
             <= image_width image * scale * unitRoundoff
          /\ Qabs (height - image_height image * scale)
             <= image_height image * scale * unitRoundoff
          /\ width
             <= (page_width (image_page options image) - 40)
                * (1 + roundingSlack)
          /\ height
             <= (page_height (image_page options image) - 40)
                * (1 + roundingSlack)
          /\ (scale == 1 ->
              width == image_width image /\ height == image_height image)
          /\ (scale < 1 ->
              (page_width (image_page options image) - 40)
              * (1 - roundingSlack) <= width
              \/ (page_height (image_page options image) - 40)
                 * (1 - roundingSlack) <= height))
    /\ Qabs (x + width + x - page_width (image_page options image))
       <= Qabs (page_width (image_page options image) - width)
          * roundingSlack
    /\ Qabs (y + height + y - page_height (image_page options image))
       <= Qabs (page_height (image_page options image) - height)
          * roundingSlack.
Proof.
  intros HA1 HA2 HL1 HL2 Hw Hh Hfw Hfh.
  unfold image_page, image_layout, selected_format.
  assert (Hscaled : forall pw ph,
             40 < pw -> 40 < ph ->
             exists scale,
               scale = image_scale_factor pw ph (image_width image)
                                          (image_height image)
               /\ 0 < scale <= 1
               /\ Qabs (fl (image_width image * scale)
                        - image_width image * scale)
                  <= image_width image * scale * unitRoundoff
               /\ Qabs (fl (image_height image * scale)
                        - image_height image * scale)
                  <= image_height image * scale * unitRoundoff
               /\ fl (image_width image * scale)
                  <= (pw - 40) * (1 + roundingSlack)
               /\ fl (image_height image * scale)
                  <= (ph - 40) * (1 + roundingSlack)
               /\ (scale == 1 ->
                   fl (image_width image * scale) == image_width image
                   /\ fl (image_height image * scale) == image_height image)
               /\ (scale < 1 ->
                   (pw - 40) * (1 - roundingSlack)
                   <= fl (image_width image * scale)
                   \/ (ph - 40) * (1 - roundingSlack)
                      <= fl (image_height image * scale))).
  { intros pw ph Hpw Hph.
    destruct (image_scale_factor_spec pw ph _ _ Hpw Hph Hw Hh)
      as ([Hpos H1] & Hfitw & Hfith & Hfill).
    set (scale := image_scale_factor pw ph (image_width image)
                                     (image_height image)) in *.
    exists scale. split; [done|]. split; [done|].
    assert (Habs : forall extent, 0 < extent ->
               Qabs (fl (extent * scale) - extent * scale)
               <= extent * scale * unitRoundoff).
    { intros extent Hextent.
      pose proof (fl_error (extent * scale)) as Herror.
      rewrite (Qabs_pos (extent * scale)) in Herror; [done|].
      apply Qmult_le_0_compat; lra. }
    split; [by apply Habs|]. split; [by apply Habs|].
    split; [done|]. split; [done|]. split.
    - intros Hone. split.
      + rewrite (fl_Qeq _ (image_width image)); [done|]. rewrite Hone. ring.
      + rewrite (fl_Qeq _ (image_height image)); [done|]. rewrite Hone. ring.
    - intros Hless. destruct Hfill as [Hone|Hfill]; [lra|done]. }
  assert (Hzero : forall q, fl (fl (q - q) / 2) = 0).
  { intros q. rewrite (fl_zero (q - q)) by ring. by apply fl_zero. }
  destruct (pageSize options) eqn:Hsize.
  3:{ do 4 eexists. split; [reflexivity|]. simpl.
      split; [by rewrite !Hzero|]. split; [done|]. split; [done|].
      split; apply centred_offset. }
  all: destruct (orientation options).
  all: match goal with
       | |- context [image_scale_factor ?pw ?ph _ _] =>
           destruct (Hscaled pw ph) as (scale & <- & Hfacts); [done..|]
       end.
  all: do 4 eexists; split; [reflexivity|]; simpl.
  all: split; [done|]; split; [done|]; split; [|split; apply centred_offset].
  all: intros _; exists scale; exact Hfacts.
Qed.

End ImageGeometry.

Section ImageClaims.
Context `{Collaborators}.
Local Open Scope Q_scope.

(** C7 as amended. For files that are read and whose embedded images have
    positive pixel sizes (binary64 numbers themselves), and page sizes
    larger than the two margins, Image-to-PDF hands to [save] a document
    with one page per embedded image, in file order.  With page size Fit
    the page has exactly the image's width and height, and the image is
    drawn at that size at the origin.  With A4 or Letter the page has the
    library's size of that name (sides exchanged for Landscape) and the
    image is drawn with its width and height multiplied by one factor (each
    product rounded); the factor is positive and at most 1 (never upscaled); when
    the factor is 1 the image has its own size, and otherwise it fills the
    width or the height between the margins of 20; it exceeds neither, and
    it is centered on the page: all three up to the rounding of the
    arithmetic, a relative error of at most [roundingSlack]. *)
Theorem createPdfFromImages_geometry (st : Store) (files : list File)
    (datas : list bytes) (options : ImageToPdfOptions) :
  Forall2 (fun file data => file_read file = Ok data) files datas ->
  Forall (fun image =>
            0 < image_width image /\ 0 < image_height image
            /\ fl (image_width image) == image_width image
            /\ fl (image_height image) == image_height image)
         (embedded_images files datas) ->
  40 < PageSizes_A4.1 -> 40 < PageSizes_A4.2 ->
  40 < PageSizes_Letter.1 -> 40 < PageSizes_Letter.2 ->
  exists pdfDoc,
    createPdfFromImages files options st
    = (Ok (length st + length datas)%nat,
       (st ++ datas) ++ [PDFDocument_save (prepareForSave pdfDoc)])
    /\ getPageCount pdfDoc = length (embedded_images files datas)
    /\ (embedded_images files datas <> [] -> prepareForSave pdfDoc = pdfDoc)
    /\ forall k image,
        embedded_images files datas !! k = Some image ->
        exists page x y width height,
          getPages pdfDoc !! k = Some page
          /\ page_drawings page = [DrawnImage image x y width height]
          /\ (pageSize options = Fit ->
              page_width page = image_width image
              /\ page_height page = image_height image
              /\ width = image_width image /\ height = image_height image
              /\ x = 0 /\ y = 0)
          /\ (pageSize options <> Fit ->
              page_width page = (selected_format options).1
              /\ page_height page = (selected_format options).2)
          /\ (pageSize options <> Fit ->
              exists scale,
                0 < scale <= 1
                /\ Qabs (width - image_width image * scale)
                   <= image_width image * scale * unitRoundoff
                /\ Qabs (height - image_height image * scale)
                   <= image_height image * scale * unitRoundoff
                /\ width <= (page_width page - 40) * (1 + roundingSlack)
                /\ height <= (page_height page - 40) * (1 + roundingSlack)
                /\ (scale == 1 ->
                    width == image_width image
                    /\ height == image_height image)
                /\ (scale < 1 ->
                    (page_width page - 40) * (1 - roundingSlack) <= width
                    \/ (page_height page - 40) * (1 - roundingSlack)
                       <= height))
          /\ Qabs (x + width + x - page_width page)
             <= Qabs (page_width page - width) * roundingSlack
          /\ Qabs (y + height + y - page_height page)
             <= Qabs (page_height page - height) * roundingSlack.
Proof.
  intros Hread Hpos HA1 HA2 HL1 HL2.
  exists (mkPDFDocument (map (image_page options) (embedded_images files datas))).
  split; [|split; [|split]].
  - unfold createPdfFromImages, bind.
    rewrite (createPdfFromImages_loop _ _ _ _ _ Hread).
    unfold save, alloc. by rewrite length_app.
  - unfold getPageCount; simpl. by rewrite length_map.
  - intros Hsome. apply prepareForSave_pages. simpl.
    by destruct (embedded_images files datas).
  - intros k image Hk.
    destruct (proj1 (Forall_lookup _ _) Hpos k image Hk)
      as (Hw & Hh & Hfw & Hfh).
    destruct (image_page_geometry options image HA1 HA2 HL1 HL2 Hw Hh Hfw Hfh)
      as (x & y & width & height & Hgeometry).
    exists (image_page options image), x, y, width, height.
    split; [|exact Hgeometry].
    simpl. by rewrite list_lookup_fmap, Hk.
Qed.

(** C10 as amended. When every file is read and none yields an embedded
    image (an empty list, files that are neither JPEG nor PNG, images whose
    embedding throws), Image-to-PDF throws nothing: no page has been added
    to the new document, and what it returns is the serialization of a
    document with exactly one page, the blank page of the default size that
    [save] adds to a document without pages. *)
Theorem createPdfFromImages_nothing_embedded (st : Store) (files : list File)
    (datas : list bytes) (options : ImageToPdfOptions) :
  Forall2 (fun file data => file_read file = Ok data) files datas ->
  Forall2 (fun file data => embedded file data = None) files datas ->
  exists saved,
    createPdfFromImages files options st
    = (Ok (length st + length datas)%nat,
       (st ++ datas) ++ [PDFDocument_save saved])
    /\ getPages saved = [blankPage PageSizes_A4.1 PageSizes_A4.2]
    /\ getPageCount saved = 1%nat.
Proof.
  intros Hread Hnone.
  exists (mkPDFDocument [blankPage PageSizes_A4.1 PageSizes_A4.2]).
  split; [|done].
  unfold createPdfFromImages, bind.
  rewrite (createPdfFromImages_loop _ _ _ _ _ Hread).
  assert (Hempty : embedded_images files datas = []).
  { unfold embedded_images. clear Hread.
    induction Hnone as [|file data files datas Hfile _ IH]; [done|].
    cbn [zip_with omap list_omap uncurry]. rewrite Hfile. exact IH. }
  rewrite Hempty. unfold save, alloc. by rewrite length_app.
Qed.

(** When [embedded] finds no image. *)
Lemma embedded_None (file : File) (data : bytes) :
  embedded file data = None <->
  (isJpeg file = true /\ exists e, embedJpg data = Err e)
  \/ (isJpeg file = false /\ isPng file = true
      /\ exists e, embedPng data = Err e)
  \/ (isJpeg file = false /\ isPng file = false).
Proof.
  unfold embedded.
  destruct (isJpeg file); [|destruct (isPng file)].
  - destruct (embedJpg data) as [image|e]; split; try done.
    + intros [(_ & e & He)|[(? & _)|(? & _)]]; done.
    + intros _. left. eauto.
  - destruct (embedPng data) as [image|e]; split; try done.
    + intros [(? & _)|[(_ & _ & e & He)|(_ & ?)]]; done.
    + intros _. right; left. eauto.
  - split; [|done]. intros _. by right; right.
Qed.

End ImageClaims.

(** ** The encryption probe *)

Section Probe.
Context `{Collaborators}.

Lemma checkPdfPassword_run (file : File) (st : Store) :
  checkPdfPassword file st =
  match pdfjsLib with
  | None => (Ok false, st)
  | Some pdfjs =>
      match file_read file with
      | Err e => (Err e, st)
      | Ok data =>
          (match getDocument pdfjs data None with
           | Ok _ => Ok false
           | Err e => Ok (String.eqb (err_name e) "PasswordException")
           end,
           st ++ [transferred data])
      end
  end.
Proof.
  unfold checkPdfPassword. destruct pdfjsLib as [pdfjs|]; [|done].
  unfold bind at 1, readFileAsArrayBuffer, bind, await, alloc.
  destruct (file_read file) as [data|e]; [|done].
  unfold try_catch, bind, pdfjs_getDocument.
  rewrite contents_alloc_new, insert_app_r_alt, Nat.sub_diag by lia.
  destruct (getDocument pdfjs data None) as [doc|e]; [done|].
  by destruct (String.eqb (err_name e) "PasswordException").
Qed.

(** C8 as amended. Without the rendering library the probe returns
    false.  With it, and when the file is read, the probe returns true if
    and only if opening the bytes with no password raises the exception
    named PasswordException, and false in every other case (a successful
    open, any other error of the open).  With it, and when reading the file
    fails, the read error is propagated. *)
Theorem checkPdfPassword_outcomes (file : File) (st : Store) :
  let outcome := (checkPdfPassword file st).1 in
  (pdfjsLib = None -> outcome = Ok false) /\
  (forall pdfjs data,
      pdfjsLib = Some pdfjs -> file_read file = Ok data ->
      (outcome = Ok true <->
       exists e, getDocument pdfjs data None = Err e
                 /\ err_name e = "PasswordException")
      /\ (outcome = Ok true \/ outcome = Ok false)) /\
  (forall pdfjs e,
      pdfjsLib = Some pdfjs -> file_read file = Err e -> outcome = Err e).
Proof.
  intros outcome. subst outcome. rewrite checkPdfPassword_run.
  split; [by intros ->|]. split.
  - intros pdfjs data -> ->.
    destruct (getDocument pdfjs data None) as [doc|e]; simpl.
    + split; [|by right]. split; [done|]. by intros (e & ? & _).
    + destruct (String.eqb_spec (err_name e) "PasswordException") as [Hname|Hname].
      * split; [|by left]. split; [|done]. intros _. by exists e.
      * split; [|by right]. split; [done|].
        intros (e' & [= <-] & Hname'). done.
  - by intros pdfjs e -> ->.
Qed.

End Probe.


(** ** What happens to the caller's typed array *)

Lemma preserves_ret {A} (x : A) : preserves (ret x).
Proof. by intros st. Qed.

Lemma preserves_throw {A} (e : JsError) : preserves (@throw A e).
Proof. by intros st. Qed.

Lemma preserves_await {A} (r : Result A) : preserves (await r).
Proof. by intros st. Qed.

Lemma preserves_read (a : Uint8Array) : preserves (read a).
Proof. by intros st. Qed.

Lemma preserves_alloc (b : bytes) : preserves (alloc b).
Proof.
  intros st. unfold alloc; simpl. split.
  - rewrite length_app. lia.
  - intros a Ha. by apply lookup_app_l.
Qed.

Lemma preserves_bind {A B} (m : M A) (k : A -> M B) :
  preserves m -> (forall x, preserves (k x)) -> preserves (bind m k).
Proof.
  intros Hm Hk st. unfold bind.
  destruct (Hm st) as [Hlen Hkeep].
  destruct (m st) as [[x|e] st1]; simpl in *; [|done].
  destruct (Hk x st1) as [Hlen1 Hkeep1]. split; [lia|].
  intros a Ha. rewrite Hkeep1 by lia. by apply Hkeep.
Qed.

Lemma preserves_try_catch {A} (body : M A) (handler : JsError -> M A) :
  preserves body -> (forall e, preserves (handler e)) ->
  preserves (try_catch body handler).
Proof.
  intros Hbody Hhandler st. unfold try_catch.
  destruct (Hbody st) as [Hlen Hkeep].
  destruct (body st) as [[x|e] st1]; simpl in *; [done|].
  destruct (Hhandler e st1) as [Hlen1 Hkeep1]. split; [lia|].
  intros a Ha. rewrite Hkeep1 by lia. by apply Hkeep.
Qed.

Lemma preserves_foldM {A Acc} (body : Acc -> A -> M Acc) (l : list A) (s : Acc) :
  (forall s x, preserves (body s x)) -> preserves (foldM body l s).
Proof.
  intros Hbody. revert s; induction l as [|x l IH]; intros s; simpl.
  - apply preserves_ret.
  - apply preserves_bind; [apply Hbody | apply IH].
Qed.

Lemma preserves_forEachM {A Acc} (f : Acc -> A -> nat -> M Acc) (l : list A)
    (index : nat) (s : Acc) :
  (forall s x i, preserves (f s x i)) -> preserves (forEachM f l index s).
Proof.
  intros Hf. revert index s; induction l as [|x l IH]; intros index s; simpl.
  - apply preserves_ret.
  - apply preserves_bind; [apply Hf | intros; apply IH].
Qed.

Section Buffers.
Context `{Collaborators}.

(** A loop whose body leaves the arrays alone leaves them alone. *)
Lemma foldM_store {A Acc} (body : Acc -> A -> M Acc) (l : list A) (s : Acc)
    (st : Store) :
  (forall s x st, (body s x st).2 = st) ->
  (foldM body l s st).2 = st.
Proof.
  intros Hbody. revert s st; induction l as [|x l IH]; intros s st; [done|].
  cbn [foldM]. unfold bind. specialize (Hbody s x st).
  destruct (body s x st) as [[s'|e] st']; simpl in Hbody; subst st'; [|done].
  apply IH.
Qed.

Lemma generatePdfThumbnails_page_store (pdf : PDFDocumentProxy)
    (thumbnails : list string) (i : nat) (st : Store) :
  (generatePdfThumbnails_page pdf thumbnails i st).2 = st.
Proof.
  unfold generatePdfThumbnails_page, bind, await, ret.
  destruct (getPage pdf i) as [page|]; [|done].
  by destruct (render page _ _) as [canvas|].
Qed.

(** Handing a clone to the rendering library preserves the arrays: only
    the clone, which did not exist before, is given away. *)
Lemma preserves_clone_getDocument {A} (pdfjs : PdfJsLib) (a : Uint8Array)
    (password : option string) (k : PDFDocumentProxy -> M A) :
  (forall pdf, preserves (k pdf)) ->
  preserves (clone <- slice0 a ;; pdf <- pdfjs_getDocument pdfjs clone password ;; k pdf).
Proof.
  intros Hk st.
  set (st1 := st ++ [transferred (contents st a)]).
  assert (Hrun :
    (clone <- slice0 a ;; pdf <- pdfjs_getDocument pdfjs clone password ;; k pdf) st
    = match getDocument pdfjs (contents st a) password with
      | Ok pdf => k pdf st1
      | Err e => (Err e, st1)
      end).
  { unfold bind at 1, slice0, bind at 1, read, alloc, bind at 1, pdfjs_getDocument.
    rewrite contents_alloc_new, insert_app_r_alt, Nat.sub_diag by lia.
    done. }
  rewrite Hrun. clear Hrun.
  assert (Hlen : (length st <= length st1)%nat)
    by (subst st1; rewrite length_app; lia).
  assert (Hkeep : forall b, (b < length st)%nat -> st1 !! b = st !! b)
    by (intros b Hb; by apply lookup_app_l).
  destruct (getDocument pdfjs (contents st a) password) as [pdf|e];
    [|by split].
  destruct (Hk pdf st1) as [Hlen1 Hkeep1]. split; [lia|].
  intros b Hb. rewrite Hkeep1 by lia. by apply Hkeep.
Qed.

Create HintDb preserves.
#[local] Hint Resolve preserves_ret preserves_throw preserves_await
  preserves_read preserves_alloc preserves_bind preserves_try_catch
  preserves_foldM preserves_clone_getDocument : preserves.

Ltac preserves_step :=
  match goal with
  | |- preserves (if ?b then _ else _) => destruct b
  | |- preserves (match ?x with _ => _ end) => destruct x
  | |- forall _, _ => intro
  | |- preserves _ => solve [eauto with preserves]
  | |- preserves (bind _ _) => apply preserves_bind
  | |- preserves (try_catch _ _) => apply preserves_try_catch
  end.

Lemma loadPdf_preserves (pdfBytes : Uint8Array) (password : option string) :
  preserves (loadPdf pdfBytes password).
Proof.
  unfold loadPdf. apply preserves_try_catch; [eauto with preserves|].
  intros e. destruct (encryption_related e); [|apply preserves_throw].
  apply preserves_bind; [|eauto with preserves].
  destruct (truthy password); [|apply preserves_ret].
  destruct pdfjsLib as [pdfjs|]; [|apply preserves_ret].
  apply preserves_try_catch.
  - apply (preserves_clone_getDocument pdfjs pdfBytes password
             (fun _ => throw (Error unsupported_message))).
    intros _. apply preserves_throw.
  - intros e'. repeat preserves_step.
Qed.

Lemma rasterizePdf_page_preserves (pdf : PDFDocumentProxy) (doc : PDFDocument)
    (i : nat) :
  preserves (rasterizePdf_page pdf doc i).
Proof.
  unfold rasterizePdf_page.
  repeat (apply preserves_bind; [apply preserves_await|intros ?]).
  destruct (image_scale _ _). apply preserves_ret.
Qed.

Lemma rasterizePdf_preserves (pdfBytes : Uint8Array) (password : option string) :
  preserves (rasterizePdf pdfBytes password).
Proof.
  unfold rasterizePdf. destruct pdfjsLib as [pdfjs|]; [|apply preserves_throw].
  apply (preserves_clone_getDocument pdfjs pdfBytes password).
  intros pdf. apply preserves_bind.
  - apply preserves_foldM. intros. apply rasterizePdf_page_preserves.
  - intros. apply preserves_alloc.
Qed.

Lemma getCleanPdfBytes_preserves (pdfBytes : Uint8Array)
    (password : option string) :
  preserves (getCleanPdfBytes pdfBytes password).
Proof.
  unfold getCleanPdfBytes, save. apply preserves_try_catch.
  - apply preserves_bind; [apply loadPdf_preserves|]. eauto with preserves.
  - intros e. destruct (message_includes e _);
      [apply rasterizePdf_preserves | apply preserves_throw].
Qed.

Lemma rotatePdf_preserves (pdfBytes : Uint8Array) (rotation : Z)
    (password : option string) :
  preserves (rotatePdf pdfBytes rotation password).
Proof.
  unfold rotatePdf, save.
  apply preserves_bind; [apply loadPdf_preserves|]. intros pdfDoc.
  apply preserves_bind; [|intros; apply preserves_alloc].
  apply preserves_forEachM. intros.
  apply preserves_bind; [apply preserves_await|]. intros. apply preserves_ret.
Qed.

Lemma organizePdf_preserves (pdfBytes : Uint8Array) (pageOrder : list nat)
    (rotations : gmap nat Z) (password : option string) :
  preserves (organizePdf pdfBytes pageOrder rotations password).
Proof.
  unfold organizePdf, save.
  apply preserves_bind; [apply loadPdf_preserves|]. intros pdfDoc.
  apply preserves_bind; [apply preserves_await|]. intros copiedPages.
  apply preserves_bind; [|intros; apply preserves_alloc].
  apply preserves_forEachM. intros newPdf page index.
  apply preserves_bind; [|intros; apply preserves_ret].
  destruct (_ =? _)%Z; [apply preserves_ret | apply preserves_await].
Qed.

Lemma mergePdfs_preserves (files : list Uint8Array) :
  preserves (mergePdfs files).
Proof.
  unfold mergePdfs, save. apply preserves_bind; [|eauto with preserves].
  apply preserves_foldM. intros. unfold mergePdfs_file. eauto 10 with preserves.
Qed.

Lemma protectPdf_preserves (pdfBytes : Uint8Array) (password : string)
    (oldPassword : option string) :
  preserves (protectPdf pdfBytes password oldPassword).
Proof.
  unfold protectPdf.
  apply preserves_bind; [apply getCleanPdfBytes_preserves|]. intros cleanBytes.
  apply preserves_bind; [apply preserves_read|]. intros clean.
  apply preserves_bind; [apply preserves_await|]. intros [output|].
  - apply preserves_bind; [apply preserves_alloc|]. intros.
    destruct (_ =? _)%nat; eauto with preserves.
  - apply preserves_throw.
Qed.

Lemma createPdfFromImages_preserves (files : list File)
    (options : ImageToPdfOptions) :
  preserves (createPdfFromImages files options).
Proof.
  unfold createPdfFromImages, save. apply preserves_bind; [|eauto with preserves].
  apply preserves_foldM. intros pdfDoc file.
  unfold createPdfFromImages_file, readFileAsArrayBuffer.
  apply preserves_bind; [eauto with preserves|]. intros imageBytes.
  apply preserves_bind.
  - unfold embedFile. apply preserves_try_catch; [|eauto with preserves].
    destruct (_ || _ || _); [eauto 10 with preserves|].
    destruct (_ || _); eauto 10 with preserves.
  - intros [image|]; apply preserves_ret.
Qed.

(** C9, what the code does. Thumbnail generation hands the caller's typed
    array itself to the rendering library: after the call the array holds
    what the library leaves in an array it was handed.  The loader and the
    rasterization fallback, which clone first, leave it as it was. *)
Theorem generatePdfThumbnails_hands_over_input (st : Store)
    (pdfBytes : Uint8Array) (password : option string) (pdfjs : PdfJsLib) :
  pdfjsLib = Some pdfjs ->
  (pdfBytes < length st)%nat ->
  contents (generatePdfThumbnails pdfBytes password st).2 pdfBytes
  = transferred (contents st pdfBytes)
  /\ contents (rasterizePdf pdfBytes password st).2 pdfBytes
     = contents st pdfBytes
  /\ contents (loadPdf pdfBytes password st).2 pdfBytes
     = contents st pdfBytes.
Proof.
  intros Hlib Hin. split; [|split].
  - unfold generatePdfThumbnails. rewrite Hlib.
    unfold try_catch, bind, pdfjs_getDocument.
    assert (Hafter :
      contents (<[pdfBytes:=transferred (contents st pdfBytes)]> st) pdfBytes
      = transferred (contents st pdfBytes)).
    { unfold contents at 1. by rewrite list_lookup_insert_eq. }
    destruct (getDocument pdfjs (contents st pdfBytes) password) as [pdf|e];
      [|exact Hafter].
    pose proof (foldM_store (generatePdfThumbnails_page pdf)
                  (seq 1 (numPages pdf)) []
                  (<[pdfBytes:=transferred (contents st pdfBytes)]> st)
                  (generatePdfThumbnails_page_store pdf)) as Hloop.
    destruct (foldM _ _ _ _) as [[thumbnails|e] st']; simpl in Hloop; subst st';
      exact Hafter.
  - unfold contents.
    by rewrite (proj2 (rasterizePdf_preserves pdfBytes password st) _ Hin).
  - unfold contents.
    by rewrite (proj2 (loadPdf_preserves pdfBytes password st) _ Hin).
Qed.

End Buffers.

(** * The orchestrator on concrete files *)

(** Wrong password, no password, no rendering library. *)
Example loadPdf_wrong_password :
  (@loadPdf Demo.env 0%nat (Some "guess") [[Byte.x01; Byte.x02]]).1
  = Err (Error incorrect_message).
Proof. reflexivity. Qed.

Example loadPdf_no_password :
  (@loadPdf Demo.env 0%nat None [[Byte.x01; Byte.x02]]).1
  = Err (Error generic_message).
Proof. reflexivity. Qed.

Example loadPdf_no_rendering_library :
  (@loadPdf (Demo.collaborators None) 0%nat (Some "open sesame")
     [[Byte.x01; Byte.x02]]).1
  = Err (Error generic_message).
Proof. reflexivity. Qed.

Example loadPdf_not_a_pdf :
  (@loadPdf Demo.env 0%nat (Some "open sesame") [[Byte.x07]]).1
  = Err (Error "Failed to parse PDF document").
Proof. reflexivity. Qed.

(** Organize: pages 2, 0, 2 of a file whose pages are turned 0, 90, 180,
    with output position 0 turned by 90 and position 1 by 180, saves pages
    turned 270, 180, 180. *)
Example organizePdf_run :
  @organizePdf Demo.env 0%nat [2; 0; 2]%nat Demo.turns None [Demo.fileC]
  = (Ok 1%nat, [Demo.fileC; [Byte.x00; Byte.x03; Byte.x02; Byte.x02]]).
Proof. reflexivity. Qed.

(** Rotate by 90: pages turned 90 and 180 are saved turned 180 and 270. *)
Example rotatePdf_run_quarter :
  @rotatePdf Demo.env 0%nat 90 None [Demo.fileA]
  = (Ok 1%nat, [Demo.fileA; [Byte.x00; Byte.x02; Byte.x03]]).
Proof. reflexivity. Qed.

(** Merge of the two-page file and the three-page file. *)
Example mergePdfs_run :
  @mergePdfs Demo.env [0; 1]%nat [Demo.fileA; Demo.fileB]
  = (Ok 2%nat,
     [Demo.fileA; Demo.fileB;
      [Byte.x00; Byte.x01; Byte.x02; Byte.x03; Byte.x04; Byte.x05]]).
Proof. reflexivity. Qed.

(** Thumbnails of a one-page file: one data URL, and the input array is
    left empty. *)
Example generatePdfThumbnails_run :
  @generatePdfThumbnails Demo.env 0%nat None [Demo.fileD]
  = (Ok ["data:image/png;base64,AQE="], [[]]).
Proof. reflexivity. Qed.

(** Rotate by 45: the library rejects the angle of the first page, and
    nothing is saved. *)
Example rotatePdf_run_eighth :
  @rotatePdf Demo.env 0%nat 45 None [Demo.fileA]
  = (Err (Error "`degreesAngle` must be a multiple of 90, but was actually 135"),
     [Demo.fileA]).
Proof. reflexivity. Qed.

(** The rounding [fl] against the arithmetic of the machine, on the layout
    of a 1044 by 100 image on an A4 portrait page: the page width, the
    width between the margins, the scale, the scaled width and height, and
    the horizontal offset. *)
Example fl_is_binary64 :
  let pageWidth := 0x1.29a3d70a3d70ap+9%float in
  let availableWidth := (pageWidth - 40)%float in
  let scale := (availableWidth / 1044)%float in
  (Q_of_float pageWidth == fl (59528 # 100)
   /\ Q_of_float availableWidth == fl (fl (59528 # 100) - 40)
   /\ Q_of_float scale == fl (fl (fl (59528 # 100) - 40) / 1044)
   /\ Q_of_float (1044 * scale)
      == fl (1044 * fl (fl (fl (59528 # 100) - 40) / 1044))
   /\ Q_of_float (100 * scale)
      == fl (100 * fl (fl (fl (59528 # 100) - 40) / 1044))
   /\ Q_of_float ((pageWidth - 1044 * scale) / 2)
      == fl (fl (fl (59528 # 100)
                 - fl (1044 * fl (fl (fl (59528 # 100) - 40) / 1044))) / 2))%Q.
Proof. vm_compute. repeat split. Qed.

(** That layout, as [image_layout] computes it. *)
Example image_layout_A4_wide :
  let scale := fl (fl (fl (59528 # 100) - 40) / 1044)%Q in
  @image_layout Demo.env (mkImageToPdfOptions A4 Portrait) Demo.wideImage
  = (fl (59528 # 100), fl (84189 # 100),
     fl (1044 * Qmin (Qmin scale (fl (fl (fl (84189 # 100) - 20 * 2) / 100))) 1),
     fl (100 * Qmin (Qmin scale (fl (fl (fl (84189 # 100) - 20 * 2) / 100))) 1))%Q
  /\ (Qmin (Qmin scale (fl (fl (fl (84189 # 100) - 20 * 2) / 100))) 1 == scale)%Q.
Proof. split; [reflexivity | vm_compute; reflexivity]. Qed.

(** C1 on a file of the unsupported encryption: with the right password
    the rendering library opens it and the distinct error comes out; with a
    wrong one the rendering library raises its password exception and the
    incorrect-password error comes out. *)
Lemma loadPdf_failure_resolved_witness :
  (@loadPdf Demo.env 0%nat (Some "open sesame") [[Byte.x01; Byte.x02]]).1
  = Err (Error unsupported_message)
  /\ (@loadPdf Demo.env 0%nat (Some "guess") [[Byte.x01; Byte.x02]]).1
     = Err (Error incorrect_message).
Proof.
  split.
  - refine (proj1 (proj2 (proj1 (proj2
      (@loadPdf_failure_resolved Demo.env [[Byte.x01; Byte.x02]] 0%nat
         (Some "open sesame")
         (Error "Input document to PDFDocument.load is encrypted.") _ _))
      _)) Demo.pdfjs (Demo.documentProxy [Byte.x02]) _ _ _).
    + reflexivity.
    + intros pdfjs e' [= <-]. vm_compute. discriminate.
    + reflexivity.
    + reflexivity.
    + reflexivity.
    + reflexivity.
  - refine (proj1 (proj2 (proj2 (proj1 (proj2
      (@loadPdf_failure_resolved Demo.env [[Byte.x01; Byte.x02]] 0%nat
         (Some "guess")
         (Error "Input document to PDFDocument.load is encrypted.") _ _))
      _))) Demo.pdfjs (mkJsError "PasswordException" (Some "Incorrect Password"))
      _ _ _ _).
    + reflexivity.
    + intros pdfjs e' [= <-]. vm_compute. intros [= <-]. reflexivity.
    + reflexivity.
    + reflexivity.
    + reflexivity.
    + reflexivity.
    + reflexivity.
Defined.


(** C3, the claim as stated fails: a delta of 45 on a valid unencrypted
    two-page file makes Rotate throw; no page angle is changed and nothing
    is saved. *)
Lemma rotatePdf_eighth_turn :
  Demo.load Demo.fileA None = Ok Demo.docA
  /\ getPageCount Demo.docA = 2%nat
  /\ @rotatePdf Demo.env 0%nat 45 None [Demo.fileA]
     = (Err (@setRotation_rejects Demo.env 135), [Demo.fileA]).
Proof. repeat split. Qed.

(** C3 as amended, on a two-page file, a quarter turn there and back. *)
Lemma rotatePdf_then_inverse_witness :
  exists out1 st1 doc1 out2 st2 doc2,
    @rotatePdf Demo.env 0%nat 90 None [Demo.fileA] = (Ok out1, st1)
    /\ contents st1 out1 = Demo.save doc1
    /\ getPageCount doc1 = 2%nat
    /\ (forall i page, getPages Demo.docA !! i = Some page ->
          exists page1, getPages doc1 !! i = Some page1
                        /\ getRotation page1 = (getRotation page + 90)%Z)
    /\ @rotatePdf Demo.env out1 (- 90) None st1 = (Ok out2, st2)
    /\ contents st2 out2 = Demo.save doc2
    /\ getPageCount doc2 = 2%nat
    /\ (forall i page, getPages Demo.docA !! i = Some page ->
          exists page2, getPages doc2 !! i = Some page2
                        /\ getRotation page2 = getRotation page
                        /\ (getRotation page2 mod 360 = getRotation page mod 360)%Z).
Proof.
  refine (proj1 (@rotatePdf_then_inverse Demo.env Demo.env [Demo.fileA] 0%nat 90
                   Demo.docA _) _ _ _ _).
  - reflexivity.
  - discriminate.
  - valid_angle.
  - repeat (constructor; [valid_angle|]). constructor.
  - reflexivity.
Defined.

(** C4, the claim as stated fails on three inputs: for the empty index
    list the saved document has one page, not none; a rotation entry of 45
    makes Organize throw; and so does an index that names no page. *)
Lemma organizePdf_other_inputs :
  @organizePdf Demo.env 0%nat [] ∅ None [Demo.fileC]
  = (Ok 1%nat,
     [Demo.fileC;
      Demo.save (mkPDFDocument [blankPage (fl (59528 # 100)) (fl (84189 # 100))])])
  /\ @organizePdf Demo.env 0%nat [2; 0]%nat (<[1%nat := 45%Z]> ∅) None
                  [Demo.fileC]
     = (Err (@setRotation_rejects Demo.env 45), [Demo.fileC])
  /\ @organizePdf Demo.env 0%nat [2; 5]%nat ∅ None [Demo.fileC]
     = (Err (@TypeError_undefined Demo.env "node"), [Demo.fileC]).
Proof. repeat split. Qed.

(** C4 as amended: pages 2, 0, 2 of a three-page file, the first output
    page turned by 90 and the second by 180. *)
Lemma organizePdf_pages_witness :
  exists newPdf,
    @organizePdf Demo.env 0%nat [2; 0; 2]%nat Demo.turns None [Demo.fileC]
    = (Ok 1%nat, [Demo.fileC] ++ [Demo.save newPdf])
    /\ getPageCount newPdf = 3%nat.
Proof.
  destruct (@organizePdf_pages Demo.env [Demo.fileC] 0%nat [2; 0; 2]%nat
              Demo.turns None Demo.docC)
    as (newPdf & Hrun & Hcount & Hsaved & _).
  - reflexivity.
  - repeat constructor.
  - repeat (constructor; [valid_angle|]). constructor.
  - apply map_Forall_insert_2; [valid_angle|].
    apply map_Forall_insert_2; [valid_angle|]. apply map_Forall_empty.
  - exists newPdf. rewrite Hsaved in Hrun by discriminate.
    split; [exact Hrun | exact Hcount].
Defined.

(** C5, the claim as stated fails: for the empty list of inputs, whose
    page counts sum to none, the saved document has one page. *)
Lemma mergePdfs_no_input :
  @mergePdfs Demo.env [] []
  = (Ok 0%nat,
     [Demo.save (mkPDFDocument [blankPage (fl (59528 # 100)) (fl (84189 # 100))])])
  /\ getPageCount
       (mkPDFDocument [blankPage (fl (59528 # 100)) (fl (84189 # 100))])
     = 1%nat.
Proof. repeat split. Qed.

(** C5 as amended: a two-page file and a three-page file. *)
Lemma mergePdfs_pages_witness :
  exists merged,
    @mergePdfs Demo.env [0; 1]%nat [Demo.fileA; Demo.fileB]
    = (Ok 2%nat, [Demo.fileA; Demo.fileB] ++ [Demo.save merged])
    /\ getPages merged = getPages Demo.docA ++ getPages Demo.docB
    /\ getPageCount merged = 5%nat.
Proof.
  destruct (@mergePdfs_pages Demo.env [Demo.fileA; Demo.fileB] [0; 1]%nat
              [Demo.docA; Demo.docB])
    as (merged & Hrun & Hpages & Hcount & Hsaved & _).
  - repeat constructor.
  - exists merged. rewrite Hsaved in Hrun by discriminate.
    split; [exact Hrun|]. split; [|exact Hcount].
    rewrite Hpages. reflexivity.
Defined.

(** C6: a one-page file protected with a password the encryption step
    accepts, and with one for which it yields an empty output. *)
Lemma protectPdf_outcomes_witness :
  @protectPdf Demo.env 0%nat "new" None [Demo.fileD]
  = (Ok 2%nat, ([Demo.fileD] ++ [Demo.fileD]) ++ [[Byte.x01; Byte.x01]])
  /\ (@protectPdf Demo.env 0%nat "blank" None [Demo.fileD]).1
     = Err encryption_failed.
Proof.
  split.
  - refine (proj1 (proj2 (@protectPdf_outcomes Demo.env [Demo.fileD]
              ([Demo.fileD] ++ [Demo.fileD])
              0%nat 1%nat "new" None (Some [Byte.x01; Byte.x01]) _ _)
              [Byte.x01; Byte.x01] _ _)).
    + reflexivity.
    + reflexivity.
    + reflexivity.
    + discriminate.
  - refine (proj2 (proj1 (@protectPdf_outcomes Demo.env [Demo.fileD]
              ([Demo.fileD] ++ [Demo.fileD])
              0%nat 1%nat "blank" None (Some []) _ _)) _).
    + reflexivity.
    + reflexivity.
    + by right.
Defined.

(** C7, the claim as stated fails: a PNG of 1044 by 100 pixels on an A4
    portrait page is drawn wider than the page less the margin of 20 on
    each side, by the last place of the rounded product. *)
Lemma createPdfFromImages_margin_exceeded :
  exists x y width height,
    @createPdfFromImages Demo.env [Demo.wide] (mkImageToPdfOptions A4 Portrait) []
    = (Ok 1%nat,
       [[Byte.x04; Byte.x14; Byte.x00; Byte.x64];
        Demo.save
          (mkPDFDocument
             [@image_page Demo.env (mkImageToPdfOptions A4 Portrait)
                          Demo.wideImage])])
    /\ page_drawings
         (@image_page Demo.env (mkImageToPdfOptions A4 Portrait) Demo.wideImage)
       = [DrawnImage Demo.wideImage x y width height]
    /\ (page_width
          (@image_page Demo.env (mkImageToPdfOptions A4 Portrait)
                       Demo.wideImage) - 40 < width)%Q
    /\ (width
        - (page_width
             (@image_page Demo.env (mkImageToPdfOptions A4 Portrait)
                          Demo.wideImage) - 40)
        == 1 # (2 ^ 43))%Q.
Proof.
  do 4 eexists. split; [reflexivity|]. split; [reflexivity|].
  split; vm_compute; reflexivity.
Qed.

(** C7 as amended: that image on an A4 portrait page, and a 200 by 100 PNG
    on a page fitted to it. *)
Lemma createPdfFromImages_geometry_witness :
  (exists pdfDoc,
      @createPdfFromImages Demo.env [Demo.wide] (mkImageToPdfOptions A4 Portrait) []
      = (Ok 1%nat,
         [[Byte.x04; Byte.x14; Byte.x00; Byte.x64]] ++ [Demo.save pdfDoc])
      /\ getPageCount pdfDoc = 1%nat)
  /\ (exists pdfDoc,
        @createPdfFromImages Demo.env [Demo.photo] (mkImageToPdfOptions Fit Portrait) []
        = (Ok 1%nat, [[Byte.xc8; Byte.x64]] ++ [Demo.save pdfDoc])
        /\ getPageCount pdfDoc = 1%nat).
Proof.
  split.
  - destruct (@createPdfFromImages_geometry Demo.env [] [Demo.wide]
                [[Byte.x04; Byte.x14; Byte.x00; Byte.x64]]
                (mkImageToPdfOptions A4 Portrait))
      as (pdfDoc & Hrun & Hcount & Hsaved & _).
    + repeat constructor.
    + repeat constructor; vm_compute; reflexivity.
    + vm_compute; reflexivity.
    + vm_compute; reflexivity.
    + vm_compute; reflexivity.
    + vm_compute; reflexivity.
    + exists pdfDoc. rewrite Hsaved in Hrun by discriminate.
      split; [exact Hrun | exact Hcount].
  - destruct (@createPdfFromImages_geometry Demo.env [] [Demo.photo]
                [[Byte.xc8; Byte.x64]] (mkImageToPdfOptions Fit Portrait))
      as (pdfDoc & Hrun & Hcount & Hsaved & _).
    + repeat constructor.
    + repeat constructor; vm_compute; reflexivity.
    + vm_compute; reflexivity.
    + vm_compute; reflexivity.
    + vm_compute; reflexivity.
    + vm_compute; reflexivity.
    + exists pdfDoc. rewrite Hsaved in Hrun by discriminate.
      split; [exact Hrun | exact Hcount].
Defined.

(** C8, the claim as stated fails: with the rendering library loaded and a
    file that cannot be read, opening raises no password exception, and the
    probe does not return false: it throws the read error. *)
Lemma checkPdfPassword_unreadable_file :
  ~ (exists data e,
        file_read Demo.scan = Ok data
        /\ getDocument Demo.pdfjs data None = Err e
        /\ err_name e = "PasswordException")
  /\ (@checkPdfPassword Demo.env Demo.scan []).1 = Err Demo.read_error
  /\ (@checkPdfPassword Demo.env Demo.scan []).1 <> Ok false.
Proof.
  split; [|split].
  - intros (data & e & Hread & _). discriminate Hread.
  - reflexivity.
  - discriminate.
Qed.

(** C8 as amended, on a readable encrypted file, with the rendering
    library and without it. *)
Lemma checkPdfPassword_outcomes_witness :
  (@checkPdfPassword Demo.env Demo.locked []).1 = Ok true
  /\ (@checkPdfPassword (Demo.collaborators None) Demo.locked []).1 = Ok false.
Proof.
  split.
  - apply (proj1 (proj2 (@checkPdfPassword_outcomes Demo.env Demo.locked []))
             Demo.pdfjs [Byte.x01; Byte.x02] eq_refl eq_refl).
    exists (mkJsError "PasswordException" (Some "No password given")).
    split; reflexivity.
  - exact (proj1 (@checkPdfPassword_outcomes (Demo.collaborators None)
                    Demo.locked []) eq_refl).
Defined.

(** C9 at the failing input: a one-page file, the rendering library
    loaded.  After thumbnail generation the caller's array is empty; after
    the rasterization fallback and after the loader it is as before. *)
Lemma generatePdfThumbnails_hands_over_input_witness :
  contents (@generatePdfThumbnails Demo.env 0%nat None [Demo.fileD]).2 0%nat = []
  /\ contents (@rasterizePdf Demo.env 0%nat None [Demo.fileD]).2 0%nat
     = Demo.fileD
  /\ contents (@loadPdf Demo.env 0%nat None [Demo.fileD]).2 0%nat = Demo.fileD.
Proof.
  refine (@generatePdfThumbnails_hands_over_input Demo.env [Demo.fileD] 0%nat
            None Demo.pdfjs _ _).
  - reflexivity.
  - simpl. lia.
Defined.

(** C10, the claim as stated fails twice: a list with no embeddable
    image whose only file cannot be read makes Image-to-PDF throw; and for
    the empty list the document it returns has one page, not none. *)
Lemma createPdfFromImages_unreadable_file :
  (forall data, @embedded Demo.env Demo.lost data = None)
  /\ (@createPdfFromImages Demo.env [Demo.lost]
        (mkImageToPdfOptions A4 Portrait) []).1
     = Err Demo.read_error
  /\ @createPdfFromImages Demo.env [] (mkImageToPdfOptions A4 Portrait) []
     = (Ok 0%nat,
        [Demo.save
           (mkPDFDocument [blankPage (fl (59528 # 100)) (fl (84189 # 100))])])
  /\ getPageCount
       (mkPDFDocument [blankPage (fl (59528 # 100)) (fl (84189 # 100))])
     = 1%nat.
Proof. split; [done|]. repeat split. Qed.

(** C10 as amended: a text file and a PNG whose embedding throws. *)
Lemma createPdfFromImages_nothing_embedded_witness :
  exists saved,
    @createPdfFromImages Demo.env [Demo.notes; Demo.broken]
      (mkImageToPdfOptions A4 Portrait) []
    = (Ok 2%nat, [[Byte.x41]; [Byte.x00]] ++ [Demo.save saved])
    /\ getPages saved = [blankPage (fl (59528 # 100)) (fl (84189 # 100))]
    /\ getPageCount saved = 1%nat.
Proof.
  refine (@createPdfFromImages_nothing_embedded Demo.env [] [Demo.notes; Demo.broken]
            [[Byte.x41]; [Byte.x00]] (mkImageToPdfOptions A4 Portrait) _ _).
  - repeat constructor.
  - repeat constructor.
Defined.

(** * More properties of [pdfUtils.ts] *)

(** ** The rasterization fallback and the thumbnails, page by page *)

Section PageLoops.
Context `{Collaborators}.

Lemma rasterizePdf_page_run (pdf : PDFDocumentProxy) (doc : PDFDocument)
    (i : nat) (st : Store) :
  rasterizePdf_page pdf doc i st
  = (match rasterizedImage pdf i with
     | Ok image => Ok (addPage doc (rasterPage image))
     | Err e => Err e
     end, st).
Proof.
  unfold rasterizePdf_page, rasterizedImage, rasterPage, bind, await, ret.
  destruct (getPage pdf i) as [page|]; [|done].
  destruct (render page _ _) as [canvas|]; [|done].
  destruct (atob _) as [binaryString|]; [|done].
  destruct (embedPng _) as [image|]; [|done].
  by destruct (image_scale image _).
Qed.

Lemma rasterizePdf_loop_success (pdf : PDFDocumentProxy) (numbers : list nat)
    (images : list PDFImage) (doc : PDFDocument) (st : Store) :
  Forall2 (fun i image => rasterizedImage pdf i = Ok image) numbers images ->
  foldM (rasterizePdf_page pdf) numbers doc st
  = (Ok (mkPDFDocument (getPages doc ++ map rasterPage images)), st).
Proof.
  intros Hall. revert doc.
  induction Hall as [|i image numbers images Hi _ IH]; intros doc.
  - simpl. rewrite app_nil_r. by destruct doc.
  - cbn [foldM]. unfold bind. rewrite rasterizePdf_page_run, Hi, IH.
    simpl. by rewrite <- app_assoc.
Qed.

Lemma rasterizePdf_loop_failure (pdf : PDFDocumentProxy)
    (before after : list nat) (images : list PDFImage) (i : nat) (e : JsError)
    (doc : PDFDocument) (st : Store) :
  Forall2 (fun i image => rasterizedImage pdf i = Ok image) before images ->
  rasterizedImage pdf i = Err e ->
  foldM (rasterizePdf_page pdf) (before ++ i :: after) doc st = (Err e, st).
Proof.
  intros Hall Hi. revert doc.
  induction Hall as [|j image before images Hj _ IH]; intros doc.
  - cbn [app foldM]. unfold bind. by rewrite rasterizePdf_page_run, Hi.
  - cbn [app foldM]. unfold bind. by rewrite rasterizePdf_page_run, Hj, IH.
Qed.

(** What [rasterizePdf] does once the rendering library is there. *)
Lemma rasterizePdf_run (st : Store) (pdfBytes : Uint8Array)
    (password : option string) (pdfjs : PdfJsLib) :
  pdfjsLib = Some pdfjs ->
  rasterizePdf pdfBytes password st
  = let st1 := st ++ [transferred (contents st pdfBytes)] in
    match getDocument pdfjs (contents st pdfBytes) password with
    | Err e => (Err e, st1)
    | Ok pdf =>
        match foldM (rasterizePdf_page pdf) (seq 1 (numPages pdf))
                    PDFDocument_create st1 with
        | (Ok newPdfDoc, st2) =>
            (Ok (length st2),
             st2 ++ [PDFDocument_save (prepareForSave newPdfDoc)])
        | (Err e, st2) => (Err e, st2)
        end
    end.
Proof.
  intros Hlib. unfold rasterizePdf. rewrite Hlib.
  unfold bind at 1, slice0, bind at 1, read, alloc, bind at 1, pdfjs_getDocument.
  rewrite contents_alloc_new, insert_app_r_alt, Nat.sub_diag by lia.
  cbn [insert list_insert]. cbn zeta.
  destruct (getDocument pdfjs (contents st pdfBytes) password) as [pdf|e]; [|done].
  unfold bind, save, alloc.
  by destruct (foldM _ _ _ _) as [[newPdfDoc|e] st2].
Qed.

(** X1. When the rendering library opens the bytes and every page is
    rendered and embedded, the fallback saves a document with one page per
    source page, in page order 1..N; each page has half the pixel size of
    its rendered image, no rotation, and the image drawn at the origin over
    the whole page.  The result is a new array.  (For a source without
    pages, [save] adds its blank page to the empty document.) *)
Theorem rasterizePdf_pages (st : Store) (pdfBytes : Uint8Array)
    (password : option string) (pdfjs : PdfJsLib) (pdf : PDFDocumentProxy)
    (images : list PDFImage) :
  pdfjsLib = Some pdfjs ->
  getDocument pdfjs (contents st pdfBytes) password = Ok pdf ->
  Forall2 (fun i image => rasterizedImage pdf i = Ok image)
          (seq 1 (numPages pdf)) images ->
  exists newPdfDoc,
    rasterizePdf pdfBytes password st
    = (Ok (S (length st)),
       (st ++ [transferred (contents st pdfBytes)])
       ++ [PDFDocument_save (prepareForSave newPdfDoc)])
    /\ getPageCount newPdfDoc = numPages pdf
    /\ (numPages pdf <> 0%nat -> prepareForSave newPdfDoc = newPdfDoc)
    /\ forall k image,
        images !! k = Some image ->
        exists page,
          getPages newPdfDoc !! k = Some page
          /\ (page_width page == image_width image / 2)%Q
          /\ (page_height page == image_height image / 2)%Q
          /\ page_rotate page = 0%Z
          /\ page_drawings page
             = [DrawnImage image 0 0 (page_width page) (page_height page)].
Proof.
  intros Hlib Hopen Hall.
  assert (Hcount : length images = numPages pdf).
  { apply Forall2_length in Hall. by rewrite length_seq in Hall. }
  exists (mkPDFDocument (map rasterPage images)). split; [|split; [|split]].
  - rewrite (rasterizePdf_run _ _ _ _ Hlib), Hopen. cbn zeta.
    rewrite (rasterizePdf_loop_success _ _ _ _ _ Hall).
    cbn [PDFDocument_create getPages app].
    rewrite length_app. simpl. f_equal. f_equal. lia.
  - unfold getPageCount; simpl. by rewrite length_map.
  - intros Hsome. apply prepareForSave_pages. simpl.
    destruct images; [simpl in Hcount; lia | done].
  - intros k image Hk. exists (rasterPage image). split.
    { simpl. by rewrite list_lookup_fmap, Hk. }
    unfold rasterPage, image_scale; simpl.
    split; [field|]. split; [field|]. done.
Qed.

(** X2. The failures of the fallback.  Without the rendering library it
    throws at once and creates no array.  When the library does not open
    the bytes, its error is thrown.  When a page fails (fetching, rendering,
    decoding or embedding) after the pages before it succeeded, the error of
    that page is thrown and no document is saved: the only array created is
    the clone handed to the library. *)
Theorem rasterizePdf_failures (st : Store) (pdfBytes : Uint8Array)
    (password : option string) :
  (pdfjsLib = None ->
   rasterizePdf pdfBytes password st
   = (Err (Error "PDF engine not initialized."), st)) /\
  (forall pdfjs e,
      pdfjsLib = Some pdfjs ->
      getDocument pdfjs (contents st pdfBytes) password = Err e ->
      rasterizePdf pdfBytes password st
      = (Err e, st ++ [transferred (contents st pdfBytes)])) /\
  (forall pdfjs pdf done images e,
      pdfjsLib = Some pdfjs ->
      getDocument pdfjs (contents st pdfBytes) password = Ok pdf ->
      (done < numPages pdf)%nat ->
      Forall2 (fun i image => rasterizedImage pdf i = Ok image)
              (seq 1 done) images ->
      rasterizedImage pdf (S done) = Err e ->
      rasterizePdf pdfBytes password st
      = (Err e, st ++ [transferred (contents st pdfBytes)])).
Proof.
  split; [|split].
  - intros Hlib. unfold rasterizePdf. by rewrite Hlib.
  - intros pdfjs e Hlib Hopen. by rewrite (rasterizePdf_run _ _ _ _ Hlib), Hopen.
  - intros pdfjs pdf done images e Hlib Hopen Hdone Hall Hi.
    rewrite (rasterizePdf_run _ _ _ _ Hlib), Hopen. cbn zeta.
    replace (seq 1 (numPages pdf))
      with (seq 1 done ++ S done :: seq (S (S done)) (numPages pdf - S done)).
    + by rewrite (rasterizePdf_loop_failure _ _ _ _ _ _ _ _ Hall Hi).
    + replace (numPages pdf) with (done + S (numPages pdf - S done))%nat at 2 by lia.
      rewrite seq_app. simpl. do 2 f_equal.
Qed.

Lemma generatePdfThumbnails_page_run (pdf : PDFDocumentProxy)
    (thumbnails : list string) (i : nat) (st : Store) :
  generatePdfThumbnails_page pdf thumbnails i st
  = (match thumbnailOf pdf i with
     | Ok url => Ok (thumbnails ++ [url])
     | Err e => Err e
     end, st).
Proof.
  unfold generatePdfThumbnails_page, thumbnailOf, bind, await, ret.
  destruct (getPage pdf i) as [page|]; [|done].
  by destruct (render page _ _) as [canvas|].
Qed.

Lemma generatePdfThumbnails_loop_success (pdf : PDFDocumentProxy)
    (numbers : list nat) (urls thumbnails : list string) (st : Store) :
  Forall2 (fun i url => thumbnailOf pdf i = Ok url) numbers urls ->
  foldM (generatePdfThumbnails_page pdf) numbers thumbnails st
  = (Ok (thumbnails ++ urls), st).
Proof.
  intros Hall. revert thumbnails.
  induction Hall as [|i url numbers urls Hi _ IH]; intros thumbnails.
  - simpl. by rewrite app_nil_r.
  - cbn [foldM]. unfold bind. rewrite generatePdfThumbnails_page_run, Hi, IH.
    by rewrite <- app_assoc.
Qed.

Lemma generatePdfThumbnails_loop_failure (pdf : PDFDocumentProxy)
    (numbers : list nat) (i : nat) (e : JsError) (thumbnails : list string)
    (st : Store) :
  i ∈ numbers -> thumbnailOf pdf i = Err e ->
  exists e', foldM (generatePdfThumbnails_page pdf) numbers thumbnails st
             = (Err e', st).
Proof.
  intros Hin Hi. revert thumbnails.
  induction numbers as [|j numbers IH]; intros thumbnails.
  - by apply elem_of_nil in Hin.
  - cbn [foldM]. unfold bind. rewrite generatePdfThumbnails_page_run.
    destruct (thumbnailOf pdf j) as [url|e'] eqn:Hj; [|by eexists].
    apply elem_of_cons in Hin as [->|Hin]; [congruence|].
    by apply IH.
Qed.

(** X3. Thumbnail generation never throws.  It returns the empty list
    when the rendering library is missing, when the library does not open
    the bytes, and when any single page fails to be fetched or rendered
    (the thumbnails made before that page are dropped); and it returns one
    thumbnail per page, in page order, when every page succeeds. *)
Theorem generatePdfThumbnails_all_or_nothing (st : Store)
    (pdfBytes : Uint8Array) (password : option string) :
  (exists thumbnails,
      (generatePdfThumbnails pdfBytes password st).1 = Ok thumbnails) /\
  (pdfjsLib = None ->
   generatePdfThumbnails pdfBytes password st = (Ok [], st)) /\
  (forall pdfjs e,
      pdfjsLib = Some pdfjs ->
      getDocument pdfjs (contents st pdfBytes) password = Err e ->
      (generatePdfThumbnails pdfBytes password st).1 = Ok []) /\
  (forall pdfjs pdf i e,
      pdfjsLib = Some pdfjs ->
      getDocument pdfjs (contents st pdfBytes) password = Ok pdf ->
      (1 <= i <= numPages pdf)%nat ->
      thumbnailOf pdf i = Err e ->
      (generatePdfThumbnails pdfBytes password st).1 = Ok []) /\
  (forall pdfjs pdf urls,
      pdfjsLib = Some pdfjs ->
      getDocument pdfjs (contents st pdfBytes) password = Ok pdf ->
      Forall2 (fun i url => thumbnailOf pdf i = Ok url)
              (seq 1 (numPages pdf)) urls ->
      (generatePdfThumbnails pdfBytes password st).1 = Ok urls
      /\ length urls = numPages pdf).
Proof.
  unfold generatePdfThumbnails.
  destruct pdfjsLib as [pdfjs|].
  2:{ split; [eexists; reflexivity|]. split; [done|].
      split; [by intros|]. split; by intros. }
  unfold try_catch, bind, pdfjs_getDocument.
  destruct (getDocument pdfjs (contents st pdfBytes) password) as [pdf|e0]
    eqn:Hopen.
  2:{ split; [eexists; reflexivity|]. split; [done|]. split; [done|].
      split.
      - intros ? ? ? ? [= <-] Hopen'. congruence.
      - intros ? ? ? [= <-] Hopen'. congruence. }
  set (st1 := <[pdfBytes:=transferred (contents st pdfBytes)]> st).
  split; [|split; [done|split; [|split]]].
  - destruct (foldM _ _ _ _) as [[thumbnails|e] st2]; eexists; reflexivity.
  - intros ? e [= <-] Hopen'. congruence.
  - intros ? pdf' i e [= <-] Hopen' Hi Hfail.
    assert (pdf' = pdf) as -> by congruence.
    destruct (generatePdfThumbnails_loop_failure pdf (seq 1 (numPages pdf)) i e
                [] st1) as [e' ->]; [|done..].
    apply elem_of_seq. lia.
  - intros ? pdf' urls [= <-] Hopen' Hall.
    assert (pdf' = pdf) as -> by congruence.
    rewrite (generatePdfThumbnails_loop_success _ _ _ _ _ Hall). simpl.
    split; [done|]. apply Forall2_length in Hall.
    by rewrite length_seq in Hall.
Qed.

End PageLoops.

(** ** Fresh results *)

Lemma fresh_alloc (b : bytes) : returns_fresh (alloc b).
Proof.
  intros st out [= <-]. unfold alloc; simpl. rewrite length_app. simpl. lia.
Qed.

Lemma fresh_throw (e : JsError) : returns_fresh (throw e).
Proof. by intros st out. Qed.

Lemma fresh_bind {A} (m : M A) (k : A -> M Uint8Array) :
  preserves m -> (forall x, returns_fresh (k x)) -> returns_fresh (bind m k).
Proof.
  intros Hm Hk st out. unfold bind.
  destruct (Hm st) as [Hlen _].
  destruct (m st) as [[x|e] st1]; simpl in *; [|done].
  intros Hout. specialize (Hk x st1 out Hout). lia.
Qed.

Lemma fresh_try_catch (body : M Uint8Array) (handler : JsError -> M Uint8Array) :
  preserves body -> returns_fresh body ->
  (forall e, returns_fresh (handler e)) ->
  returns_fresh (try_catch body handler).
Proof.
  intros Hkeep Hbody Hhandler st out. unfold try_catch.
  destruct (Hkeep st) as [Hlen _]. specialize (Hbody st).
  destruct (body st) as [[x|e] st1]; simpl in *.
  - intros [= <-]. by apply Hbody.
  - intros Hout. specialize (Hhandler e st1 out Hout). lia.
Qed.

Section FreshResults.
Context `{Collaborators} `{Typesetting}.

Lemma fresh_clone_getDocument (pdfjs : PdfJsLib) (a : Uint8Array)
    (password : option string) (k : PDFDocumentProxy -> M Uint8Array) :
  (forall pdf, returns_fresh (k pdf)) ->
  returns_fresh
    (clone <- slice0 a ;; pdf <- pdfjs_getDocument pdfjs clone password ;; k pdf).
Proof.
  intros Hk st out.
  set (st1 := st ++ [transferred (contents st a)]).
  assert (Hrun :
    (clone <- slice0 a ;; pdf <- pdfjs_getDocument pdfjs clone password ;; k pdf) st
    = match getDocument pdfjs (contents st a) password with
      | Ok pdf => k pdf st1
      | Err e => (Err e, st1)
      end).
  { unfold bind at 1, slice0, bind at 1, read, alloc, bind at 1, pdfjs_getDocument.
    rewrite contents_alloc_new, insert_app_r_alt, Nat.sub_diag by lia.
    done. }
  rewrite Hrun. clear Hrun.
  assert (Hlen : (length st <= length st1)%nat)
    by (subst st1; rewrite length_app; lia).
  destruct (getDocument pdfjs (contents st a) password) as [pdf|e]; [|done].
  intros Hout. specialize (Hk pdf st1 out Hout). lia.
Qed.

Lemma compressPdf_preserves (pdfBytes : Uint8Array) (password : option string) :
  preserves (compressPdf pdfBytes password).
Proof.
  unfold compressPdf. apply preserves_bind; [apply loadPdf_preserves|].
  intros. apply preserves_alloc.
Qed.

Lemma watermarkPdf_preserves (pdfBytes : Uint8Array) (options : WatermarkOptions)
    (password : option string) :
  preserves (watermarkPdf pdfBytes options password).
Proof.
  unfold watermarkPdf, save. apply preserves_bind; [apply loadPdf_preserves|].
  intros. apply preserves_bind; [|intros; apply preserves_alloc].
  apply preserves_foldM. intros.
  apply preserves_bind; [apply preserves_await|]. intros. apply preserves_ret.
Qed.

Lemma fresh_after_loadPdf (pdfBytes : Uint8Array) (password : option string)
    (k : PDFDocument -> M Uint8Array) :
  (forall doc, returns_fresh (k doc)) ->
  returns_fresh (bind (loadPdf pdfBytes password) k).
Proof. intros Hk. apply fresh_bind; [apply loadPdf_preserves | exact Hk]. Qed.

Lemma rasterizePdf_fresh (pdfBytes : Uint8Array) (password : option string) :
  returns_fresh (rasterizePdf pdfBytes password).
Proof.
  unfold rasterizePdf. destruct pdfjsLib as [pdfjs|]; [|apply fresh_throw].
  apply (fresh_clone_getDocument pdfjs pdfBytes password). intros pdf.
  apply fresh_bind.
  - apply preserves_foldM. intros. apply rasterizePdf_page_preserves.
  - intros. apply fresh_alloc.
Qed.

Lemma getCleanPdfBytes_fresh (pdfBytes : Uint8Array) (password : option string) :
  returns_fresh (getCleanPdfBytes pdfBytes password).
Proof.
  unfold getCleanPdfBytes, save. apply fresh_try_catch.
  - apply preserves_bind; [apply loadPdf_preserves|]. intros.
    apply preserves_bind; [apply preserves_await|]. intros. apply preserves_alloc.
  - apply fresh_after_loadPdf. intros.
    apply fresh_bind; [apply preserves_await|]. intros. apply fresh_alloc.
  - intros e. destruct (message_includes e _);
      [apply rasterizePdf_fresh | apply fresh_throw].
Qed.

Lemma createPdfFromImages_file_preserves (options : ImageToPdfOptions)
    (pdfDoc : PDFDocument) (file : File) :
  preserves (createPdfFromImages_file options pdfDoc file).
Proof.
  unfold createPdfFromImages_file, readFileAsArrayBuffer.
  apply preserves_bind.
  { apply preserves_bind; [apply preserves_await|]. intros. apply preserves_alloc. }
  intros imageBytes. apply preserves_bind.
  - intros st. rewrite embedFile_embedded. by split.
  - intros [image|]; apply preserves_ret.
Qed.

(** X4. Every operation that returns bytes makes a new array: the arrays
    that existed before the call (the caller's input among them) are all
    still there with the same contents, and the reference returned names an
    array that did not exist before. *)
Theorem operations_make_new_arrays :
  (forall pdfBytes password, makes_new_array (rasterizePdf pdfBytes password))
  /\ (forall pdfBytes password,
         makes_new_array (getCleanPdfBytes pdfBytes password))
  /\ (forall pdfBytes password, makes_new_array (unlockPdf pdfBytes password))
  /\ (forall pdfBytes password oldPassword,
         makes_new_array (protectPdf pdfBytes password oldPassword))
  /\ (forall files, makes_new_array (mergePdfs files))
  /\ (forall pdfBytes rotation password,
         makes_new_array (rotatePdf pdfBytes rotation password))
  /\ (forall pdfBytes pageOrder rotations password,
         makes_new_array (organizePdf pdfBytes pageOrder rotations password))
  /\ (forall files options, makes_new_array (createPdfFromImages files options))
  /\ (forall pdfBytes password, makes_new_array (compressPdf pdfBytes password))
  /\ (forall pdfBytes options password,
         makes_new_array (watermarkPdf pdfBytes options password)).
Proof.
  repeat match goal with |- _ /\ _ => split end; intros; split.
  - apply rasterizePdf_preserves.
  - apply rasterizePdf_fresh.
  - apply getCleanPdfBytes_preserves.
  - apply getCleanPdfBytes_fresh.
  - apply getCleanPdfBytes_preserves.
  - apply getCleanPdfBytes_fresh.
  - apply protectPdf_preserves.
  - unfold protectPdf.
    apply fresh_bind; [apply getCleanPdfBytes_preserves|]. intros cleanBytes.
    apply fresh_bind; [apply preserves_read|]. intros clean.
    apply fresh_bind; [apply preserves_await|]. intros [output|];
      [|apply fresh_throw].
    intros st out. unfold bind, alloc.
    destruct (length output =? 0)%nat; [done|].
    intros [= <-]. simpl. rewrite length_app. simpl. lia.
  - apply mergePdfs_preserves.
  - unfold mergePdfs, save. apply fresh_bind; [|intros; apply fresh_alloc].
    apply preserves_foldM. intros. unfold mergePdfs_file.
    repeat (apply preserves_bind; [first [apply preserves_read
                                         |apply preserves_await]|intros]).
    apply preserves_ret.
  - apply rotatePdf_preserves.
  - unfold rotatePdf, save. apply fresh_after_loadPdf. intros.
    apply fresh_bind; [|intros; apply fresh_alloc].
    apply preserves_forEachM. intros.
    apply preserves_bind; [apply preserves_await|]. intros. apply preserves_ret.
  - apply organizePdf_preserves.
  - unfold organizePdf, save. apply fresh_after_loadPdf. intros.
    apply fresh_bind; [apply preserves_await|]. intros.
    apply fresh_bind; [|intros; apply fresh_alloc].
    apply preserves_forEachM. intros newPdf page index.
    apply preserves_bind; [|intros; apply preserves_ret].
    destruct (_ =? _)%Z; [apply preserves_ret | apply preserves_await].
  - apply createPdfFromImages_preserves.
  - unfold createPdfFromImages, save.
    apply fresh_bind; [|intros; apply fresh_alloc].
    apply preserves_foldM. intros. apply createPdfFromImages_file_preserves.
  - apply compressPdf_preserves.
  - unfold compressPdf. apply fresh_after_loadPdf. intros. apply fresh_alloc.
  - apply watermarkPdf_preserves.
  - unfold watermarkPdf, save. apply fresh_after_loadPdf. intros.
    apply fresh_bind; [|intros; apply fresh_alloc].
    apply preserves_foldM. intros.
    apply preserves_bind; [apply preserves_await|]. intros. apply preserves_ret.
Qed.

End FreshResults.

(** ** Which operations fall back to rasterization *)

Section Fallback.
Context `{Collaborators} `{Typesetting}.

Lemma getCleanPdfBytes_success (st st1 : Store) (pdfBytes : Uint8Array)
    (password : option string) (srcDoc : PDFDocument) :
  loadPdf pdfBytes password st = (Ok srcDoc, st1) ->
  getCleanPdfBytes pdfBytes password st
  = (Ok (length st1),
     st1 ++ [PDFDocument_save
               (prepareForSave (mkPDFDocument (getPages srcDoc)))]).
Proof.
  intros Hload. unfold getCleanPdfBytes, try_catch, bind at 1. rewrite Hload.
  unfold bind, await. rewrite copyPages_getPageIndices, forEach_addPage.
  by unfold save, alloc.
Qed.

(** X5. On a document whose encryption only the rendering library
    opens, given with its password, Rotate, Organize, Compress and Watermark
    all throw the loader's correct-password-but-unsupported error and save
    nothing; they never rasterize.  Unlock, on the same input, returns what
    the rasterization fallback returns. *)
Theorem unsupported_encryption_fallback_only_in_unlock (st : Store)
    (pdfBytes : Uint8Array) (password : string) (e : JsError)
    (pdfjs : PdfJsLib) (pdf : PDFDocumentProxy) :
  password <> EmptyString ->
  PDFDocument_load (contents st pdfBytes) (Some password) = Err e ->
  encryption_related e = true ->
  pdfjsLib = Some pdfjs ->
  getDocument pdfjs (contents st pdfBytes) (Some password) = Ok pdf ->
  let st1 := st ++ [transferred (contents st pdfBytes)] in
  (forall rotation,
      rotatePdf pdfBytes rotation (Some password) st
      = (Err (Error unsupported_message), st1))
  /\ (forall pageOrder rotations,
         organizePdf pdfBytes pageOrder rotations (Some password) st
         = (Err (Error unsupported_message), st1))
  /\ compressPdf pdfBytes (Some password) st
     = (Err (Error unsupported_message), st1)
  /\ (forall options,
         watermarkPdf pdfBytes options (Some password) st
         = (Err (Error unsupported_message), st1))
  /\ unlockPdf pdfBytes password st = rasterizePdf pdfBytes (Some password) st1.
Proof.
  intros Hpw Hload Hrelated Hlib Hopen st1.
  assert (Htruthy : truthy (Some password) = true) by (by destruct password).
  assert (Hloader : loadPdf pdfBytes (Some password) st
                    = (Err (Error unsupported_message), st1)).
  { rewrite (loadPdf_primary_failure st pdfBytes (Some password) e)
      by (by rewrite Htruthy).
    by rewrite Hrelated, Htruthy, Hlib, Hopen. }
  repeat split.
  - intros rotation. unfold rotatePdf, bind. by rewrite Hloader.
  - intros pageOrder rotations. unfold organizePdf, bind. by rewrite Hloader.
  - unfold compressPdf, bind. by rewrite Hloader.
  - intros options. unfold watermarkPdf, bind. by rewrite Hloader.
  - unfold unlockPdf, getCleanPdfBytes, try_catch, bind at 1.
    by rewrite Hloader.
Qed.

End Fallback.

Section NormalizeTwice.
Context (first second : Collaborators).

(** X6. Normalizing twice keeps the document of normalizing once.  The
    second call is a later one, with the library's answers of that time
    (its date stamp included, so the bytes it writes may differ).  When the
    bytes the first call saved open again, without a password, as the
    document that was saved, the second call saves that same document (for
    a source without pages: the one blank page the first [save] added, and
    no second one), in a new array, and the first result is left as it
    was. *)
Theorem getCleanPdfBytes_twice (st : Store) (pdfBytes : Uint8Array)
    (password : option string) (srcDoc : PDFDocument) :
  let saved := @prepareForSave first (mkPDFDocument (getPages srcDoc)) in
  @PDFDocument_load first (contents st pdfBytes)
                    (if truthy password then password else None) = Ok srcDoc ->
  @PDFDocument_load second (@PDFDocument_save first saved) None = Ok saved ->
  exists out1 st1 out2 st2,
    @getCleanPdfBytes first pdfBytes password st = (Ok out1, st1)
    /\ contents st1 out1 = @PDFDocument_save first saved
    /\ @getCleanPdfBytes second out1 None st1 = (Ok out2, st2)
    /\ contents st2 out2 = @PDFDocument_save second saved
    /\ out2 <> out1
    /\ contents st2 out1 = contents st1 out1.
Proof.
  intros saved Hload Hreopen.
  set (clean := @PDFDocument_save first saved) in *.
  pose proof (@getCleanPdfBytes_success first _ _ _ _ _
                (@loadPdf_success first _ _ _ _ Hload)) as Hrun1.
  fold saved clean in Hrun1.
  assert (Hout1 : contents (st ++ [clean]) (length st) = clean)
    by apply contents_alloc_new.
  assert (Hload1 : @PDFDocument_load second
                     (contents (st ++ [clean]) (length st))
                     (if truthy None then None else None)
                   = Ok saved)
    by (simpl; by rewrite Hout1).
  pose proof (@getCleanPdfBytes_success second _ _ _ _ _
                (@loadPdf_success second _ _ None _ Hload1)) as Hrun2.
  assert (Hsame : @prepareForSave second (mkPDFDocument (getPages saved))
                  = saved).
  { rewrite (@prepareForSave_pages second).
    - by destruct saved.
    - simpl. pose proof (@prepareForSave_count first
                           (mkPDFDocument (getPages srcDoc))) as Hcount.
      fold saved in Hcount. unfold getPageCount in Hcount.
      destruct (getPages saved); [simpl in Hcount; lia|done]. }
  rewrite Hsame in Hrun2.
  exists (length st), (st ++ [clean]), (length (st ++ [clean])),
    ((st ++ [clean]) ++ [@PDFDocument_save second saved]).
  split; [exact Hrun1|]. split; [exact Hout1|].
  split; [exact Hrun2|]. split; [apply contents_alloc_new|]. split.
  { rewrite length_app. simpl. lia. }
  apply contents_alloc_old. rewrite length_app. simpl. lia.
Qed.

End NormalizeTwice.

(** ** Watermarks *)

Section Watermarks.
Context `{Collaborators} `{Typesetting}.
Local Open Scope Q_scope.



Lemma watermarkPdf_page_spec (options : WatermarkOptions) (r g b : option Q)
    (textWidth : Q) (color : RGB) (page : PDFPage) :
  widthOfTextAtSize (wm_text options) (wm_fontSize options) = Ok textWidth ->
  rgb r g b = Ok color ->
  exists x y,
    (x, y) = watermark_position (wm_position options) (page_width page)
               (page_height page) textWidth (wm_fontSize options)
    /\ watermarkPdf_page options r g b page
       = match drawText_operators (wm_text options)
                 (mkDrawTextOptions x y (wm_fontSize options) color
                                    (wm_opacity options) 0) with
         | Err e => Err e
         | Ok operators =>
             Ok (mkPDFPage (page_width page) (page_height page)
                           (page_rotate page)
                           (page_drawings page ++ [ContentStream operators]))
         end.
Proof.
  intros Hwidth Hcolor. unfold watermarkPdf_page, drawText, degrees.
  rewrite Hwidth, Hcolor.
  destruct (watermark_position _ _ _ _ _) as [x y]. by exists x, y.
Qed.

Lemma watermarkPdf_loop_success (options : WatermarkOptions) (r g b : option Q)
    (pages marked done : list PDFPage) (st : Store) :
  Forall2 (fun page page' => watermarkPdf_page options r g b page = Ok page')
          pages marked ->
  foldM (fun done page =>
           page <- await (watermarkPdf_page options r g b page) ;;
           ret (done ++ [page]))
        pages done st
  = (Ok (done ++ marked), st).
Proof.
  intros Hall. revert done.
  induction Hall as [|page page' pages marked Hpage _ IH]; intros done.
  - simpl. by rewrite app_nil_r.
  - cbn [foldM]. unfold bind at 1. unfold bind, await, ret. rewrite Hpage.
    fold (@ret (list PDFPage)). rewrite IH. by rewrite <- app_assoc.
Qed.

Lemma watermarkPdf_loop_failure (options : WatermarkOptions) (r g b : option Q)
    (before after marked done : list PDFPage) (page : PDFPage) (e : JsError)
    (st : Store) :
  Forall2 (fun page page' => watermarkPdf_page options r g b page = Ok page')
          before marked ->
  watermarkPdf_page options r g b page = Err e ->
  foldM (fun done page =>
           page <- await (watermarkPdf_page options r g b page) ;;
           ret (done ++ [page]))
        (before ++ page :: after) done st
  = (Err e, st).
Proof.
  intros Hall Hpage. revert done.
  induction Hall as [|p p' before marked Hp _ IH]; intros done.
  - cbn [foldM app]. unfold bind, await. by rewrite Hpage.
  - cbn [foldM app]. unfold bind at 1. unfold bind at 1, await, ret.
    rewrite Hp. apply IH.
Qed.

(** X9. Watermark keeps the document.  When the library measures the
    text, accepts the colour and draws the text on every page, the document
    handed to [save] has the same number of pages, each with its size,
    rotation and earlier drawings; each page gets exactly one more drawing,
    the text with the requested size and opacity, no rotation, and one
    colour for all pages, at the position the page's own size gives.  (To a
    document without pages [save] adds its blank page.) *)
Theorem watermarkPdf_pages (st : Store) (pdfBytes : Uint8Array)
    (options : WatermarkOptions) (password : option string)
    (doc : PDFDocument) (textWidth : Q) (color : RGB) :
  PDFDocument_load (contents st pdfBytes)
                   (if truthy password then password else None) = Ok doc ->
  widthOfTextAtSize (wm_text options) (wm_fontSize options) = Ok textWidth ->
  rgb (colorComponent (wm_color options) 1 3)
      (colorComponent (wm_color options) 3 5)
      (colorComponent (wm_color options) 5 7) = Ok color ->
  (forall page x y,
      page ∈ getPages doc ->
      (x, y) = watermark_position (wm_position options) (page_width page)
                 (page_height page) textWidth (wm_fontSize options) ->
      exists operators,
        drawText_operators (wm_text options)
          (mkDrawTextOptions x y (wm_fontSize options) color
                             (wm_opacity options) 0) = Ok operators) ->
  exists marked,
    watermarkPdf pdfBytes options password st
    = (Ok (length st), st ++ [PDFDocument_save (prepareForSave marked)])
    /\ getPageCount marked = getPageCount doc
    /\ (getPages doc <> [] -> prepareForSave marked = marked)
    /\ forall k page,
        getPages doc !! k = Some page ->
        exists page' x y operators,
          getPages marked !! k = Some page'
          /\ page_width page' = page_width page
          /\ page_height page' = page_height page
          /\ page_rotate page' = page_rotate page
          /\ page_drawings page'
             = page_drawings page ++ [ContentStream operators]
          /\ drawText_operators (wm_text options)
               (mkDrawTextOptions x y (wm_fontSize options) color
                                  (wm_opacity options) 0) = Ok operators
          /\ (x, y) = watermark_position (wm_position options)
                        (page_width page) (page_height page)
                        textWidth (wm_fontSize options).
Proof.
  intros Hload Hwidth Hcolor Hdraw.
  set (r := colorComponent (wm_color options) 1 3) in *.
  set (g := colorComponent (wm_color options) 3 5) in *.
  set (b := colorComponent (wm_color options) 5 7) in *.
  assert (Hpages : exists marked,
             Forall2 (fun page page' =>
                        watermarkPdf_page options r g b page = Ok page')
                     (getPages doc) marked).
  { revert Hdraw. generalize (getPages doc). intros pages Hdraw.
    induction pages as [|page pages IH]; [by exists []|].
    destruct IH as [marked Hmarked].
    { intros p x y Hp. apply (Hdraw p). by right. }
    destruct (watermarkPdf_page_spec options r g b textWidth color page
                Hwidth Hcolor) as (x & y & Hxy & Hpage).
    destruct (Hdraw page x y) as [operators Hoperators]; [by left|done|].
    rewrite Hoperators in Hpage.
    eexists (_ :: marked). constructor; [exact Hpage | exact Hmarked]. }
  destruct Hpages as [marked Hmarked].
  exists (mkPDFDocument marked). split; [|split; [|split]].
  - unfold watermarkPdf. unfold bind at 1.
    rewrite (loadPdf_success _ _ _ _ Hload).
    unfold bind. fold r g b.
    by rewrite (watermarkPdf_loop_success _ _ _ _ _ _ [] _ Hmarked).
  - unfold getPageCount; simpl. symmetry. by eapply Forall2_length.
  - intros Hsome. apply prepareForSave_pages. simpl.
    apply Forall2_length in Hmarked.
    destruct marked; [|done]. by destruct (getPages doc).
  - intros k page Hk.
    destruct (Forall2_lookup_l _ _ _ _ _ Hmarked Hk) as (page' & Hk' & Hpage).
    destruct (watermarkPdf_page_spec options r g b textWidth color page
                Hwidth Hcolor) as (x & y & Hxy & Hspec).
    rewrite Hspec in Hpage.
    destruct (drawText_operators _ _) as [operators|e] eqn:Hoperators;
      [|done].
    injection Hpage as <-.
    exists (mkPDFPage (page_width page) (page_height page) (page_rotate page)
              (page_drawings page ++ [ContentStream operators])),
      x, y, operators.
    by repeat split.
Qed.

(** X25. What the library rejects makes Watermark throw and save
    nothing, but only once a page is reached: the text is measured and the
    colour built inside the page loop.  A document without pages is saved
    whatever the text and the colour are: what is saved is the blank page
    [save] adds.  On a document with pages, a text
    the font cannot measure throws on the first page, and so does a colour
    the library does not accept; a page the text cannot be drawn on throws
    also after earlier pages have been marked. *)
Theorem watermarkPdf_rejections (st : Store) (pdfBytes : Uint8Array)
    (options : WatermarkOptions) (password : option string)
    (doc : PDFDocument) :
  PDFDocument_load (contents st pdfBytes)
                   (if truthy password then password else None) = Ok doc ->
  let r := colorComponent (wm_color options) 1 3 in
  let g := colorComponent (wm_color options) 3 5 in
  let b := colorComponent (wm_color options) 5 7 in
  let run := watermarkPdf pdfBytes options password st in
  (getPages doc = [] ->
   run = (Ok (length st),
          st ++ [PDFDocument_save
                   (mkPDFDocument
                      [blankPage PageSizes_A4.1 PageSizes_A4.2])]))
  /\ (forall e,
         getPages doc <> [] ->
         widthOfTextAtSize (wm_text options) (wm_fontSize options) = Err e ->
         run = (Err e, st))
  /\ (forall textWidth e,
         getPages doc <> [] ->
         widthOfTextAtSize (wm_text options) (wm_fontSize options)
         = Ok textWidth ->
         rgb r g b = Err e ->
         run = (Err e, st))
  /\ (forall before page after marked e,
         getPages doc = before ++ page :: after ->
         Forall2 (fun page page' =>
                    watermarkPdf_page options r g b page = Ok page')
                 before marked ->
         watermarkPdf_page options r g b page = Err e ->
         run = (Err e, st)).
Proof.
  intros Hload r g b run. subst run.
  assert (Hrun : watermarkPdf pdfBytes options password st
                 = match foldM (fun done page =>
                                  page <- await (watermarkPdf_page options r g b page) ;;
                                  ret (done ++ [page]))
                               (getPages doc) [] st with
                   | (Ok pages, st') => save (mkPDFDocument pages) st'
                   | (Err e, st') => (Err e, st')
                   end).
  { unfold watermarkPdf. unfold bind at 1.
    by rewrite (loadPdf_success _ _ _ _ Hload). }
  assert (Hloop : forall before page after marked e,
             getPages doc = before ++ page :: after ->
             Forall2 (fun page page' =>
                        watermarkPdf_page options r g b page = Ok page')
                     before marked ->
             watermarkPdf_page options r g b page = Err e ->
             watermarkPdf pdfBytes options password st = (Err e, st)).
  { intros before page after marked e Hpages Hbefore Hpage.
    rewrite Hrun, Hpages.
    by rewrite (watermarkPdf_loop_failure _ _ _ _ _ _ _ _ _ _ _ Hbefore Hpage). }
  split; [|split; [|split]].
  - intros Hnone. rewrite Hrun, Hnone. reflexivity.
  - intros e Hsome Hwidth.
    destruct (getPages doc) as [|page rest] eqn:Hpages; [done|].
    apply (Hloop [] page rest [] e eq_refl); [constructor|].
    unfold watermarkPdf_page. by rewrite Hwidth.
  - intros textWidth e Hsome Hwidth Hcolor.
    destruct (getPages doc) as [|page rest] eqn:Hpages; [done|].
    apply (Hloop [] page rest [] e eq_refl); [constructor|].
    unfold watermarkPdf_page. rewrite Hwidth, Hcolor.
    by destruct (watermark_position _ _ _ _ _).
  - exact Hloop.
Qed.

End Watermarks.

(** ** Hexadecimal colours *)

Lemma hexDigit_range (c : ascii) (d : Z) :
  hexDigit c = Some d -> (0 <= d <= 15)%Z.
Proof.
  unfold hexDigit. intros Hd.
  repeat match type of Hd with
         | (if ?b then _ else _) = _ => destruct b eqn:?
         end; try discriminate; injection Hd as <-; lia.
Qed.

Lemma hexDigit_plain (c : ascii) (d : Z) :
  hexDigit c = Some d ->
  isWhiteSpace c = false
  /\ c <> "-"%char /\ c <> "+"%char /\ c <> "x"%char /\ c <> "X"%char.
Proof.
  destruct c as [[] [] [] [] [] [] [] []]; vm_compute; intros Hd;
    try discriminate Hd; repeat split; discriminate.
Qed.

Lemma parseInt16_two_digits (c1 c2 : ascii) (d1 d2 : Z) :
  hexDigit c1 = Some d1 -> hexDigit c2 = Some d2 ->
  parseInt16 (String c1 (String c2 EmptyString)) = Some (d1 * 16 + d2)%Z.
Proof.
  intros H1 H2.
  destruct c1 as [[] [] [] [] [] [] [] []]; vm_compute in H1;
    try discriminate H1; injection H1 as <-.
  all: match goal with
       | |- parseInt16 (String ?c _) = _ =>
           first
             [ change (Z.mul 1 <$> hexDigits (String c (String c2 EmptyString)) None
                       = Some (default 0 (hexDigit c) * 16 + d2)%Z);
               let v := eval vm_compute in (hexDigit c) in
               cbn [hexDigits]; change (hexDigit c) with v;
               cbn [default]; rewrite H2; cbn; f_equal; lia
             | destruct c2 as [[] [] [] [] [] [] [] []];
               vm_compute in H2; try discriminate H2; injection H2 as <-;
               reflexivity ]
       end.
Qed.

(** X10. For a colour written as a hash sign and six hexadecimal digits
    (either case), the three components handed to the editing library are
    the values of the three digit pairs divided by 255; each is a number
    (not NaN) between 0 and 1. *)
Theorem colorComponent_hex (c1 c2 c3 c4 c5 c6 : ascii) (d1 d2 d3 d4 d5 d6 : Z) :
  hexDigit c1 = Some d1 -> hexDigit c2 = Some d2 -> hexDigit c3 = Some d3 ->
  hexDigit c4 = Some d4 -> hexDigit c5 = Some d5 -> hexDigit c6 = Some d6 ->
  let color :=
    String "#" (String c1 (String c2 (String c3 (String c4 (String c5
      (String c6 EmptyString)))))) in
  let value (hi lo : Z) : Q := (inject_Z (hi * 16 + lo) / 255)%Q in
  colorComponent color 1 3 = Some (value d1 d2)
  /\ colorComponent color 3 5 = Some (value d3 d4)
  /\ colorComponent color 5 7 = Some (value d5 d6)
  /\ (0 <= value d1 d2 <= 1)%Q /\ (0 <= value d3 d4 <= 1)%Q
  /\ (0 <= value d5 d6 <= 1)%Q.
Proof.
  intros H1 H2 H3 H4 H5 H6 color value.
  assert (Hrange : forall c c' d d',
             hexDigit c = Some d -> hexDigit c' = Some d' ->
             (0 <= value d d' <= 1)%Q).
  { intros c c' d d' Hd Hd'.
    apply hexDigit_range in Hd, Hd'. subst value. cbn beta.
    unfold Qdiv. change (/ 255)%Q with (1 # 255)%Q.
    unfold Qle, Qmult, inject_Z; simpl. lia. }
  repeat split; try (eapply Hrange; eassumption).
  - unfold colorComponent, color, slice; simpl String.substring.
    by rewrite (parseInt16_two_digits c1 c2 d1 d2).
  - unfold colorComponent, color, slice; simpl String.substring.
    by rewrite (parseInt16_two_digits c3 c4 d3 d4).
  - unfold colorComponent, color, slice; simpl String.substring.
    by rewrite (parseInt16_two_digits c5 c6 d5 d6).
Qed.

(** ** HTML to PDF *)

Lemma removeChild_appended (node : nat) (body : list nat) :
  Forall (fun n => (n < node)%nat) body ->
  removeChild node (body ++ [node]) = body.
Proof.
  intros Hold. unfold removeChild. rewrite filter_app.
  rewrite filter_cons_False, filter_nil, app_nil_r by (by intros []).
  induction Hold as [|n body Hn _ IH]; [done|].
  rewrite filter_cons_True by lia. by rewrite IH.
Qed.

Lemma hasParent_appended (node : nat) (body : list nat) :
  hasParent node (body ++ [node]) = true.
Proof.
  unfold hasParent. apply bool_decide_eq_true.
  apply elem_of_app. right. by apply list_elem_of_singleton.
Qed.

Section Html.
Context `{Collaborators} `{HtmlRendering}.

(** X11. Whatever the outcome (no frame document, a failed rendering, a
    failed PDF assembly, success), the off-screen frame that
    [convertHtmlToPdf] appends to the body is removed again: the body has
    the children it had before the call.  No existing typed array is
    touched, and only a successful call creates one. *)
Theorem convertHtmlToPdf_removes_frame (html : string)
    (baseUrl : option string) (w : Window) :
  Forall (fun n => (n < window_nodes w)%nat) (window_body w) ->
  let after := (convertHtmlToPdf html baseUrl w).2 in
  window_body after = window_body w
  /\ window_nodes after = S (window_nodes w)
  /\ (forall a, (a < length (window_arrays w))%nat ->
        window_arrays after !! a = window_arrays w !! a)
  /\ (forall e, (convertHtmlToPdf html baseUrl w).1 = Err e ->
        window_arrays after = window_arrays w).
Proof.
  intros Hbody after. subst after. unfold convertHtmlToPdf.
  destruct iframe_contentDocument; cbn [negb].
  2:{ simpl. by rewrite removeChild_appended. }
  rewrite hasParent_appended, removeChild_appended by done.
  destruct (html2canvas _) as [canvas|e].
  - destruct (jsPDF_output _ _ _ _ _) as [output|e]; simpl.
    + repeat split; [|done]. intros a Ha. by apply lookup_app_l.
    + done.
  - done.
Qed.


End Html.

(** ** The page organizer of [App.tsx] *)

Lemma filterIndexed_delete (pages : list nat) (index start : nat) :
  filterIndexed (fun _ i => negb (i =? index)%nat) pages start
  = if decide (start <= index)%nat then delete (index - start) pages
    else pages.
Proof.
  revert start. induction pages as [|p pages IH]; intros start; simpl.
  - by destruct (decide _).
  - rewrite IH.
    destruct (Nat.eqb_spec start index) as [->|Hne];
      repeat destruct (decide _); try lia; cbn [negb].
    + by rewrite Nat.sub_diag.
    + by replace (index - start)%nat with (S (index - S start)) by lia.
    + done.
Qed.

Lemma removePage_delete (pages : list nat) (index : nat) :
  removePage pages index = delete index pages.
Proof.
  unfold removePage. rewrite filterIndexed_delete, decide_True by lia.
  by rewrite Nat.sub_0_r.
Qed.

(** X13. [removePage] takes out the entry at the given display position
    and nothing else: the entries before it stay where they are, those
    after it move up by one, and a position past the end leaves the order
    as it is. *)
Theorem removePage_positions (pages : list nat) (index : nat) :
  (forall k, (k < index)%nat -> removePage pages index !! k = pages !! k)
  /\ (forall k, (index <= k)%nat ->
        removePage pages index !! k = pages !! S k)
  /\ ((index < length pages)%nat ->
        S (length (removePage pages index)) = length pages)
  /\ ((length pages <= index)%nat -> removePage pages index = pages).
Proof.
  rewrite removePage_delete. repeat split.
  - intros k Hk. by apply list_lookup_delete_lt.
  - intros k Hk. by apply list_lookup_delete_ge.
  - intros Hindex. rewrite length_delete by by apply lookup_lt_is_Some_2.
    lia.
  - intros Hindex. revert index Hindex.
    induction pages as [|p pages IH]; intros [|index] Hindex; simpl in *;
      try done; try lia.
    f_equal. apply IH. lia.
Qed.

Lemma swapEntries_spec (l : list nat) (i j : nat) :
  (i < length l)%nat -> (j < length l)%nat ->
  exists l',
    swapEntries l i j = Some l'
    /\ l' ≡ₚ l
    /\ l' !! i = l !! j
    /\ l' !! j = l !! i
    /\ (forall k, k <> i -> k <> j -> l' !! k = l !! k).
Proof.
  intros Hi Hj.
  destruct (lookup_lt_is_Some_2 _ _ Hi) as [atI HatI].
  destruct (lookup_lt_is_Some_2 _ _ Hj) as [atJ HatJ].
  unfold swapEntries. rewrite HatI, HatJ. eexists. split; [done|].
  split; [by apply Permutation_insert_swap|].
  split; [|split].
  - destruct (decide (i = j)) as [->|Hne].
    + rewrite list_lookup_insert_eq by by rewrite length_insert. congruence.
    + rewrite list_lookup_insert_ne by done.
      rewrite list_lookup_insert_eq by done. congruence.
  - rewrite list_lookup_insert_eq by by rewrite length_insert. congruence.
  - intros k Hki Hkj. by rewrite !list_lookup_insert_ne.
Qed.

(** X14. For a display position that holds a page, [movePage] always
    yields a proper order (no entry becomes undefined) that is a
    rearrangement of the old one.  Moving up from a position other than the
    first exchanges the entry with the one before it, moving down from a
    position other than the last exchanges it with the one after it, every
    other entry stays in place; moving up from the first position or down
    from the last changes nothing. *)
Theorem movePage_swaps_neighbours (pages : list nat) (index : nat)
    (direction : Z) :
  (index < length pages)%nat ->
  exists newPages,
    movePage pages index direction = Some newPages
    /\ newPages ≡ₚ pages
    /\ (direction = (-1)%Z -> (0 < index)%nat ->
          newPages !! (index - 1)%nat = pages !! index
          /\ newPages !! index = pages !! (index - 1)%nat
          /\ forall k, k <> index -> k <> (index - 1)%nat ->
               newPages !! k = pages !! k)
    /\ (direction = 1%Z -> (index + 1 < length pages)%nat ->
          newPages !! (index + 1)%nat = pages !! index
          /\ newPages !! index = pages !! (index + 1)%nat
          /\ forall k, k <> index -> k <> (index + 1)%nat ->
               newPages !! k = pages !! k)
    /\ (direction = (-1)%Z /\ index = 0%nat
        \/ direction = 1%Z /\ (index + 1)%nat = length pages ->
        newPages = pages).
Proof.
  intros Hindex. unfold movePage.
  destruct (Z.eqb_spec direction (-1)) as [->|Hup];
    [destruct (Nat.ltb_spec 0 index) as [Hpos|Hzero]|]; cbn [andb].
  - destruct (swapEntries_spec pages index (index - 1)) as
      (l' & -> & Hperm & Hi & Hj & Hrest); [lia..|].
    exists l'. repeat split; try done; try lia.
    all: try (intros [[_ ->]|[? _]]; (lia || done)).
  - exists pages. cbn. repeat split; try done; try lia.
  - destruct (Z.eqb_spec direction 1) as [->|Hdown];
      [destruct (Nat.ltb_spec (index + 1) (length pages)) as [Hin|Hlast]|];
      cbn [andb].
    + destruct (swapEntries_spec pages index (index + 1)) as
        (l' & -> & Hperm & Hi & Hj & Hrest); [lia..|].
      exists l'. repeat split; try done; try lia.
        all: try (intros [[? _]|[_ ?]]; (lia || done)).
    + exists pages. repeat split; try done; try lia.
    + exists pages. repeat split; try done; try lia.
Qed.

(** X15. Moving a page up and then moving it, from its new position,
    down again restores the order; so does moving it down and then up. *)
Theorem movePage_there_and_back (pages newPages : list nat) (index : nat) :
  (index < length pages)%nat ->
  ((0 < index)%nat ->
   movePage pages index (-1) = Some newPages ->
   movePage newPages (index - 1) 1 = Some pages)
  /\ ((index + 1 < length pages)%nat ->
      movePage pages index 1 = Some newPages ->
      movePage newPages (index + 1) (-1) = Some pages).
Proof.
  intros Hindex. split.
  - intros Hpos Hmove. unfold movePage in *.
    destruct (Nat.ltb_spec 0 index) as [_|?]; [|lia]. cbn in Hmove.
    destruct (swapEntries_spec pages index (index - 1)) as
      (l' & Hl' & Hperm & Hi & Hj & Hrest); [lia..|].
    assert (l' = newPages) as -> by congruence.
    assert (Hlen : length newPages = length pages)
      by by apply Permutation_length.
    destruct (Nat.ltb_spec (index - 1 + 1) (length newPages)) as [_|?];
      [|lia].
    cbn.
    destruct (swapEntries_spec newPages (index - 1) (index - 1 + 1)) as
      (l2 & -> & _ & Hi2 & Hj2 & Hrest2); [lia..|].
    f_equal. apply list_eq. intros k.
    replace (index - 1 + 1)%nat with index in * by lia.
    destruct (decide (k = index)) as [->|Hk1]; [congruence|].
    destruct (decide (k = (index - 1)%nat)) as [->|Hk2]; [congruence|].
    rewrite Hrest2 by done. by apply Hrest.
  - intros Hin Hmove. unfold movePage in *.
    destruct (Nat.ltb_spec (index + 1) (length pages)) as [_|?]; [|lia].
    cbn in Hmove.
    destruct (swapEntries_spec pages index (index + 1)) as
      (l' & Hl' & Hperm & Hi & Hj & Hrest); [lia..|].
    assert (l' = newPages) as -> by congruence.
    assert (Hlen : length newPages = length pages)
      by by apply Permutation_length.
    destruct (Nat.ltb_spec 0 (index + 1)) as [_|?]; [|lia].
    cbn.
    destruct (swapEntries_spec newPages (index + 1) (index + 1 - 1)) as
      (l2 & -> & _ & Hi2 & Hj2 & Hrest2); [lia..|].
    f_equal. apply list_eq. intros k.
    replace (index + 1 - 1)%nat with index in * by lia.
    destruct (decide (k = index)) as [->|Hk1]; [congruence|].
    destruct (decide (k = (index + 1)%nat)) as [->|Hk2]; [congruence|].
    rewrite Hrest2 by done. by apply Hrest.
Qed.

(** X16. The orders the organizer can reach hold only pages of the
    document, each at most once: the initial order lists every page once,
    and [removePage] and [movePage] keep an order within range and free of
    repeats. *)
Theorem organizer_order_stays_valid (count : nat) :
  let valid pages :=
    Forall (fun i => (i < count)%nat) pages /\ NoDup pages in
  (valid (initialPages count) /\ length (initialPages count) = count)
  /\ (forall pages index, valid pages -> valid (removePage pages index))
  /\ (forall pages index direction newPages,
        valid pages ->
        movePage pages index direction = Some newPages ->
        valid newPages).
Proof.
  intros valid. subst valid. cbv beta. unfold initialPages.
  split; [|split].
  - split; [split|].
    + apply Forall_seq. intros; lia.
    + apply NoDup_seq.
    + apply length_seq.
  - intros pages index [Hrange Hdup]. rewrite removePage_delete. split.
    + by apply Forall_delete.
    + eapply sublist_NoDup; [exact Hdup|apply sublist_delete].
  - intros pages index direction newPages [Hrange Hdup] Hmove.
    assert (Hswap : forall i j l', swapEntries pages i j = Some l' ->
                                   l' ≡ₚ pages).
    { intros i j l'. unfold swapEntries.
      destruct (pages !! j) as [atJ|] eqn:Hj; [|done].
      destruct (pages !! i) as [atI|] eqn:Hi; [|done].
      intros [= <-]. by apply Permutation_insert_swap. }
    assert (Hperm : newPages ≡ₚ pages).
    { unfold movePage in Hmove.
      destruct (_ && _); [by eapply Hswap|].
      destruct (_ && _); [by eapply Hswap|].
      by injection Hmove as <-. }
    split.
    + by rewrite Hperm.
    + by rewrite Hperm.
Qed.

(** X17. Each press of the page's rotate button sets the entry of that
    display position to the next quarter turn and leaves the other entries
    alone; entries that are quarter turns below a full turn stay so; four
    presses bring the entry back to where it was. *)
Theorem rotatePage_quarter_turns (prev : gmap nat Z) (index : nat) :
  map_Forall (fun _ angle => quarterTurn angle) prev ->
  let next := rotatePage prev index in
  map_Forall (fun _ angle => quarterTurn angle) next
  /\ (forall other, other <> index -> next !! other = prev !! other)
  /\ (exists angle, next !! index = Some angle
        /\ (angle - default 0 (prev !! index) = 90
            \/ angle - default 0 (prev !! index) = -270))%Z
  /\ default 0%Z
       (rotatePage (rotatePage (rotatePage next index) index) index !! index)
     = default 0%Z (prev !! index).
Proof.
  intros Hprev next. subst next.
  assert (Hcases : quarterTurn (default 0%Z (prev !! index))).
  { destruct (prev !! index) as [angle|] eqn:Hangle; [|by left].
    by apply (Hprev index). }
  unfold rotatePage.
  repeat rewrite ?lookup_insert_eq; cbn [default].
  unfold quarterTurn in Hcases.
  split; [|split; [|split]].
  - apply map_Forall_insert_2; [|done].
    unfold quarterTurn.
    destruct Hcases as [E|[E|[E|E]]]; rewrite E; vm_compute; lia.
  - intros other Hother. by rewrite lookup_insert_ne.
  - eexists. split; [reflexivity|].
    destruct Hcases as [E|[E|[E|E]]]; rewrite E; vm_compute; lia.
  - destruct Hcases as [E|[E|[E|E]]]; rewrite E; reflexivity.
Qed.

(** X18. The two buttons of the Rotate tool.  The remainder keeps the
    sign of its dividend, so the stored angle stays strictly between minus
    and plus a full turn and may be negative; a multiple of a quarter turn
    stays one; within that range the right button adds a quarter turn
    (wrapping to 0 from 270) and the left button subtracts one (wrapping to
    0 from -270); each button undoes the other up to a full turn. *)
Theorem rotation_buttons (r : Z) :
  ((-360 < rotateLeft r < 360) /\ (-360 < rotateRight r < 360))%Z
  /\ ((90 | r)%Z -> (90 | rotateLeft r)%Z /\ (90 | rotateRight r)%Z)
  /\ ((-360 < r < 360)%Z ->
      rotateRight r = (if r <? 270 then r + 90 else r - 270)%Z
      /\ rotateLeft r = (if -270 <? r then r - 90 else r + 270)%Z)
  /\ (rotateLeft (rotateRight r) mod 360 = r mod 360
      /\ rotateRight (rotateLeft r) mod 360 = r mod 360)%Z.
Proof.
  unfold rotateLeft, rotateRight.
  assert (Hrem : forall a, exists q,
             (Z.rem a 360 = a - 360 * q /\ -360 < Z.rem a 360 < 360
              /\ (0 <= a -> 0 <= Z.rem a 360)
              /\ (a <= 0 -> Z.rem a 360 <= 0))%Z).
  { intros a. exists (Z.quot a 360).
    pose proof (Z.quot_rem' a 360). pose proof (Z.rem_bound_abs a 360).
    split; [lia|]. split; [lia|]. split.
    - intros Ha. apply Z.rem_nonneg; lia.
    - intros Ha. apply Z.rem_nonpos; lia. }
  split; [|split; [|split]].
  - destruct (Hrem (r - 90)%Z) as (? & _ & ? & _).
    destruct (Hrem (r + 90)%Z) as (? & _ & ? & _). lia.
  - intros [k ->].
    destruct (Hrem (k * 90 - 90)%Z) as (q1 & -> & _).
    destruct (Hrem (k * 90 + 90)%Z) as (q2 & -> & _).
    split.
    + exists (k - 1 - 4 * q1)%Z. lia.
    + exists (k + 1 - 4 * q2)%Z. lia.
  - intros Hr.
    destruct (Hrem (r - 90)%Z) as (q1 & E1 & ? & ? & ?).
    destruct (Hrem (r + 90)%Z) as (q2 & E2 & ? & ? & ?).
    split.
    + destruct (Z.ltb_spec r 270); lia.
    + destruct (Z.ltb_spec (-270) r); lia.
  - destruct (Hrem (r + 90)%Z) as (q1 & E1 & _).
    destruct (Hrem (r - 90)%Z) as (q2 & E2 & _).
    destruct (Hrem (Z.rem (r + 90) 360 - 90)%Z) as (q3 & E3 & _).
    destruct (Hrem (Z.rem (r - 90) 360 + 90)%Z) as (q4 & E4 & _).
    rewrite E3, E4, E1, E2. split.
    + replace (r + 90 - 360 * q1 - 90 - 360 * q3)%Z
        with (r + (- q1 - q3) * 360)%Z by lia.
      apply Z_mod_plus_full.
    + replace (r - 90 - 360 * q2 + 90 - 360 * q4)%Z
        with (r + (- q2 - q4) * 360)%Z by lia.
      apply Z_mod_plus_full.
Qed.

(** ** The organizer's state handed to [organizePdf] *)

Section OrganizerSession.
Context `{Collaborators}.

Lemma mapResult_same {A} (f : nat -> A -> Result A) (l : list A)
    (index : nat) :
  (forall k x, f k x = Ok x) -> mapResult f l index = Ok l.
Proof.
  intros Hf. revert index.
  induction l as [|x l IH]; intros index; simpl; [done|].
  by rewrite Hf, IH.
Qed.

Lemma organized_page_iff (rotations : gmap nat Z) (index : nat)
    (page : PDFPage) :
  (exists out, organized_page rotations index page = Ok out)
  <-> rotation_accepted rotations index page.
Proof.
  split; [|apply organized_page_accepted].
  intros [out Hout]. unfold rotation_accepted.
  destruct (Z.eqb_spec (default 0%Z (rotations !! index)) 0) as [E|Hne];
    [by left|right].
  unfold organized_page, setRotation, degrees in Hout.
  destruct (Z.eqb_spec (default 0%Z (rotations !! index)) 0) as [E|_];
    [done|].
  destruct (Z.eqb_spec
              (Z.rem (getRotation page + default 0%Z (rotations !! index)) 90)
              0) as [Hrem|_]; [|done].
  by apply Z.rem_divide.
Qed.

(** X19. Organize with the order the organizer starts from and a
    rotation map whose entries, if any, are all zero, is the normalizer:
    on a document the loader opens it saves exactly what
    [getCleanPdfBytes] saves. *)
Theorem organizePdf_untouched_is_normalizer (st : Store)
    (pdfBytes : Uint8Array) (rotations : gmap nat Z)
    (password : option string) (srcDoc : PDFDocument) :
  PDFDocument_load (contents st pdfBytes)
                   (if truthy password then password else None) = Ok srcDoc ->
  map_Forall (fun _ angle => angle = 0%Z) rotations ->
  organizePdf pdfBytes (initialPages (getPageCount srcDoc)) rotations
              password st
  = getCleanPdfBytes pdfBytes password st.
Proof.
  intros Hload Hzero.
  rewrite (getCleanPdfBytes_success st st pdfBytes password srcDoc)
    by by apply loadPdf_success.
  change (initialPages (getPageCount srcDoc)) with (getPageIndices srcDoc).
  rewrite (organizePdf_steps st pdfBytes _ rotations password srcDoc Hload).
  rewrite copyPages_getPageIndices.
  rewrite mapResult_same; [done|].
  intros k page. unfold organized_page.
  destruct (rotations !! k) as [angle|] eqn:Hk; [|done].
  by rewrite (Hzero k angle Hk).
Qed.

(** X20. On a document the loader opens (page angles and map entries
    being integers whose sums are exact), Organize returns a result exactly
    when every index of the order names a page of the document and the
    rotation map leaves each output position alone or gives its page an
    angle that is a multiple of 90.  An index that names no page makes it
    throw the engine's type error for reading a property of [undefined];
    with all indices naming pages, the first output position whose angle is
    not a multiple of 90 makes it throw the library's error for that angle.
    In both cases nothing is saved. *)
Theorem organizePdf_succeeds_iff (st : Store) (pdfBytes : Uint8Array)
    (pageOrder : list nat) (rotations : gmap nat Z) (password : option string)
    (srcDoc : PDFDocument) :
  PDFDocument_load (contents st pdfBytes)
                   (if truthy password then password else None) = Ok srcDoc ->
  Forall (fun page => safeInteger (getRotation page)) (getPages srcDoc) ->
  map_Forall (fun _ angle => safeInteger angle) rotations ->
  let run := organizePdf pdfBytes pageOrder rotations password st in
  ((exists result, run.1 = Ok result)
   <-> Forall (fun i => (i < getPageCount srcDoc)%nat) pageOrder
       /\ forall k i page,
            pageOrder !! k = Some i -> getPages srcDoc !! i = Some page ->
            rotation_accepted rotations k page)
  /\ (Exists (fun i => (getPageCount srcDoc <= i)%nat) pageOrder ->
      run = (Err (TypeError_undefined "node"), st))
  /\ (Forall (fun i => (i < getPageCount srcDoc)%nat) pageOrder ->
      forall k i page,
        pageOrder !! k = Some i -> getPages srcDoc !! i = Some page ->
        (forall j i' page', (j < k)%nat ->
           pageOrder !! j = Some i' -> getPages srcDoc !! i' = Some page' ->
           rotation_accepted rotations j page') ->
        ~ rotation_accepted rotations k page ->
        run = (Err (setRotation_rejects
                      (getRotation page + default 0 (rotations !! k))%Z), st)).
Proof.
  intros Hload _ _ run. subst run.
  rewrite (organizePdf_steps _ _ _ _ _ _ Hload).
  split; [|split].
  - destruct (decide (Forall (fun i => (i < getPageCount srcDoc)%nat)
                             pageOrder)) as [Hrange|Hbad].
    + destruct (copyPages_in_range _ _ Hrange) as [copied Hcopy].
      rewrite Hcopy.
      pose proof (proj1 (copyPages_spec _ _ _) Hcopy) as Hall.
      destruct (mapResult (organized_page rotations) copied 0)
        as [pages|e] eqn:Hpages.
      * split; [|intros _; by eexists].
        intros _. split; [done|]. intros k i page Hk Hi.
        destruct (Forall2_lookup_l _ _ _ _ _ Hall Hk) as (page' & Hk' & Hi').
        assert (page' = page) as -> by congruence.
        destruct (proj2 (mapResult_Ok _ _ _ _ Hpages) k page Hk')
          as (out & _ & Hout).
        apply organized_page_iff. by exists out.
      * split; [by intros [? ?]|].
        intros [_ Haccepted]. exfalso.
        destruct (mapResult_Err _ _ _ _ Hpages) as (k & page & Hk & Hpage).
        destruct (Forall2_lookup_r _ _ _ _ _ Hall Hk) as (i & Hi & Hsrc).
        destruct (proj2 (organized_page_iff rotations k page)
                    (Haccepted k i page Hi Hsrc)) as [out Hout].
        simpl in Hpage. congruence.
    + split; [|by intros [? _]].
      apply not_Forall_Exists in Hbad; [|apply _].
      rewrite copyPages_out_of_range; [by intros [? ?]|].
      eapply Exists_impl; [exact Hbad|]. intros i Hi. simpl in Hi. lia.
  - intros Hbad. by rewrite (copyPages_out_of_range _ _ Hbad).
  - intros Hrange k i page Hk Hi Hbefore Hnot.
    destruct (copyPages_in_range _ _ Hrange) as [copied Hcopy].
    rewrite Hcopy.
    pose proof (proj1 (copyPages_spec _ _ _) Hcopy) as Hall.
    destruct (Forall2_lookup_l _ _ _ _ _ Hall Hk) as (page' & Hk' & Hi').
    assert (page' = page) as -> by congruence.
    rewrite <- (take_drop_middle copied k page Hk').
    assert (Hlen : length (take k copied) = k).
    { rewrite length_take. apply lookup_lt_Some in Hk'. lia. }
    rewrite (mapResult_first_error (organized_page rotations) _ _ _ 0
               (setRotation_rejects
                  (getRotation page + default 0 (rotations !! k))%Z));
      [done| |].
    + intros j page' Hj. change (0 + j)%nat with j.
      apply organized_page_iff.
      assert (Hjk : (j < k)%nat).
      { apply lookup_lt_Some in Hj. lia. }
      rewrite lookup_take_lt in Hj by done.
      destruct (Forall2_lookup_r _ _ _ _ _ Hall Hj) as (i' & Hi'' & Hsrc).
      by apply (Hbefore j i').
    + rewrite Hlen. change (0 + k)%nat with k.
      apply organized_page_rejected.
      * intros E. apply Hnot. by left.
      * intros Hdiv. apply Hnot. by right.
Qed.

(** X21. Rotations belong to display positions, not to pages.  After
    [removePage] the rotation map is used as it is: on a document whose
    page angles are multiples of 90, with a rotation map whose entries are
    multiples of 90, the page that was shown one position further down
    moves up, and Organize saves it with the rotation entered at the
    position it moved to. *)
Theorem organizePdf_after_removePage (st : Store) (pdfBytes : Uint8Array)
    (pages : list nat) (rotations : gmap nat Z) (password : option string)
    (srcDoc : PDFDocument) (index k i : nat) :
  PDFDocument_load (contents st pdfBytes)
                   (if truthy password then password else None) = Ok srcDoc ->
  Forall (fun i => (i < getPageCount srcDoc)%nat) pages ->
  Forall (fun page => validAngle (getRotation page)) (getPages srcDoc) ->
  map_Forall (fun _ angle => validAngle angle) rotations ->
  (index <= k)%nat ->
  pages !! S k = Some i ->
  exists newPdf src out,
    organizePdf pdfBytes (removePage pages index) rotations password st
    = (Ok (length st), st ++ [PDFDocument_save newPdf])
    /\ getPageCount newPdf = (length pages - 1)%nat
    /\ getPages srcDoc !! i = Some src
    /\ getPages newPdf !! k = Some out
    /\ page_drawings out = page_drawings src
    /\ getRotation out = (getRotation src + default 0 (rotations !! k))%Z.
Proof.
  intros Hload Hrange Hangles Hentries Hindex Hk.
  assert (Hrange' : Forall (fun i => (i < getPageCount srcDoc)%nat)
                           (removePage pages index)).
  { rewrite removePage_delete. by apply Forall_delete. }
  assert (Hk' : removePage pages index !! k = Some i).
  { rewrite removePage_delete, list_lookup_delete_ge; done. }
  destruct (organizePdf_accepted st pdfBytes _ rotations password srcDoc
              Hload Hrange' Hangles Hentries)
    as (copied & saved & Hall & Hsaved & Hrun).
  destruct (mapResult_Ok _ _ _ _ Hsaved) as [Hcount Hout].
  destruct (Forall2_lookup_l _ _ _ _ _ Hall Hk') as (src & Hsrc & Hi).
  destruct (Hout k src Hsrc) as (out & Hlookup & Hpage).
  destruct (organized_page_spec rotations k src out Hpage)
    as (_ & _ & Hdrawings & Hrotation).
  exists (mkPDFDocument saved), src, out.
  split.
  { rewrite Hrun, prepareForSave_pages; [done|].
    simpl. intros E. by rewrite E in Hlookup. }
  split.
  { unfold getPageCount. simpl.
    rewrite Hcount, <- (Forall2_length _ _ _ Hall), removePage_delete.
    rewrite length_delete; [done|].
    apply lookup_lt_is_Some_2. apply lookup_lt_Some in Hk. lia. }
  done.
Qed.

End OrganizerSession.

(** ** File names *)

Lemma toLowerCase_app (s t : string) :
  toLowerCase (s +:+ t) = toLowerCase s +:+ toLowerCase t.
Proof. induction s as [|c s IH]; simpl; [done|]. by rewrite IH. Qed.

Lemma length_app_string (s t : string) :
  String.length (s +:+ t) = (String.length s + String.length t)%nat.
Proof. induction s as [|c s IH]; simpl; [done|]. by rewrite IH. Qed.

Lemma substring_whole (s : string) :
  String.substring 0 (String.length s) s = s.
Proof. induction s as [|c s IH]; simpl; [done|]. by rewrite IH. Qed.

Lemma substring_app_skip (s t : string) (m k : nat) :
  String.substring (String.length s + m) k (s +:+ t) = String.substring m k t.
Proof. induction s as [|c s IH]; simpl; done. Qed.

(** When the suffix is no longer than [t], whether [s +:+ t] ends with it
    is decided by [t]. *)
Lemma endsWith_app (s t suffix : string) :
  (String.length suffix <= String.length t)%nat ->
  endsWith (s +:+ t) suffix = endsWith t suffix.
Proof.
  intros Hlen. unfold endsWith. rewrite length_app_string.
  replace (String.length s + String.length t - String.length suffix)%nat
    with (String.length s + (String.length t - String.length suffix))%nat
    by lia.
  rewrite substring_app_skip. f_equal.
  destruct (Nat.leb_spec (String.length suffix) (String.length t));
    destruct (Nat.leb_spec (String.length suffix)
                (String.length s + String.length t)); done || lia.
Qed.

Lemma endsWith_refl (s : string) : endsWith s s = true.
Proof.
  unfold endsWith. rewrite Nat.leb_refl, Nat.sub_diag, substring_whole.
  simpl. apply String.eqb_refl.
Qed.

Lemma removeFirst_pdf_straddle (c : ascii) (base : string) :
  startsWith (String c base) ".pdf" = false ->
  startsWith (String c base +:+ ".pdf") ".pdf" = false.
Proof.
  destruct base as [|c2 [|c3 [|c4 rest]]]; simpl; intros Hbase;
    repeat match goal with
           | |- context [Ascii.eqb ?a ?b] =>
               lazymatch b with
               | Ascii _ _ _ _ _ _ _ _ => fail
               | _ => destruct (Ascii.eqb a b)
               end
           end; done.
Qed.

Lemma removeFirst_String (c : ascii) (s pattern : string) :
  removeFirst (String c s) pattern
  = if startsWith (String c s) pattern
    then String.substring (String.length pattern)
                          (String.length (String c s) - String.length pattern)
                          (String c s)
    else String c (removeFirst s pattern).
Proof. reflexivity. Qed.

Lemma removeFirst_pdf (base : string) :
  includes base ".pdf" = false ->
  removeFirst (base +:+ ".pdf") ".pdf" = base.
Proof.
  induction base as [|c base IH]; [done|].
  intros Hnone. cbn [includes] in Hnone.
  apply orb_false_iff in Hnone as [Hhere Hlater].
  pose proof (removeFirst_pdf_straddle c base Hhere) as Hstraddle.
  change (String c base +:+ ".pdf") with (String c (base +:+ ".pdf")) in *.
  by rewrite removeFirst_String, Hstraddle, IH.
Qed.

Lemma isExtension_no_dot (s t : string) :
  isExtension (s +:+ String "." t) = false.
Proof.
  induction s as [|c s IH]; [done|].
  change (String c s +:+ String "." t) with (String c (s +:+ String "." t)).
  cbn [isExtension]. rewrite IH.
  destruct (s +:+ String "." t) eqn:E.
  - by destruct s.
  - apply andb_false_r.
Qed.

(** X22. Every name [processAction] saves under ends in [.pdf], in some
    letter case.  A typed name that already does is kept as it is; one that
    does not gets [.pdf] appended.  With no typed name and no file the name
    is [document.pdf]; with no typed name, a first file called
    [base.pdf], where [base] does not itself contain [.pdf] nor end in
    it in another letter case, gives its own name back. *)
Theorem outputName_ends_in_pdf (customFileName : string) (files : list File) :
  endsWith (toLowerCase (outputName customFileName files)) ".pdf" = true
  /\ (customFileName <> EmptyString ->
      outputName customFileName files
      = if endsWith (toLowerCase customFileName) ".pdf" then customFileName
        else customFileName +:+ ".pdf")
  /\ outputName EmptyString [] = "document.pdf"
  /\ (forall file rest base,
        file_name file = base +:+ ".pdf" ->
        includes base ".pdf" = false ->
        endsWith (toLowerCase base) ".pdf" = false ->
        outputName EmptyString (file :: rest) = file_name file).
Proof.
  split; [|split; [|split]].
  - unfold outputName.
    set (chosen := if truthy (Some customFileName) then _ else _).
    destruct (endsWith (toLowerCase chosen) ".pdf") eqn:Hends; cbn [negb].
    + done.
    + by rewrite toLowerCase_app, endsWith_app, endsWith_refl.
  - intros Hname. unfold outputName.
    destruct customFileName as [|c name]; [done|]. cbn [truthy].
    by destruct (endsWith _ _).
  - reflexivity.
  - intros file rest base Hfile Hnone Hends. unfold outputName.
    cbn [truthy]. rewrite Hfile, removeFirst_pdf by done.
    by rewrite Hends.
Qed.

Lemma removeExtension_String (c : ascii) (name : string) :
  removeExtension (String c name)
  = if Ascii.eqb c "." && isExtension name then EmptyString
    else String c (removeExtension name).
Proof. reflexivity. Qed.

(** X23. Removing the extension of a name cuts it at its last dot when
    one or more characters, none of them a slash, follow that dot; a name
    with no such ending is left as it is. *)
Theorem removeExtension_cuts_at_last_dot (name : string) :
  (forall base ext,
      name = base +:+ "." +:+ ext -> isExtension ext = true ->
      removeExtension name = base)
  /\ ((forall base ext, name = base +:+ "." +:+ ext -> isExtension ext = false)
      -> removeExtension name = name).
Proof.
  split.
  - intros base ext -> Hext. change ("." +:+ ext) with (String "." ext).
    induction base as [|c base IH].
    + change (EmptyString +:+ String "." ext) with (String "." ext).
      by rewrite removeExtension_String, Hext.
    + change (String c base +:+ String "." ext)
        with (String c (base +:+ String "." ext)).
      by rewrite removeExtension_String, IH, isExtension_no_dot, andb_false_r.
  - induction name as [|c name IH]; [done|]. intros Hnone.
    rewrite removeExtension_String.
    destruct (Ascii.eqb_spec c ".") as [->|Hc]; cbn [andb].
    + rewrite (Hnone EmptyString name eq_refl). f_equal. apply IH.
      intros base ext ->. apply (Hnone (String "." base) ext eq_refl).
    + f_equal. apply IH.
      intros base ext ->. apply (Hnone (String c base) ext eq_refl).
Qed.

(** X24. The name proposed when files are present and none has been
    typed is a base followed by [_processed]: the base is [merged] for the
    Merge tool, [images] for the image tool, and otherwise the first file's
    name without its extension.  Saved under that proposal, the result is
    called the proposal followed by [.pdf].  A typed name is never
    replaced, and nothing is proposed while there are no files. *)
Theorem defaultFileName_proposal (toolId : string) (file : File)
    (files : list File) (customFileName : string) :
  let proposal := defaultFileName toolId (file :: files) EmptyString in
  (exists base,
      proposal = base +:+ "_processed"
      /\ (toolId = ToolType_Merge -> base = "merged")
      /\ (toolId = ToolType_ImageToPdf -> base = "images")
      /\ (toolId <> ToolType_Merge -> toolId <> ToolType_ImageToPdf ->
          base = removeExtension (file_name file)))
  /\ outputName proposal (file :: files) = proposal +:+ ".pdf"
  /\ (customFileName <> EmptyString ->
      defaultFileName toolId (file :: files) customFileName = customFileName)
  /\ defaultFileName toolId [] customFileName = customFileName.
Proof.
  intros proposal. subst proposal.
  assert (Hproposal : exists base,
             defaultFileName toolId (file :: files) EmptyString
             = base +:+ "_processed"
             /\ (toolId = ToolType_Merge -> base = "merged")
             /\ (toolId = ToolType_ImageToPdf -> base = "images")
             /\ (toolId <> ToolType_Merge -> toolId <> ToolType_ImageToPdf ->
                 base = removeExtension (file_name file))).
  { unfold defaultFileName. cbn [truthy].
    destruct (String.eqb_spec toolId ToolType_Merge) as [->|Hmerge].
    - exists "merged". by repeat split.
    - destruct (String.eqb_spec toolId ToolType_ImageToPdf) as [->|Himages].
      + exists "images". by repeat split.
      + exists (removeExtension (file_name file)). by repeat split. }
  split; [exact Hproposal|]. split; [|split].
  - destruct Hproposal as (base & -> & _). unfold outputName.
    assert (Htruthy : truthy (Some (base +:+ "_processed")) = true)
      by by destruct base.
    rewrite Htruthy, toLowerCase_app, endsWith_app by (simpl; lia).
    reflexivity.
  - intros Hname. unfold defaultFileName.
    by destruct customFileName.
  - reflexivity.
Qed.

(** * The rest of the orchestrator on concrete files *)

(** X1 on a one-page file of the unsupported encryption, opened with its
    password: the fallback saves one page. *)
Lemma rasterizePdf_pages_witness :
  exists newPdfDoc,
    @rasterizePdf Demo.env 0%nat (Some "open sesame") [[Byte.x01; Byte.x02]]
    = (Ok 2%nat,
       ([[Byte.x01; Byte.x02]] ++ [[]]) ++ [Demo.save newPdfDoc])
    /\ getPageCount newPdfDoc = 1%nat.
Proof.
  destruct (@rasterizePdf_pages Demo.env [[Byte.x01; Byte.x02]] 0%nat
              (Some "open sesame") Demo.pdfjs (Demo.documentProxy [Byte.x02])
              [mkPDFImage Png [Byte.x01; Byte.x01] 1 1])
    as (newPdfDoc & Hrun & Hcount & Hsaved & _).
  - reflexivity.
  - reflexivity.
  - repeat constructor.
  - exists newPdfDoc. rewrite Hsaved in Hrun by discriminate.
    split; [exact Hrun | exact Hcount].
Defined.

(** X5 on a file of the unsupported encryption with its password: Rotate
    throws, Unlock rasterizes. *)
Lemma unsupported_encryption_fallback_only_in_unlock_witness :
  @rotatePdf Demo.env 0%nat 90 (Some "open sesame") [[Byte.x01; Byte.x02]]
  = (Err (Error unsupported_message), [[Byte.x01; Byte.x02]; []])
  /\ @unlockPdf Demo.env 0%nat "open sesame" [[Byte.x01; Byte.x02]]
     = @rasterizePdf Demo.env 0%nat (Some "open sesame")
         [[Byte.x01; Byte.x02]; []].
Proof.
  pose proof (@unsupported_encryption_fallback_only_in_unlock Demo.env
                Sample.typesetting [[Byte.x01; Byte.x02]] 0%nat "open sesame"
                (Error "Input document to PDFDocument.load is encrypted.")
                Demo.pdfjs (Demo.documentProxy [Byte.x02]))
    as Hcases.
  destruct Hcases as (Hrotate & _ & _ & _ & Hunlock).
  - discriminate.
  - reflexivity.
  - reflexivity.
  - reflexivity.
  - reflexivity.
  - split; [exact (Hrotate 90%Z) | exact Hunlock].
Defined.

(** X6 on a two-page file. *)
Lemma getCleanPdfBytes_twice_witness :
  exists out1 st1 out2 st2,
    @getCleanPdfBytes Demo.env 0%nat None [Demo.fileA] = (Ok out1, st1)
    /\ contents st1 out1 = Demo.save Demo.docA
    /\ @getCleanPdfBytes Demo.env out1 None st1 = (Ok out2, st2)
    /\ contents st2 out2 = Demo.save Demo.docA
    /\ out2 <> out1
    /\ contents st2 out1 = contents st1 out1.
Proof.
  refine (@getCleanPdfBytes_twice Demo.env Demo.env [Demo.fileA] 0%nat None
            Demo.docA _ _).
  - reflexivity.
  - reflexivity.
Defined.

(** X9: a two-page file marked in the centre, in red. *)
Lemma watermarkPdf_pages_witness :
  exists marked,
    @watermarkPdf Demo.env Sample.typesetting 0%nat Sample.confidential None
                  [Demo.fileA]
    = (Ok 1%nat, [Demo.fileA] ++ [Demo.save marked])
    /\ getPageCount marked = 2%nat.
Proof.
  destruct (@watermarkPdf_pages Demo.env Sample.typesetting [Demo.fileA] 0%nat
              Sample.confidential None Demo.docA
              (48 * inject_Z (Z.of_nat 12) * (6 # 10))%Q
              (mkRGB (255 # 255) (0 # 255) (0 # 255)))
    as (marked & Hrun & Hcount & Hsaved & _).
  - reflexivity.
  - reflexivity.
  - reflexivity.
  - intros page x y _ _. eexists. reflexivity.
  - exists marked. rewrite Hsaved in Hrun by discriminate.
    split; [exact Hrun | exact Hcount].
Defined.

(** X25: a colour that is not hexadecimal is rejected on a two-page file,
    and never looked at on a file without pages, for which the blank page
    is saved. *)
Lemma watermarkPdf_rejections_witness :
  @watermarkPdf Demo.env Sample.typesetting 0%nat
     (mkWatermarkOptions "Draft" 48 "red" (1 # 2) C) None [[Byte.x00]]
  = (Ok 1%nat,
     [[Byte.x00]]
     ++ [Demo.save
           (mkPDFDocument
              [blankPage (fl (59528 # 100)) (fl (84189 # 100))])])
  /\ @watermarkPdf Demo.env Sample.typesetting 0%nat
       (mkWatermarkOptions "Draft" 48 "red" (1 # 2) C) None [Demo.fileA]
     = (Err (Error "a colour component must be at least 0 and at most 1"),
        [Demo.fileA]).
Proof.
  split.
  - refine (proj1 (@watermarkPdf_rejections Demo.env Sample.typesetting
                     [[Byte.x00]] 0%nat
                     (mkWatermarkOptions "Draft" 48 "red" (1 # 2) C) None
                     (mkPDFDocument []) _) _).
    + reflexivity.
    + reflexivity.
  - refine (proj1 (proj2 (proj2 (@watermarkPdf_rejections Demo.env
                     Sample.typesetting [Demo.fileA] 0%nat
                     (mkWatermarkOptions "Draft" 48 "red" (1 # 2) C) None
                     Demo.docA _)))
              (48 * inject_Z (Z.of_nat 5) * (6 # 10))%Q _ _ _ _).
    + reflexivity.
    + discriminate.
    + reflexivity.
    + reflexivity.
Defined.

(** X10 on the colour [#FF0080]. *)
Lemma colorComponent_hex_witness :
  colorComponent "#FF0080" 1 3 = Some (inject_Z (15 * 16 + 15) / 255)%Q
  /\ colorComponent "#FF0080" 3 5 = Some (inject_Z (0 * 16 + 0) / 255)%Q
  /\ colorComponent "#FF0080" 5 7 = Some (inject_Z (8 * 16 + 0) / 255)%Q.
Proof.
  destruct (colorComponent_hex "F" "F" "0" "0" "8" "0" 15 15 0 0 8 0
              eq_refl eq_refl eq_refl eq_refl eq_refl eq_refl)
    as (Hred & Hgreen & Hblue & _).
  split; [exact Hred|]. split; [exact Hgreen | exact Hblue].
Defined.

(** X11 in a window whose body has two children, for a document that
    renders and for one that does not. *)
Lemma convertHtmlToPdf_removes_frame_witness :
  window_body
    (@convertHtmlToPdf Demo.env (Sample.rendering true) "<p>Hello</p>" None
                       Sample.window).2
  = [0; 1]%nat
  /\ window_body
       (@convertHtmlToPdf Demo.env (Sample.rendering true) "<blink>Hello</blink>"
                          None Sample.window).2
     = [0; 1]%nat.
Proof.
  split.
  - refine (proj1 (@convertHtmlToPdf_removes_frame Demo.env
                     (Sample.rendering true) "<p>Hello</p>" None
                     Sample.window _)).
    repeat constructor.
  - refine (proj1 (@convertHtmlToPdf_removes_frame Demo.env
                     (Sample.rendering true) "<blink>Hello</blink>" None
                     Sample.window _)).
    repeat constructor.
Defined.

(** X14: the second of three pages moved up. *)
Lemma movePage_swaps_neighbours_witness :
  exists newPages,
    movePage [5; 6; 7]%nat 1 (-1) = Some newPages
    /\ newPages !! 0%nat = Some 6%nat
    /\ newPages !! 1%nat = Some 5%nat.
Proof.
  destruct (movePage_swaps_neighbours [5; 6; 7]%nat 1 (-1))
    as (newPages & Hmove & _ & Hup & _).
  - simpl. lia.
  - exists newPages. split; [exact Hmove|].
    destruct (Hup eq_refl) as (Hbefore & Hhere & _); [lia|].
    split; [exact Hbefore | exact Hhere].
Defined.

(** X15: the second of three pages moved up and down again. *)
Lemma movePage_there_and_back_witness :
  movePage [6; 5; 7]%nat 0 1 = Some [5; 6; 7]%nat.
Proof.
  refine (proj1 (movePage_there_and_back [5; 6; 7]%nat [6; 5; 7]%nat 1 _) _ _).
  - simpl. lia.
  - lia.
  - reflexivity.
Defined.

(** X17 on a rotation map with two entries. *)
Lemma rotatePage_quarter_turns_witness :
  map_Forall (fun _ angle => quarterTurn angle) (rotatePage Demo.turns 0)
  /\ rotatePage Demo.turns 0 !! 1%nat = Demo.turns !! 1%nat.
Proof.
  destruct (rotatePage_quarter_turns Demo.turns 0) as (Hall & Hothers & _).
  - apply map_Forall_insert_2; [right; by left|].
    apply map_Forall_insert_2; [right; right; by left|].
    apply map_Forall_empty.
  - split; [exact Hall|]. apply Hothers. discriminate.
Defined.

(** X19 on a three-page file, with a rotation entry back at zero. *)
Lemma organizePdf_untouched_is_normalizer_witness :
  @organizePdf Demo.env 0%nat (initialPages (getPageCount Demo.docC))
               (<[1%nat := 0%Z]> ∅) None [Demo.fileC]
  = @getCleanPdfBytes Demo.env 0%nat None [Demo.fileC].
Proof.
  refine (@organizePdf_untouched_is_normalizer Demo.env [Demo.fileC] 0%nat
            (<[1%nat := 0%Z]> ∅) None Demo.docC _ _).
  - reflexivity.
  - apply map_Forall_insert_2; [reflexivity|]. apply map_Forall_empty.
Defined.

(** X20 on a three-page file: an order within range with quarter turns
    gives a result, an order naming a sixth page throws, and so does an
    eighth of a turn at the second position. *)
Lemma organizePdf_succeeds_iff_witness :
  (exists result,
      (@organizePdf Demo.env 0%nat [2; 0; 2]%nat Demo.turns None
                    [Demo.fileC]).1 = Ok result)
  /\ @organizePdf Demo.env 0%nat [2; 5]%nat Demo.turns None [Demo.fileC]
     = (Err (@TypeError_undefined Demo.env "node"), [Demo.fileC])
  /\ @organizePdf Demo.env 0%nat [2; 0; 2]%nat (<[1%nat := 45%Z]> Demo.turns)
                  None [Demo.fileC]
     = (Err (@setRotation_rejects Demo.env 45), [Demo.fileC]).
Proof.
  assert (Hpages : Forall (fun page => safeInteger (getRotation page))
                          (getPages Demo.docC)).
  { repeat (constructor; [vm_compute; discriminate|]). constructor. }
  assert (Hturns : map_Forall (fun _ angle => safeInteger angle) Demo.turns).
  { apply map_Forall_insert_2; [vm_compute; discriminate|].
    apply map_Forall_insert_2; [vm_compute; discriminate|].
    apply map_Forall_empty. }
  split; [|split].
  - refine (proj2 (proj1 (@organizePdf_succeeds_iff Demo.env
                            [Demo.fileC] 0%nat [2; 0; 2]%nat Demo.turns None
                            Demo.docC _ Hpages Hturns)) _).
    + reflexivity.
    + split; [repeat constructor|].
      intros [|[|[|k]]] i page Hk Hi; try discriminate;
        injection Hk as <-; injection Hi as <-.
      * right. by exists 3%Z.
      * right. by exists 2%Z.
      * by left.
  - refine (proj1 (proj2 (@organizePdf_succeeds_iff Demo.env
                            [Demo.fileC] 0%nat [2; 5]%nat Demo.turns None
                            Demo.docC _ Hpages Hturns)) _).
    + reflexivity.
    + apply Exists_cons_tl, Exists_cons_hd. vm_compute. lia.
  - refine (proj2 (proj2 (@organizePdf_succeeds_iff Demo.env
                            [Demo.fileC] 0%nat [2; 0; 2]%nat
                            (<[1%nat := 45%Z]> Demo.turns) None
                            Demo.docC _ Hpages _)) _
              1%nat 0%nat (Demo.page_of_byte Byte.x00) _ _ _ _).
    + reflexivity.
    + apply map_Forall_insert_2; [vm_compute; discriminate|exact Hturns].
    + repeat constructor.
    + reflexivity.
    + reflexivity.
    + intros [|j] i' page' Hj Hi' Hpage'; [|lia].
      injection Hi' as <-. injection Hpage' as <-.
      right. by exists 3%Z.
    + intros [E|[q Hq]]; [discriminate E|].
      change (45 = q * 90)%Z in Hq. lia.
Defined.

(** X21 on a three-page file: after the first page is removed, the second
    page is saved with the rotation entered at the first position. *)
Lemma organizePdf_after_removePage_witness :
  exists newPdf src out,
    @organizePdf Demo.env 0%nat (removePage [0; 1; 2]%nat 0) Demo.turns None
                 [Demo.fileC]
    = (Ok 1%nat, [Demo.fileC] ++ [Demo.save newPdf])
    /\ getPageCount newPdf = 2%nat
    /\ getPages Demo.docC !! 1%nat = Some src
    /\ getPages newPdf !! 0%nat = Some out
    /\ page_drawings out = page_drawings src
    /\ getRotation out
       = (getRotation src + default 0 (Demo.turns !! 0%nat))%Z.
Proof.
  refine (@organizePdf_after_removePage Demo.env [Demo.fileC] 0%nat
            [0; 1; 2]%nat Demo.turns None Demo.docC 0 0 1 _ _ _ _ _ _).
  - reflexivity.
  - repeat constructor.
  - repeat (constructor; [valid_angle|]). constructor.
  - apply map_Forall_insert_2; [valid_angle|].
    apply map_Forall_insert_2; [valid_angle|]. apply map_Forall_empty.
  - lia.
  - reflexivity.
Defined.

(** The file names on concrete inputs. *)
Example outputName_samples :
  outputName "report" [] = "report.pdf"
  /\ outputName "Report.PDF" [] = "Report.PDF"
  /\ outputName EmptyString [Demo.scan] = "scan.pdf"
  /\ outputName EmptyString [Demo.photo] = "photo.png.pdf"
  /\ defaultFileName "rotate" [Demo.scan] EmptyString = "scan_processed"
  /\ defaultFileName ToolType_Merge [Demo.scan; Demo.locked] EmptyString = "merged_processed"
  /\ removeExtension "archive.tar.gz" = "archive.tar"
  /\ removeExtension "folder.d/readme" = "folder.d/readme".
Proof. repeat split. Qed.

(** The organizer's helpers on a concrete order. *)
Example organizer_samples :
  initialPages 3 = [0; 1; 2]%nat
  /\ removePage [0; 1; 2]%nat 1 = [0; 2]%nat
  /\ movePage [0; 1; 2]%nat 2 1 = Some [0; 1; 2]%nat
  /\ movePage [0; 1; 2]%nat 3 (-1) = None
  /\ rotateLeft 0 = (-90)%Z
  /\ rotateRight 270 = 0%Z.
Proof. repeat split. Qed.

(** [convertHtmlToPdf] on a document that renders, on one that does not,
    and without a frame document. *)
Example convertHtmlToPdf_run :
  (@convertHtmlToPdf Demo.env (Sample.rendering true) "<p>Hello</p>" None
                     Sample.window).1 = Ok 0%nat
  /\ (@convertHtmlToPdf Demo.env (Sample.rendering true) "<blink>Hello</blink>"
                        None Sample.window).1
     = Err (Error "Failed to convert HTML: Unsupported element")
  /\ (@convertHtmlToPdf Demo.env (Sample.rendering false) "<p>Hello</p>" None
                        Sample.window).1
     = Err (Error "Failed to create iframe for HTML rendering").
Proof. repeat split. Qed.
